(** * WhatsAppManager: connection lifecycle, recovery and enrichment

    A shallow embedding of [src/services/WhatsAppManager.js] and of the
    pagination parameters computed in [src/controllers/whatsappController.js].

    The manager is a single-threaded JavaScript object.  Its mutable members
    ([this.instances], [this.profilePicCache], the session directories on
    disk, the socket it emits on, the timeouts it has armed) become the
    fields of a [World] record that every method threads explicitly.  A
    method that can throw returns an [Outcome]; an [Error] is its message.

    The MessagingClient is external.  What it answers is read from a script
    stored in the world, one [Reply] per call, so that the same closure run
    twice may see two different answers; a reply says how long the promise
    takes and what it settles to, and every promise settles.  A race against
    a timer is decided by that duration, except for the race of a whole batch
    of lookups against the batch timer, which is left to the scheduler.

    A method runs from its call to its return as one step: what other
    callbacks do while it is suspended at an [await] shows up as the steps
    before and after it ([Action], [run]).  The instance object a closure
    captured is the record registered under its id. *)

From Stdlib Require Import ZArith List String Ascii Bool Lia Sorted Permutation.
From stdpp Require Import base option list strings gmap.
Import ListNotations.

Local Open Scope string_scope.
Local Open Scope Z_scope.

(* ===================================================================== *)
(** ** JavaScript helpers *)

(** [String.prototype.includes]. *)
Fixpoint includes (hay needle : string) : bool :=
  String.prefix needle hay ||
  match hay with
  | EmptyString => false
  | String _ rest => includes rest needle
  end.

(** [Array.prototype.slice(start, end)]: a negative index counts from the
    end of the array, and both indices are clamped to [0, length]. *)
Definition relIndex (len k : Z) : Z :=
  if k <? 0 then Z.max (len + k) 0 else Z.min k len.

Definition slice {A} (startIx endIx : Z) (l : list A) : list A :=
  let len := Z.of_nat (length l) in
  let from := relIndex len startIx in
  let upto := relIndex len endIx in
  take (Z.to_nat (upto - from)) (drop (Z.to_nat from) l).

(** A JavaScript number as far as the pagination arithmetic needs it. *)
Inductive JsNum :=
| Num (z : Z)
| Infinity
| NegInfinity
| NaN.

(** [a / 0] for an integer [a]. *)
Definition divByZero (a : Z) : JsNum :=
  if a =? 0 then NaN else if a <? 0 then NegInfinity else Infinity.

(** [Math.ceil(a / b)] for integers [a] and [b]. *)
Definition ceilDiv (a b : Z) : JsNum :=
  if b =? 0 then divByZero a else Num (- ((- a) / b)).

(** [Math.floor(a / b)] for integers [a] and [b]. *)
Definition floorDiv (a b : Z) : JsNum :=
  if b =? 0 then divByZero a else Num (a / b).

Definition jsSucc (n : JsNum) : JsNum :=
  match n with Num z => Num (z + 1) | other => other end.

(** [x || d] on the result of [parseInt]: [NaN] (here [None]) and [0] are
    falsy. *)
Definition orDefault (x : option Z) (d : Z) : Z :=
  match x with
  | Some z => if z =? 0 then d else z
  | None => d
  end.

(* ===================================================================== *)
(** ** JavaScript [Map], in insertion order *)

Module JsMap.
Section Ordered.
Context {V : Type}.

Definition t := list (string * V).

Fixpoint get (k : string) (m : t) : option V :=
    match m with
    | [] => None
    | (k', v) :: rest => if String.eqb k k' then Some v else get k rest
    end.

Definition has (k : string) (m : t) : bool :=
    match get k m with Some _ => true | None => false end.

  (** [set] keeps the position of a key that is already there and appends a
      new one. *)
Fixpoint set (k : string) (v : V) (m : t) : t :=
    match m with
    | [] => [(k, v)]
    | (k', v') :: rest =>
        if String.eqb k k' then (k', v) :: rest else (k', v') :: set k v rest
    end.

Fixpoint delete (k : string) (m : t) : t :=
    match m with
    | [] => []
    | (k', v') :: rest =>
        if String.eqb k k' then delete k rest else (k', v') :: delete k rest
    end.

  (** [m.get(k).field = ...]: the object stored under [k] is changed in
      place. *)
Definition adjust (k : string) (f : V -> V) (m : t) : t :=
    match get k m with
    | Some v => set k (f v) m
    | None => m
    end.

Definition keys (m : t) : list string := map fst m.
Definition values (m : t) : list V := map snd m.
Definition size (m : t) : nat := length m.
End Ordered.
Arguments t : clear implicits.
End JsMap.

(* ===================================================================== *)
(** ** Data model *)

(** The values the [status] field takes in the source. *)
Inductive Status :=
| initializing | qr_required | qr_ready | authenticating | recovering
| authenticated | auth_failed | auth_failure | ready | disconnected | failed.

Definition statusName (s : Status) : string :=
  match s with
  | initializing => "initializing" | qr_required => "qr_required"
  | qr_ready => "qr_ready" | authenticating => "authenticating"
  | recovering => "recovering" | authenticated => "authenticated"
  | auth_failed => "auth_failed" | auth_failure => "auth_failure"
  | ready => "ready" | disconnected => "disconnected" | failed => "failed"
  end.

Definition status_eqb (a b : Status) : bool :=
  String.eqb (statusName a) (statusName b).

(** [instanceData].  [client] is the identity of the MessagingClient object,
    [reconnectAttempts] is [None] while the property is undefined,
    [reconnecting] and [keepAliveInterval] are only tested for truthiness. *)
Record Instance := mkInstance {
  inst_id : string;
  client : nat;
  status : Status;
  qr : option string;
  info : option string;
  createdAt : Z;
  lastActivity : Z;
  isRecovered : bool;
  hasValidAuth : bool;
  skipQR : bool;
  reconnectAttempts : option Z;
  reconnecting : bool;
  keepAliveInterval : bool
}.

Definition set_client (c : nat) (i : Instance) : Instance :=
  mkInstance (inst_id i) c (status i) (qr i) (info i) (createdAt i)
    (lastActivity i) (isRecovered i) (hasValidAuth i) (skipQR i)
    (reconnectAttempts i) (reconnecting i) (keepAliveInterval i).
Definition set_status (s : Status) (i : Instance) : Instance :=
  mkInstance (inst_id i) (client i) s (qr i) (info i) (createdAt i)
    (lastActivity i) (isRecovered i) (hasValidAuth i) (skipQR i)
    (reconnectAttempts i) (reconnecting i) (keepAliveInterval i).
Definition set_qr (q : option string) (i : Instance) : Instance :=
  mkInstance (inst_id i) (client i) (status i) q (info i) (createdAt i)
    (lastActivity i) (isRecovered i) (hasValidAuth i) (skipQR i)
    (reconnectAttempts i) (reconnecting i) (keepAliveInterval i).
Definition set_info (x : option string) (i : Instance) : Instance :=
  mkInstance (inst_id i) (client i) (status i) (qr i) x (createdAt i)
    (lastActivity i) (isRecovered i) (hasValidAuth i) (skipQR i)
    (reconnectAttempts i) (reconnecting i) (keepAliveInterval i).
Definition set_lastActivity (t : Z) (i : Instance) : Instance :=
  mkInstance (inst_id i) (client i) (status i) (qr i) (info i) (createdAt i)
    t (isRecovered i) (hasValidAuth i) (skipQR i)
    (reconnectAttempts i) (reconnecting i) (keepAliveInterval i).
Definition set_hasValidAuth (b : bool) (i : Instance) : Instance :=
  mkInstance (inst_id i) (client i) (status i) (qr i) (info i) (createdAt i)
    (lastActivity i) (isRecovered i) b (skipQR i)
    (reconnectAttempts i) (reconnecting i) (keepAliveInterval i).
Definition set_skipQR (b : bool) (i : Instance) : Instance :=
  mkInstance (inst_id i) (client i) (status i) (qr i) (info i) (createdAt i)
    (lastActivity i) (isRecovered i) (hasValidAuth i) b
    (reconnectAttempts i) (reconnecting i) (keepAliveInterval i).
Definition set_reconnectAttempts (n : option Z) (i : Instance) : Instance :=
  mkInstance (inst_id i) (client i) (status i) (qr i) (info i) (createdAt i)
    (lastActivity i) (isRecovered i) (hasValidAuth i) (skipQR i)
    n (reconnecting i) (keepAliveInterval i).
Definition set_reconnecting (b : bool) (i : Instance) : Instance :=
  mkInstance (inst_id i) (client i) (status i) (qr i) (info i) (createdAt i)
    (lastActivity i) (isRecovered i) (hasValidAuth i) (skipQR i)
    (reconnectAttempts i) b (keepAliveInterval i).
Definition set_keepAliveInterval (b : bool) (i : Instance) : Instance :=
  mkInstance (inst_id i) (client i) (status i) (qr i) (info i) (createdAt i)
    (lastActivity i) (isRecovered i) (hasValidAuth i) (skipQR i)
    (reconnectAttempts i) (reconnecting i) b.

(** [instance.reconnectAttempts || 0]. *)
Definition attemptsOrZero (i : Instance) : Z :=
  match reconnectAttempts i with
  | Some n => n
  | None => 0
  end.

(** An entry of [this.profilePicCache]: [{ url, timestamp }].  A missing
    picture ([null] or [undefined]) is [None]. *)
Record CacheEntry := mkCacheEntry {
  url : option string;
  timestamp : Z
}.

(** What the chat listing reads of a client [Chat]. *)
Record Chat := mkChat {
  chat_id : string;
  chat_name : string;
  isGroup : bool;
  unreadCount : Z;
  chat_timestamp : option Z
}.

(** [io.emit(event, payload)] and [io.to(room).emit(event, payload)]; of the
    payload the instance id and the status it carries are kept. *)
Record Notification := mkNotification {
  room : option string;
  event : string;
  about : string;
  carried : option Status
}.

(** Callbacks handed to [setTimeout] by the reconnection machinery. *)
Inductive Timer :=
| ScheduledRetry (instanceId : string)
| ImmediateReconnect (instanceId : string).

(** Values a client promise resolves to. *)
Inductive Value :=
| VUnit
| VChats (chats : list Chat)
| VPicture (picture : option string)
| VState (state : string)
| VSent (messageId : string) (sentAt : Z).

Inductive Answer :=
| Resolves (v : Value)
| Rejects (message : string).

(** One answer of the MessagingClient: how long the promise takes to settle
    (milliseconds) and what it settles to. *)
Record Reply := mkReply {
  took : Z;
  answer : Answer
}.

Record World := mkWorld {
  instances : JsMap.t Instance;
  profilePicCache : gmap string CacheEntry;
  sessions : gmap string bool;
  now : Z;
  emitted : list Notification;
  timers : list Timer;
  script : list Reply;
  batchTimerFirst : list bool;
  nextClient : nat
}.

Definition set_instances (m : JsMap.t Instance) (w : World) : World :=
  mkWorld m (profilePicCache w) (sessions w) (now w) (emitted w) (timers w)
    (script w) (batchTimerFirst w) (nextClient w).
Definition set_profilePicCache (c : gmap string CacheEntry) (w : World) : World :=
  mkWorld (instances w) c (sessions w) (now w) (emitted w) (timers w)
    (script w) (batchTimerFirst w) (nextClient w).
Definition set_sessions (s : gmap string bool) (w : World) : World :=
  mkWorld (instances w) (profilePicCache w) s (now w) (emitted w) (timers w)
    (script w) (batchTimerFirst w) (nextClient w).
Definition set_now (t : Z) (w : World) : World :=
  mkWorld (instances w) (profilePicCache w) (sessions w) t (emitted w)
    (timers w) (script w) (batchTimerFirst w) (nextClient w).
Definition set_emitted (e : list Notification) (w : World) : World :=
  mkWorld (instances w) (profilePicCache w) (sessions w) (now w) e (timers w)
    (script w) (batchTimerFirst w) (nextClient w).
Definition set_timers (t : list Timer) (w : World) : World :=
  mkWorld (instances w) (profilePicCache w) (sessions w) (now w) (emitted w) t
    (script w) (batchTimerFirst w) (nextClient w).
Definition set_script (s : list Reply) (w : World) : World :=
  mkWorld (instances w) (profilePicCache w) (sessions w) (now w) (emitted w)
    (timers w) s (batchTimerFirst w) (nextClient w).
Definition set_batchTimerFirst (b : list bool) (w : World) : World :=
  mkWorld (instances w) (profilePicCache w) (sessions w) (now w) (emitted w)
    (timers w) (script w) b (nextClient w).
Definition set_nextClient (n : nat) (w : World) : World :=
  mkWorld (instances w) (profilePicCache w) (sessions w) (now w) (emitted w)
    (timers w) (script w) (batchTimerFirst w) n.

(* ===================================================================== *)
(** ** Effects: asynchronous methods over the world *)

Inductive Outcome (A : Type) :=
| Returned (a : A)
| Threw (message : string).
Arguments Returned {A} a.
Arguments Threw {A} message.

(** An [async] method: it runs to completion on the world it is given and
    either returns or throws an [Error] with a message. *)
Definition Async (A : Type) : Type := World -> Outcome A * World.

Definition ret {A} (a : A) : Async A := fun w => (Returned a, w).
Definition throw {A} (message : string) : Async A := fun w => (Threw message, w).

Definition bind {A B} (c : Async A) (k : A -> Async B) : Async B :=
  fun w =>
    match c w with
    | (Returned a, w') => k a w'
    | (Threw e, w') => (Threw e, w')
    end.

(** [try { c } catch (error) { handler(error) }]. *)
Definition tryCatch {A} (c : Async A) (handler : string -> Async A) : Async A :=
  fun w =>
    match c w with
    | (Returned a, w') => (Returned a, w')
    | (Threw e, w') => handler e w'
    end.

(** A state change that cannot throw, as a step of an [Async] method. *)
Definition perform (f : World -> World) : Async unit :=
  fun w => (Returned tt, f w).

Notation "x <~ c ;; k" := (bind c (fun x => k))
  (at level 100, c at next level, right associativity).
Notation "c ;;; k" := (bind c (fun _ => k))
  (at level 100, right associativity).

Definition emit (n : Notification) (w : World) : World :=
  set_emitted (emitted w ++ [n]) w.

Definition instanceRoom (instanceId : string) : option string :=
  Some ("instance-" ++ instanceId).

(** [await new Promise(resolve => setTimeout(resolve, ms))]. *)
Definition sleep (ms : Z) (w : World) : World := set_now (now w + ms) w.

(** [setTimeout(callback, ms)] for the callbacks of [Timer]. *)
Definition setTimeout (t : Timer) (w : World) : World :=
  set_timers (timers w ++ [t]) w.

(** The next answer of the client.  When the script is exhausted the client
    behaves like a browser that is gone. *)
Definition nextReply (w : World) : Reply * World :=
  match script w with
  | [] => (mkReply 0 (Rejects "Session closed"), w)
  | r :: rest => (r, set_script rest w)
  end.

Definition settle (a : Answer) : Async Value :=
  match a with
  | Resolves v => ret v
  | Rejects e => throw e
  end.

(** [await client.call()]. *)
Definition awaitClient : Async Value :=
  fun w =>
    let (r, w1) := nextReply w in
    settle (answer r) (sleep (took r) w1).

(** [await Promise.race([client.call(), rejectAfter(ms, message)])]: a reply
    that takes [ms] or longer loses against the timer, and what it settles
    to later is dropped. *)
Definition awaitClientWithin (ms : Z) (message : string) : Async Value :=
  fun w =>
    let (r, w1) := nextReply w in
    if took r <? ms then settle (answer r) (sleep (took r) w1)
    else (Threw message, sleep ms w1).

(** [new Client(...)]: a client object nobody else holds. *)
Definition newClient (w : World) : nat * World :=
  (nextClient w, set_nextClient (S (nextClient w)) w).

(** Assignments to the fields of the instance object registered under
    [instanceId].  An object that has left the registry is no longer
    observable, so the assignment is dropped with it. *)
Definition updateInstance (instanceId : string) (f : Instance -> Instance)
    (w : World) : World :=
  match JsMap.get instanceId (instances w) with
  | Some inst => set_instances (JsMap.set instanceId (f inst) (instances w)) w
  | None => w
  end.

Definition notFoundMessage (instanceId : string) : string :=
  "Instance " ++ instanceId ++ " not found".

Definition notReadyMessage (instanceId : string) (s : Status) : string :=
  "Instance " ++ instanceId ++ " is not ready. Current status: " ++ statusName s.

Definition alreadyExistsMessage (instanceId : string) : string :=
  "Instance " ++ instanceId ++ " already exists".

Definition recoveryFailedMessage (instanceId : string) : string :=
  "Session recovery failed for instance " ++ instanceId
  ++ ". Please reinitialize the instance.".

(* ===================================================================== *)
(** ** Constructor constants *)

Definition cacheExpiry : Z := 30 * 60 * 1000.
Definition maxReconnectAttempts : Z := 8.
Definition reconnectDelay : Z := 5000.

(* ===================================================================== *)
(** ** Client events ([setupClientEvents]) *)

Inductive ClientEvent :=
| EvQr (qrDataURL : string)
| EvAuthenticated
| EvAuthFailure (msg : string)
| EvDisconnected (reason : string)
| EvReady (clientInfo : string)
| EvMessage
| EvMessageCreate.

Definition startKeepAlive (instanceId : string) (w : World) : World :=
  updateInstance instanceId (set_keepAliveInterval true) w.

Definition stopKeepAlive (instanceId : string) (w : World) : World :=
  updateInstance instanceId (set_keepAliveInterval false) w.

(** The [qr] listener.  The payload is the rendered data URL. *)
Definition onQr (instanceId qrDataURL : string) (w : World) : World :=
  let demote (i : Instance) :=
    if skipQR i && hasValidAuth i
    then set_status qr_required (set_hasValidAuth false (set_skipQR false i))
    else i in
  let w1 := updateInstance instanceId
              (fun i => set_qr (Some qrDataURL) (set_status qr_ready (demote i))) w in
  emit (mkNotification None "instance_qr" instanceId None)
    (emit (mkNotification (instanceRoom instanceId) "qr" instanceId None) w1).

(** Both [authenticated] listeners, in registration order. *)
Definition onAuthenticated (instanceId : string) (w : World) : World :=
  let w1 := updateInstance instanceId
              (fun i => set_status authenticated
                          (set_skipQR true (set_hasValidAuth true i))) w in
  let w2 := updateInstance instanceId (set_status authenticated) w1 in
  emit (mkNotification (instanceRoom instanceId) "authenticated" instanceId None) w2.

(** Both [auth_failure] listeners, in registration order. *)
Definition onAuthFailure (instanceId : string) (w : World) : World :=
  let w1 := updateInstance instanceId
              (fun i => set_status auth_failed
                          (set_skipQR false (set_hasValidAuth false i))) w in
  let w2 := emit (mkNotification (instanceRoom instanceId) "auth_failure" instanceId None) w1 in
  let w3 := updateInstance instanceId (set_status auth_failure) w2 in
  emit (mkNotification (instanceRoom instanceId) "auth_failure" instanceId None) w3.

(** Both [disconnected] listeners, in registration order. *)
Definition onDisconnected (instanceId : string) (w : World) : World :=
  let w1 := updateInstance instanceId
              (fun i => set_status disconnected
                          (set_skipQR false (set_hasValidAuth false i))) w in
  let w2 := stopKeepAlive instanceId w1 in
  let w3 := emit (mkNotification (instanceRoom instanceId) "disconnected" instanceId None) w2 in
  let w4 := updateInstance instanceId
              (fun i => set_reconnectAttempts (Some 0) (set_status disconnected i)) w3 in
  let w5 := emit (mkNotification (instanceRoom instanceId) "disconnected" instanceId None) w4 in
  emit (mkNotification None "instance_status_changed" instanceId (Some disconnected)) w5.

(** The [ready] listener. *)
Definition onReady (instanceId clientInfo : string) (w : World) : World :=
  let w1 := updateInstance instanceId
              (fun i => set_skipQR true (set_hasValidAuth true
                          (set_lastActivity (now w)
                             (set_info (Some clientInfo)
                                (set_qr None (set_status ready i)))))) w in
  let w2 := emit (mkNotification (instanceRoom instanceId) "ready" instanceId None) w1 in
  let w3 := emit (mkNotification None "instance_ready" instanceId None) w2 in
  startKeepAlive instanceId w3.

(** The [message] and [message_create] listeners. *)
Definition onMessage (eventName instanceId : string) (w : World) : World :=
  let w1 := updateInstance instanceId (set_lastActivity (now w)) w in
  emit (mkNotification (instanceRoom instanceId) eventName instanceId None) w1.

Definition onClientEvent (instanceId : string) (ev : ClientEvent) (w : World) : World :=
  match ev with
  | EvQr q => onQr instanceId q w
  | EvAuthenticated => onAuthenticated instanceId w
  | EvAuthFailure _ => onAuthFailure instanceId w
  | EvDisconnected _ => onDisconnected instanceId w
  | EvReady i => onReady instanceId i w
  | EvMessage => onMessage "message" instanceId w
  | EvMessageCreate => onMessage "message_create" instanceId w
  end.

(* ===================================================================== *)
(** ** Lifecycle controller *)

(** [fs.existsSync(path.join(this.sessionsPath, instanceId))]. *)
Definition sessionExists (instanceId : string) (w : World) : bool :=
  match sessions w !! instanceId with Some _ => true | None => false end.

(** [hasValidSession]: the file-name heuristic, as recorded for the
    directory.  It never throws. *)
Definition hasValidSession (instanceId : string) (w : World) : bool :=
  match sessions w !! instanceId with Some b => b | None => false end.

(** [recoverInstance]. *)
Definition recoverInstance (instanceId : string) : Async unit :=
  tryCatch
    (fun w =>
       if negb (sessionExists instanceId w) then (Returned tt, w)
       else
         let validAuth := hasValidSession instanceId w in
         let (c, w1) := newClient w in
         let instanceData :=
           mkInstance instanceId c
             (if validAuth then authenticating else recovering)
             None None (now w1) (now w1) true validAuth validAuth
             None false false in
         let w2 := set_instances (JsMap.set instanceId instanceData (instances w1)) w1 in
         (_ <~ awaitClient ;; ret tt) w2)
    (fun error w =>
       let w1 := if JsMap.has instanceId (instances w)
                 then set_instances (JsMap.delete instanceId (instances w)) w
                 else w in
       (Threw error, w1)).

(** What [createInstance] returns. *)
Record Created := mkCreated {
  created_instanceId : string;
  created_status : Status
}.

(** [instanceId || uuidv4()]: [null] and the empty string are falsy. *)
Definition effectiveId (instanceId : option string) (uuid : string) : string :=
  match instanceId with
  | Some s => if String.eqb s EmptyString then uuid else s
  | None => uuid
  end.

(** [createInstance]; [uuid] is what [uuidv4()] would return. *)
Definition createInstance (instanceId : option string) (uuid : string)
    : Async Created :=
  tryCatch
    (fun w =>
       let id := effectiveId instanceId uuid in
       if JsMap.has id (instances w) then (Threw (alreadyExistsMessage id), w)
       else
         let (c, w1) := newClient w in
         let instanceData :=
           mkInstance id c initializing None None (now w1) (now w1)
             false false false None false false in
         let w2 := set_instances (JsMap.set id instanceData (instances w1)) w1 in
         (Returned (mkCreated id initializing), w2))
    (fun error => throw error).

(** [initializeInstance]; the result carries the status read after the
    client has started. *)
Definition initializeInstance (instanceId : string) : Async Status :=
  tryCatch
    (fun w =>
       match JsMap.get instanceId (instances w) with
       | None => (Threw (notFoundMessage instanceId), w)
       | Some inst =>
           if status_eqb (status inst) ready then (Returned (status inst), w)
           else
             (_ <~ awaitClient ;;
              fun w' =>
                match JsMap.get instanceId (instances w') with
                | Some inst' => (Returned (status inst'), w')
                | None => (Returned (status inst), w')
                end) w
       end)
    (fun error => throw error).

(** [getInstanceStatus]; [None] is [{ error: 'Instance not found' }]. *)
Definition getInstanceStatus (instanceId : string) (w : World) : option Instance :=
  JsMap.get instanceId (instances w).

(** [destroyInstance]. *)
Definition destroyInstance (instanceId : string) : Async unit :=
  tryCatch
    (fun w =>
       match JsMap.get instanceId (instances w) with
       | None => (Threw (notFoundMessage instanceId), w)
       | Some inst =>
           (_ <~ awaitClient ;;
            perform (fun w1 =>
              let w2 := set_instances (JsMap.delete instanceId (instances w1)) w1 in
              let w3 := if sessionExists instanceId w2
                        then set_sessions (base.delete instanceId (sessions w2)) w2
                        else w2 in
              emit (mkNotification None "instance_destroyed" instanceId None) w3)) w
       end)
    (fun error => throw error).

(* ===================================================================== *)
(** ** Auto-reconnector *)

(** [reinitializeInstance]. *)
Definition reinitializeInstance (instanceId : string) : Async unit :=
  fun w =>
    match JsMap.get instanceId (instances w) with
    | None => (Threw (notFoundMessage instanceId), w)
    | Some inst =>
        tryCatch
          (tryCatch (_ <~ awaitClient ;; ret tt) (fun _ => ret tt) ;;;
           perform (sleep 500) ;;;
           (fun w1 =>
              let (c, w2) := newClient w1 in
              (Returned tt,
               updateInstance instanceId
                 (fun i => set_qr None (set_status initializing (set_client c i))) w2)) ;;;
           _ <~ awaitClientWithin 120000 "Initialize timeout after 120 seconds" ;;
           ret tt)
          (fun error w' =>
             (Threw error,
              updateInstance instanceId
                (fun i => set_reconnecting false (set_status disconnected i)) w'))
          w
    end.

(** [attemptAutoReconnection]. *)
Definition attemptAutoReconnection (instanceId : string) (w : World) : World :=
  match JsMap.get instanceId (instances w) with
  | None => w
  | Some inst =>
      if reconnecting inst then w
      else
        let attempts := attemptsOrZero inst + 1 in
        let w1 := updateInstance instanceId
                    (fun i => set_reconnectAttempts (Some attempts)
                                (set_reconnecting true i)) w in
        if attempts >? maxReconnectAttempts then
          let w2 := updateInstance instanceId
                      (fun i => set_reconnecting false (set_status failed i)) w1 in
          emit (mkNotification None "instance_status_changed" instanceId (Some failed)) w2
        else
          match reinitializeInstance instanceId w1 with
          | (Returned _, w2) =>
              updateInstance instanceId
                (fun i => set_reconnecting false (set_reconnectAttempts (Some 0) i)) w2
          | (Threw _, w2) =>
              setTimeout (ScheduledRetry instanceId)
                (updateInstance instanceId (set_reconnecting false) w2)
          end
  end.

(** The callback of the retry timer armed by a failed attempt:
    [if (instance.reconnectAttempts < this.maxReconnectAttempts)]. *)
Definition scheduledRetry (instanceId : string) (w : World) : World :=
  match JsMap.get instanceId (instances w) with
  | Some inst =>
      match reconnectAttempts inst with
      | Some n => if n <? maxReconnectAttempts
                  then attemptAutoReconnection instanceId w else w
      | None => w
      end
  | None => w
  end.

(** The guard of the sweep in [startAutoReconnection]. *)
Definition sweepEligible (inst : Instance) : bool :=
  status_eqb (status inst) disconnected && hasValidAuth inst
  && negb (reconnecting inst).

Definition sweepVisit (w : World) (instanceId : string) : World :=
  match JsMap.get instanceId (instances w) with
  | Some inst =>
      if sweepEligible inst then attemptAutoReconnection instanceId w else w
  | None => w
  end.

(** One tick of the interval armed by [startAutoReconnection]: the entries
    are visited in insertion order, each one read when its turn comes. *)
Definition reconnectionSweep (w : World) : World :=
  fold_left sweepVisit (JsMap.keys (instances w)) w.

(* ===================================================================== *)
(** ** Health monitor and keep-alive *)

(** [checkSessionHealth]. *)
Definition checkSessionHealth (instanceId : string) (w : World) : bool * World :=
  match JsMap.get instanceId (instances w) with
  | None => (false, w)
  | Some _ =>
      match awaitClientWithin 3000 "Health check timeout" w with
      | (Returned (VState s), w1) => (String.eqb s "CONNECTED", w1)
      | (Returned _, w1) => (false, w1)
      | (Threw _, w1) => (false, w1)
      end
  end.

Definition healthVisit (w : World) (instanceId : string) : World :=
  match JsMap.get instanceId (instances w) with
  | Some inst =>
      if status_eqb (status inst) ready then
        let (isHealthy, w1) := checkSessionHealth instanceId w in
        if isHealthy then updateInstance instanceId (set_lastActivity (now w1)) w1
        else
          let w2 := updateInstance instanceId (set_status disconnected) w1 in
          let w3 := setTimeout (ImmediateReconnect instanceId) w2 in
          emit (mkNotification None "instance_status_changed" instanceId
                  (Some disconnected)) w3
      else w
  | None => w
  end.

(** One tick of the interval armed by [startHealthMonitoring]. *)
Definition healthSweep (w : World) : World :=
  fold_left healthVisit (JsMap.keys (instances w)) w.

(** One tick of the interval armed by [startKeepAlive] together with the
    re-check it arms when the probe fails. *)
Definition keepAliveTick (instanceId : string) (w : World) : World :=
  match JsMap.get instanceId (instances w) with
  | Some inst =>
      if status_eqb (status inst) ready then
        match awaitClient w with
        | (Returned _, w1) => updateInstance instanceId (set_lastActivity (now w1)) w1
        | (Threw _, w1) =>
            let (isHealthy, w2) := checkSessionHealth instanceId (sleep 500 w1) in
            match JsMap.get instanceId (instances w2) with
            | Some inst2 =>
                if negb isHealthy && status_eqb (status inst2) ready then
                  setTimeout (ImmediateReconnect instanceId)
                    (updateInstance instanceId (set_status disconnected) w2)
                else w2
            | None => w2
            end
        end
      else w
  | None => w
  end.

(** Running a pending reconnection timer. *)
Definition runTimer (t : Timer) (w : World) : World :=
  match t with
  | ScheduledRetry instanceId => scheduledRetry instanceId w
  | ImmediateReconnect instanceId => attemptAutoReconnection instanceId w
  end.

(** The handler of [POST /instances/:instanceId/reconnect]: the attempt is
    started only for a registered instance whose status is [disconnected]. *)
Definition reconnectRoute (instanceId : string) (w : World) : World :=
  match getInstanceStatus instanceId w with
  | Some inst =>
      if status_eqb (status inst) disconnected
      then attemptAutoReconnection instanceId w else w
  | None => w
  end.

(* ===================================================================== *)
(** ** Operation recovery wrapper *)

(** What [attemptSessionRecovery] does to a registered instance before it
    calls [recoverInstance]: mark it [recovering], destroy the client with
    the error ignored, wait two seconds. *)
Definition prepareRecovery (instanceId : string) (w : World) : World :=
  let w1 := updateInstance instanceId (set_status recovering) w in
  let (_, w2) := tryCatch (_ <~ awaitClient ;; ret tt) (fun _ => ret tt) w1 in
  sleep 2000 w2.

(** [attemptSessionRecovery]. *)
Definition attemptSessionRecovery (instanceId : string) (w : World) : bool * World :=
  match JsMap.get instanceId (instances w) with
  | None => (false, w)
  | Some _ =>
      match recoverInstance instanceId (prepareRecovery instanceId w) with
      | (Returned _, w3) => (true, w3)
      | (Threw _, w3) => (false, w3)
      end
  end.

Definition isSessionError (message : string) : bool :=
  includes message "Session closed" || includes message "Protocol error"
  || includes message "Target closed".

(** [executeWithRecovery]. *)
Definition executeWithRecovery {R} (instanceId : string) (operation : Async R)
    : Async R :=
  tryCatch operation
    (fun error =>
       if isSessionError error then
         fun w =>
           let (recovered, w1) := attemptSessionRecovery instanceId w in
           if recovered then operation (sleep 3000 w1)
           else (Threw (recoveryFailedMessage instanceId), w1)
       else throw error).

(** What [sendMessage] returns. *)
Record Sent := mkSent {
  sent_messageId : string;
  sent_timestamp : Z
}.

(** The closure [operation] of [sendMessage]. *)
Definition sendMessageOperation (instanceId to message : string) : Async Sent :=
  fun w =>
    match JsMap.get instanceId (instances w) with
    | None => (Threw (notFoundMessage instanceId), w)
    | Some inst =>
        if negb (status_eqb (status inst) ready)
        then (Threw (notReadyMessage instanceId (status inst)), w)
        else
          (result <~ awaitClient ;;
           match result with
           | VSent messageId sentAt =>
               fun w1 =>
                 (Returned (mkSent messageId sentAt),
                  updateInstance instanceId (set_lastActivity (now w1)) w1)
           | _ => throw "TypeError"
           end) w
    end.

(** [sendMessage]. *)
Definition sendMessage (instanceId to message : string) : Async Sent :=
  tryCatch
    (executeWithRecovery instanceId (sendMessageOperation instanceId to message))
    (fun error => throw error).

(* ===================================================================== *)
(** ** Profile enrichment pipeline *)

(** The template literal [`${instanceId}:${contactId}`]. *)
Definition cacheKey (instanceId contactId : string) : string :=
  instanceId ++ ":" ++ contactId.

(** [(Date.now() - cached.timestamp) < this.cacheExpiry]. *)
Definition cacheValid (w : World) (cached : CacheEntry) : bool :=
  now w - timestamp cached <? cacheExpiry.

(** How far a lookup got before its first [await]. *)
Inductive Lookup :=
| FromCache (cachedUrl : option string)
| Unavailable
| Asked (r : Reply).

(** [getProfilePicWithCache] up to its first [await]: the cache test, the
    readiness guard and the request sent to the client.  The pair of calls
    [getContactById] and [getProfilePicUrl] is one exchange with the
    client. *)
Definition beginLookup (instanceId contactId : string) (w : World)
    : Lookup * World :=
  let consult :=
    match JsMap.get instanceId (instances w) with
    | Some inst =>
        if status_eqb (status inst) ready
        then let (r, w1) := nextReply w in (Asked r, w1)
        else (Unavailable, w)
    | None => (Unavailable, w)
    end in
  match profilePicCache w !! cacheKey instanceId contactId with
  | Some cached =>
      if cacheValid w cached then (FromCache (url cached), w) else consult
  | None => consult
  end.

(** What the race between the client and the per-item timer yields: the
    picture, or [null] when the client rejects, answers something that is not
    a picture, or loses against the timer. *)
Definition raceResult (timeout : Z) (r : Reply) : option string :=
  if took r <? timeout then
    match answer r with
    | Resolves (VPicture u) => u
    | _ => None
    end
  else None.

Definition raceDuration (timeout : Z) (r : Reply) : Z :=
  if took r <? timeout then took r else timeout.

(** [getProfilePicWithCache] from its first [await] on; [started] is the
    time at which the call began.  Both the success path and the [catch]
    path write the cache with the time of the write. *)
Definition finishLookup (instanceId contactId : string) (timeout started : Z)
    (l : Lookup) (w : World) : option string * World :=
  match l with
  | FromCache u => (u, w)
  | Unavailable => (None, w)
  | Asked r =>
      let profilePicUrl := raceResult timeout r in
      let finished := started + raceDuration timeout r in
      let w1 := set_now (Z.max (now w) finished) w in
      (profilePicUrl,
       set_profilePicCache
         (<[cacheKey instanceId contactId := mkCacheEntry profilePicUrl finished]>
            (profilePicCache w1)) w1)
  end.

(** [getProfilePicWithCache]. *)
Definition getProfilePicWithCache (instanceId contactId : string) (timeout : Z)
    (w : World) : option string * World :=
  let (l, w1) := beginLookup instanceId contactId w in
  finishLookup instanceId contactId timeout (now w) l w1.

(** [batch.map(async contactId => ...)]: every lookup of the batch runs to
    its first [await] before any of them continues. *)
Fixpoint beginBatch (instanceId : string) (batch : list string) (w : World)
    : list (string * Lookup) * World :=
  match batch with
  | [] => ([], w)
  | contactId :: rest =>
      let (l, w1) := beginLookup instanceId contactId w in
      let (ls, w2) := beginBatch instanceId rest w1 in
      ((contactId, l) :: ls, w2)
  end.

(** The lookups of a batch run to completion; each yields the object
    [{ contactId, profilePicUrl }].  The wrapper catches everything, so each
    promise of the batch fulfils. *)
Fixpoint finishBatch (instanceId : string) (timeout started : Z)
    (pending : list (string * Lookup)) (w : World)
    : list (string * option string) * World :=
  match pending with
  | [] => ([], w)
  | (contactId, l) :: rest =>
      let (u, w1) := finishLookup instanceId contactId timeout started l w in
      let (us, w2) := finishBatch instanceId timeout started rest w1 in
      ((contactId, u) :: us, w2)
  end.

(** Who wins [Promise.race([Promise.allSettled(batchPromises), batchTimer])]
    is left to the scheduler. *)
Definition nextBatchRace (w : World) : bool * World :=
  match batchTimerFirst w with
  | [] => (false, w)
  | b :: rest => (b, set_batchTimerFirst rest w)
  end.

Definition recordResults (results : list (string * option string))
    (profilePicMap : JsMap.t (option string)) : JsMap.t (option string) :=
  fold_left (fun m r => JsMap.set (fst r) (snd r) m) results profilePicMap.

Definition recordNulls (batch : list string)
    (profilePicMap : JsMap.t (option string)) : JsMap.t (option string) :=
  fold_left (fun m contactId => JsMap.set contactId None m) batch profilePicMap.

(** The [for (let i = 0; i < contactIds.length; i += batchSize)] loop of
    [getMultipleProfilePics].  [None] means that the loop is still running
    when the fuel is spent. *)
Fixpoint profilePicLoop (fuel : nat) (instanceId : string)
    (contactIds : list string) (batchSize timeout i : Z)
    (profilePicMap : JsMap.t (option string)) (w : World)
    : option (JsMap.t (option string) * World) :=
  if i <? Z.of_nat (length contactIds) then
    match fuel with
    | O => None
    | S fuel' =>
        let batch := slice i (i + batchSize) contactIds in
        let started := now w in
        let (pending, w1) := beginBatch instanceId batch w in
        let (batchResults, w2) := finishBatch instanceId timeout started pending w1 in
        let (timerFirst, w3) := nextBatchRace w2 in
        if timerFirst then
          profilePicLoop fuel' instanceId contactIds batchSize timeout
            (i + batchSize) (recordNulls batch profilePicMap)
            (set_now (Z.max (now w3) (started + timeout * 2)) w3)
        else
          let w4 := if i + batchSize <? Z.of_nat (length contactIds)
                    then sleep 500 w3 else w3 in
          profilePicLoop fuel' instanceId contactIds batchSize timeout
            (i + batchSize) (recordResults batchResults profilePicMap) w4
    end
  else Some (profilePicMap, w).

(** [getMultipleProfilePics].  One round of the loop per id is enough
    whenever the loop terminates at all. *)
Definition getMultipleProfilePics (instanceId : string)
    (contactIds : list string) (batchSize timeout : Z) (w : World)
    : option (JsMap.t (option string) * World) :=
  profilePicLoop (S (length contactIds)) instanceId contactIds batchSize
    timeout 0 [] w.

(* ===================================================================== *)
(** ** Chat listing *)

(** [chat.timestamp || 0]. *)
Definition recency (c : Chat) : Z :=
  match chat_timestamp c with
  | Some t => t
  | None => 0
  end.

(** [allChats.sort((a, b) => (b.timestamp || 0) - (a.timestamp || 0))]:
    [Array.prototype.sort] is stable, so it is the stable sort by decreasing
    recency, written here as insertion from the right. *)
Fixpoint insertChat (c : Chat) (sorted : list Chat) : list Chat :=
  match sorted with
  | [] => [c]
  | d :: rest =>
      if recency d <=? recency c then c :: d :: rest
      else d :: insertChat c rest
  end.

Definition sortChats (allChats : list Chat) : list Chat :=
  foldr insertChat [] allChats.

(** [allChats.slice(offset, offset + limit)] after the sort. *)
Definition paginate (limit offset : Z) (allChats : list Chat) : list Chat :=
  slice offset (offset + limit) (sortChats allChats).

Record ChatData := mkChatData {
  cd_id : string;
  cd_name : string;
  cd_isGroup : bool;
  cd_unreadCount : Z;
  cd_timestamp : option Z;
  profilePicUrl : option string
}.

Definition chatData (c : Chat) : ChatData :=
  mkChatData (chat_id c) (chat_name c) (isGroup c) (unreadCount c)
    (chat_timestamp c) None.

(** [chat.profilePicUrl = profilePicMap.get(chat.id) || null]. *)
Definition withPicture (profilePicMap : JsMap.t (option string)) (d : ChatData)
    : ChatData :=
  mkChatData (cd_id d) (cd_name d) (cd_isGroup d) (cd_unreadCount d)
    (cd_timestamp d)
    (match JsMap.get (cd_id d) profilePicMap with
     | Some (Some u) => Some u
     | _ => None
     end).

Record Pagination := mkPagination {
  limit : Z;
  offset : Z;
  hasMore : bool;
  nextOffset : option Z;
  currentPage : JsNum;
  totalPages : JsNum;
  returnedCount : Z
}.

Record ChatsResult := mkChatsResult {
  contacts : list ChatData;
  groups : list ChatData;
  totalChats : Z;
  contactsCount : Z;
  groupsCount : Z;
  profilePicsIncluded : bool;
  pagination : Pagination
}.

(** The batch size [getChats] picks from the number of ids on the page. *)
Definition chatBatchSize (n : nat) : Z :=
  if (n <=? 10)%nat then 3 else if (n <=? 20)%nat then 4 else 5.

(** The closure [operation] of [getChats]. *)
Definition getChatsOperation (instanceId : string) (includeProfilePics : bool)
    (limit offset : Z) : Async ChatsResult :=
  fun w =>
    match JsMap.get instanceId (instances w) with
    | None => (Threw (notFoundMessage instanceId), w)
    | Some inst =>
        if negb (status_eqb (status inst) ready)
        then (Threw (notReadyMessage instanceId (status inst)), w)
        else
          (reply <~ awaitClient ;;
           match reply with
           | VChats allChats =>
               fun w1 =>
                 let totalChats := Z.of_nat (length allChats) in
                 let paginatedChats := paginate limit offset allChats in
                 let contacts :=
                   map chatData (filter (fun c => isGroup c = false) paginatedChats) in
                 let groups :=
                   map chatData (filter (fun c => isGroup c = true) paginatedChats) in
                 let allChatIds := map cd_id (contacts ++ groups) in
                 let enriched :=
                   if includeProfilePics && negb (Nat.eqb (length allChatIds) 0) then
                     getMultipleProfilePics instanceId allChatIds
                       (chatBatchSize (length allChatIds)) 3000 w1
                   else Some ([], w1) in
                 match enriched with
                 | None => (Threw "getMultipleProfilePics does not return", w1)
                 | Some (profilePicMap, w2) =>
                     let hasMore := offset + limit <? totalChats in
                     (Returned
                        (mkChatsResult
                           (map (withPicture profilePicMap) contacts)
                           (map (withPicture profilePicMap) groups)
                           totalChats
                           (Z.of_nat (length contacts))
                           (Z.of_nat (length groups))
                           includeProfilePics
                           (mkPagination limit offset hasMore
                              (if hasMore then Some (offset + limit) else None)
                              (jsSucc (floorDiv offset limit))
                              (ceilDiv totalChats limit)
                              (Z.of_nat (length paginatedChats)))),
                      updateInstance instanceId (set_lastActivity (now w2)) w2)
                 end
           | _ => throw "TypeError"
           end) w
    end.

(** [getChats]. *)
Definition getChats (instanceId : string) (includeProfilePics : bool)
    (limit offset : Z) : Async ChatsResult :=
  tryCatch
    (executeWithRecovery instanceId
       (getChatsOperation instanceId includeProfilePics limit offset))
    (fun error => throw error).

(** The pagination parameters of [GET /instances/:instanceId/chats];
    [limitQuery] and [offsetQuery] are what [parseInt] makes of the query
    strings, [None] being [NaN]:
    [Math.min(parseInt(req.query.limit) || 50, 200)] and
    [Math.max(parseInt(req.query.offset) || 0, 0)]. *)
Definition chatsLimit (limitQuery : option Z) : Z :=
  Z.min (orDefault limitQuery 50) 200.

Definition chatsOffset (offsetQuery : option Z) : Z :=
  Z.max (orDefault offsetQuery 0) 0.

(* ===================================================================== *)
(** ** The manager as a transition system *)

(** What can happen to the manager between two suspension points: a call
    from the transport layer, an event of a client, a tick of one of the
    interval timers, a pending timeout that fires, or the environment
    changing what the clients will answer, what the scheduler will do, what
    is on disk and what time it is. *)
Inductive Action :=
| Create (instanceId : option string) (uuid : string)
| Recover (instanceId : string)
| Initialize (instanceId : string)
| Destroy (instanceId : string)
| ClientEmits (instanceId : string) (ev : ClientEvent)
| HealthTick
| KeepAliveTick (instanceId : string)
| SweepTick
| TimerFires (n : nat)
| ReconnectRoute (instanceId : string)
| SendMessage (instanceId to message : string)
| GetChats (instanceId : string) (includeProfilePics : bool)
    (limitQuery offsetQuery : option Z)
| Environment (replies : list Reply) (races : list bool)
    (disk : gmap string bool) (clock : Z).

Definition run (a : Action) (w : World) : World :=
  match a with
  | Create instanceId uuid => snd (createInstance instanceId uuid w)
  | Recover instanceId => snd (recoverInstance instanceId w)
  | Initialize instanceId => snd (initializeInstance instanceId w)
  | Destroy instanceId => snd (destroyInstance instanceId w)
  | ClientEmits instanceId ev => onClientEvent instanceId ev w
  | HealthTick => healthSweep w
  | KeepAliveTick instanceId => keepAliveTick instanceId w
  | SweepTick => reconnectionSweep w
  | TimerFires n =>
      match timers w !! n with
      | Some t => runTimer t (set_timers (base.delete n (timers w)) w)
      | None => w
      end
  | ReconnectRoute instanceId => reconnectRoute instanceId w
  | SendMessage instanceId to message => snd (sendMessage instanceId to message w)
  | GetChats instanceId includeProfilePics limitQuery offsetQuery =>
      snd (getChats instanceId includeProfilePics (chatsLimit limitQuery)
             (chatsOffset offsetQuery) w)
  | Environment replies races disk clock =>
      set_now clock (set_sessions disk
        (set_batchTimerFirst races (set_script replies w)))
  end.

(** Identifiers are never empty: [uuidv4()] returns 36 characters and a
    session directory has a name. *)
Definition admissible (a : Action) : Prop :=
  match a with
  | Create _ uuid => uuid <> EmptyString
  | Recover instanceId => instanceId <> EmptyString
  | _ => True
  end.

(** The manager right after its constructor, before any session is
    recovered. *)
Definition initialWorld : World := mkWorld [] ∅ ∅ 0 [] [] [] [] 0%nat.

Inductive Reachable : World -> Prop :=
| reach_initial : Reachable initialWorld
| reach_run (a : Action) (w : World) :
    Reachable w -> admissible a -> Reachable (run a w).

(** The registry holds each id once, and never the empty id. *)
Definition wellKeyed (m : JsMap.t Instance) : Prop :=
  NoDup (JsMap.keys m) /\ EmptyString ∉ JsMap.keys m.


(** A client that never comes up again: each of its promises rejects, or
    takes at least the 120 seconds [reinitializeInstance] waits. *)
(** The reply the client gives to the [n]-th call from now. *)
Definition replyAt (n : nat) (w : World) : Reply :=
  nth n (script w) (mkReply 0 (Rejects "Session closed")).

(** A reply to [client.initialize()] that lets [reinitializeInstance]
    succeed. *)
Definition comesUp (r : Reply) : bool :=
  (took r <? 120000) &&
  match answer r with
  | Resolves _ => true
  | Rejects _ => false
  end.

Definition neverComesUp (r : Reply) : Prop :=
  match answer r with
  | Rejects _ => True
  | Resolves _ => 120000 <= took r
  end.

(* ===================================================================== *)
(** ** Vocabulary of the statements *)

(** The substrings [executeWithRecovery] looks for in an error message. *)
Definition transientSignatures : list string :=
  ["Session closed"; "Protocol error"; "Target closed"].

(** The fields no reconnection step touches. *)
Definition sameSurroundings (w w' : World) : Prop :=
  profilePicCache w' = profilePicCache w /\ sessions w' = sessions w
  /\ batchTimerFirst w' = batchTimerFirst w.

(** What a successful [reinitializeInstance] leaves in the record. *)
Definition rebuilt (c : nat) (i : Instance) : Instance :=
  set_qr None (set_status initializing (set_client c i)).

(** What a failed one leaves. *)
Definition rebuildFailed (c : nat) (i : Instance) : Instance :=
  set_reconnecting false (set_status disconnected (rebuilt c i)).

(** The first two assignments of [attemptAutoReconnection]. *)
Definition markAttempt (i : Instance) : Instance :=
  set_reconnectAttempts (Some (attemptsOrZero i + 1)) (set_reconnecting true i).

(** What one call of [attemptAutoReconnection] makes of the record, given
    the world it starts in. *)
Definition attemptEffect (w : World) (i : Instance) : Instance :=
  if reconnecting i then i
  else if attemptsOrZero i + 1 >? maxReconnectAttempts
  then set_reconnecting false (set_status failed (markAttempt i))
  else if comesUp (replyAt 1 w)
  then set_reconnecting false
         (set_reconnectAttempts (Some 0) (rebuilt (nextClient w) (markAttempt i)))
  else set_reconnecting false (rebuildFailed (nextClient w) (markAttempt i)).

(** Whether the call gets as far as [reinitializeInstance]. *)
Definition rebuilds (w : World) (instanceId : string) : bool :=
  match JsMap.get instanceId (instances w) with
  | Some i =>
      negb (reconnecting i) && negb (attemptsOrZero i + 1 >? maxReconnectAttempts)
  | None => false
  end.

(** Whether the sweep would pick the instance registered under the id. *)
Definition eligibleIn (w : World) (instanceId : string) : bool :=
  match JsMap.get instanceId (instances w) with
  | Some i => sweepEligible i
  | None => false
  end.

(** One attempt after the other, on the given ids. *)
Definition attemptAll (ids : list string) (w : World) : World :=
  fold_left (fun w' instanceId => attemptAutoReconnection instanceId w') ids w.

(** No usable cache entry under the key: none at all, or one that is at
    least [cacheExpiry] old. *)
Definition stale (w : World) (key : string) : Prop :=
  match profilePicCache w !! key with
  | Some cached => cacheExpiry <= now w - timestamp cached
  | None => True
  end.

(** The readiness guard of the operations. *)
Definition readyIn (w : World) (instanceId : string) : bool :=
  match JsMap.get instanceId (instances w) with
  | Some i => status_eqb (status i) ready
  | None => false
  end.

(** The key list of a [Map] after [set] was called for each of the ids. *)
Definition addKey (ks : list string) (k : string) : list string :=
  if bool_decide (k ∈ ks) then ks else ks ++ [k].

Definition addKeys (ks ids : list string) : list string :=
  fold_left addKey ids ks.

(** The order the chat listing sorts by: a chat is not older than the
    chats after it. *)
Definition newerFirst (a b : Chat) : Prop := recency b <= recency a.

(** The [k]-th batch of [getMultipleProfilePics], counted from 0. *)
Definition batchAt (contactIds : list string) (batchSize : Z) (k : nat)
    : list string :=
  slice (Z.of_nat k * batchSize) (Z.of_nat k * batchSize + batchSize) contactIds.

(** A change of the record that leaves the counter alone and does not
    turn the instance [failed]. *)
Definition counterKept (i i' : Instance) : Prop :=
  reconnectAttempts i' = reconnectAttempts i
  /\ isRecovered i' = isRecovered i
  /\ (status i' = status i \/ status i' <> failed).

(** A record as [recoverInstance] builds it. *)
Definition replaced (i' : Instance) : Prop :=
  reconnectAttempts i' = None /\ isRecovered i' = true /\ status i' <> failed.

(** What an operation wrapped in [executeWithRecovery] can do to the
    registry: no entry appears, entries of other instances stay as they are,
    and the entry of the instance keeps its counter or is replaced. *)
Definition quiet (instanceId : string) (m m' : JsMap.t Instance) : Prop :=
  JsMap.keys m' `sublist_of` JsMap.keys m
  /\ forall k i',
       JsMap.get k m' = Some i' ->
       exists i,
         JsMap.get k m = Some i
         /\ (k <> instanceId -> i' = i)
         /\ (counterKept i i' \/ replaced i').

(** Once [failed], the counter is above the bound. *)
Definition failedIsExhausted (m : JsMap.t Instance) : Prop :=
  forall k i,
    JsMap.get k m = Some i -> status i = failed ->
    exists n, reconnectAttempts i = Some n /\ maxReconnectAttempts < n.

(** How a step may change the record registered under an id. *)
Definition recordChange (a : Action) (instanceId : string) (i i' : Instance)
    : Prop :=
  counterKept i i'
  \/ replaced i'
  \/ (exists w0, i' = attemptEffect w0 i)
  \/ ((exists reason, a = ClientEmits instanceId (EvDisconnected reason))
      /\ reconnectAttempts i' = Some 0 /\ status i' = disconnected).

(** The world after a list of actions, from the initial one. *)
Definition replay (history : list Action) : World :=
  fold_left (fun w a => run a w) history initialWorld.

(* ===================================================================== *)
(** ** Sample worlds *)

Definition sampleInstance (instanceId : string) (s : Status) (auth : bool)
    (attempts : option Z) : Instance :=
  mkInstance instanceId 0 s None None 0 0 false auth auth attempts false false.

(** One instance ["a"], disconnected by the health monitor, with a client
    that never answers. *)
Definition strandedWorld : World :=
  mkWorld [("a", sampleInstance "a" disconnected true None)] ∅ ∅ 0 [] [] [] [] 1%nat.

(** Two disconnected instances, of which only ["a"] still has valid
    authentication. *)
Definition mixedWorld : World :=
  mkWorld [("a", sampleInstance "a" disconnected true None);
           ("b", sampleInstance "b" disconnected false None)]
    ∅ ∅ 0 [] [] [] [] 2%nat.

(** An instance that is registered but not ready, no cached picture, and a
    client that would answer with a picture if it were asked. *)
Definition unreadyWorld : World :=
  mkWorld [("a", sampleInstance "a" disconnected true None)] ∅ ∅ 0 [] []
    [mkReply 10 (Resolves (VPicture (Some "https://pps.example/c.jpg")))] [] 1%nat.

(** A ready instance whose client answers one picture lookup. *)
Definition readyWorld : World :=
  mkWorld [("a", sampleInstance "a" ready true None)] ∅ ∅ 5000 [] []
    [mkReply 10 (Resolves (VPicture (Some "https://pps.example/c.jpg")))] [] 1%nat.

(** A ready instance, three pictures on offer, and a scheduler that lets
    the batch timer win the first race. *)
Definition enrichWorld : World :=
  mkWorld [("a", sampleInstance "a" ready true None)] ∅ ∅ 5000 [] []
    [mkReply 10 (Resolves (VPicture (Some "x.jpg")));
     mkReply 20 (Resolves (VPicture (Some "y.jpg")));
     mkReply 30 (Resolves (VPicture (Some "z.jpg")))]
    [true] 1%nat.

(** Ten chats, newest first, and a ready instance whose client lists them. *)
Definition tenChats : list Chat :=
  map (fun n => mkChat (String (ascii_of_nat (48 + n)) "@c.us") EmptyString false 0
                  (Some (100 - Z.of_nat n)))
      (seq 0 10).

Definition listingWorld : World :=
  mkWorld [("a", sampleInstance "a" ready true None)] ∅ ∅ 5000 [] []
    [mkReply 10 (Resolves (VChats tenChats))] [] 1%nat.

(** Instance ["a"] is created and becomes ready; its client then stops
    answering, the health monitor marks it disconnected, and three sweeps
    fail to bring it back. *)
Definition lostContact : list Action :=
  [Create (Some "a") "00000000-0000-4000-8000-000000000000";
   ClientEmits "a" (EvReady "me");
   HealthTick;
   SweepTick; SweepTick; SweepTick].


(** A registered instance with a session directory, whose browser is gone:
    [client.destroy()] rejects. *)
Definition brokenTeardownWorld : World :=
  mkWorld [("a", sampleInstance "a" disconnected true None)] ∅
    {[ "a" := true ]} 0 [] []
    [mkReply 5 (Rejects "Protocol error (Browser.close): Target closed")] [] 1%nat.

(** The registry after one [createInstance("a")]. *)
Definition oneCreated : list Action :=
  [Create (Some "a") "00000000-0000-4000-8000-000000000000"].

(** A ready instance with a session directory; the client rejects the next
    call with a closed-session error, accepts the teardown, and then fails
    to start again. *)
Definition closedSessionWorld : World :=
  mkWorld [("a", sampleInstance "a" ready true None)] ∅
    {[ "a" := true ]} 0 [] []
    [mkReply 5 (Rejects "Protocol error (Runtime.callFunctionOn): Session closed.");
     mkReply 5 (Resolves VUnit);
     mkReply 5 (Rejects "Failed to launch the browser process")]
    [] 1%nat.

Definition closedSessionAfterFailure : World :=
  snd (sendMessageOperation "a" "491701234567" "hello" closedSessionWorld).

Definition closedSessionAfterRecovery : World :=
  snd (recoverInstance "a" (prepareRecovery "a" closedSessionAfterFailure)).

(* ===================================================================== *)
(** ** More of the manager *)

(** What [getContacts] returns. *)
Record ContactsResult := mkContactsResult {
  listed_contacts : list ChatData;
  contacts_count : Z;
  contacts_profilePicsIncluded : bool;
  contacts_pagination : Pagination
}.

(** What [getGroups] returns. *)
Record GroupsResult := mkGroupsResult {
  listed_groups : list ChatData;
  groups_count : Z;
  groups_profilePicsIncluded : bool;
  groups_pagination : Pagination
}.

(** [getContacts]. *)
Definition getContacts (instanceId : string) (includeProfilePics : bool)
    (limit offset : Z) : Async ContactsResult :=
  tryCatch
    (chatsResult <~ getChats instanceId includeProfilePics limit offset ;;
     ret (mkContactsResult (contacts chatsResult) (contactsCount chatsResult)
            includeProfilePics (pagination chatsResult)))
    (fun error => throw error).

(** [getGroups]. *)
Definition getGroups (instanceId : string) (includeProfilePics : bool)
    (limit offset : Z) : Async GroupsResult :=
  tryCatch
    (chatsResult <~ getChats instanceId includeProfilePics limit offset ;;
     ret (mkGroupsResult (groups chatsResult) (groupsCount chatsResult)
            includeProfilePics (pagination chatsResult)))
    (fun error => throw error).

(** An element of the array [getInstancesStatus] returns. *)
Record StatusEntry := mkStatusEntry {
  entry_instanceId : string;
  entry_status : Status;
  entry_info : option string;
  entry_createdAt : Z;
  entry_lastActivity : Z;
  entry_isRecovered : bool;
  entry_hasValidAuth : bool
}.

(** [getInstancesStatus]: one element per entry of the registry, in
    insertion order, keyed by the key of the entry. *)
Definition getInstancesStatus (w : World) : list StatusEntry :=
  map (fun entry =>
         let instance := snd entry in
         mkStatusEntry (fst entry) (status instance) (info instance)
           (createdAt instance) (lastActivity instance)
           (isRecovered instance) (hasValidAuth instance))
      (instances w).

(** [key.startsWith(`${instanceId}:`)]. *)
Definition belongsTo (instanceId key : string) : bool :=
  String.prefix (instanceId ++ ":") key.

(** [clearProfilePicCache]: without an id, or with the empty one, the whole
    cache goes; otherwise the entries whose key starts with the id and a
    colon. *)
Definition clearProfilePicCache (instanceId : option string) (w : World) : World :=
  match instanceId with
  | Some id =>
      if String.eqb id EmptyString then set_profilePicCache ∅ w
      else
        set_profilePicCache
          (filter (fun entry => belongsTo id (fst entry) = false) (profilePicCache w))
          w
  | None => set_profilePicCache ∅ w
  end.

(** [recoverExistingSessions]; [sessionDirs] is what [fs.readdirSync] lists
    under the sessions path.  Each directory is recovered in turn, an error
    of one of them caught and logged. *)
Definition recoverExistingSessions (sessionDirs : list string) (w : World) : World :=
  fold_left
    (fun w' instanceId =>
       snd (tryCatch (recoverInstance instanceId) (fun _ => ret tt) w'))
    sessionDirs w.

(** The manager object: the world, and the handles of the two intervals its
    constructor arms ([null] is [false]). *)
Record Manager := mkManager {
  world : World;
  healthCheckInterval : bool;
  reconnectionInterval : bool
}.

(** [stopHealthMonitoring]. *)
Definition stopHealthMonitoring (m : Manager) : Manager :=
  if healthCheckInterval m
  then mkManager (world m) false (reconnectionInterval m)
  else m.

(** [stopAutoReconnection]. *)
Definition stopAutoReconnection (m : Manager) : Manager :=
  if reconnectionInterval m
  then mkManager (world m) (healthCheckInterval m) false
  else m.

(** One turn of the loop of [cleanup]: stop the keep-alive, destroy the
    client, and only log what goes wrong. *)
Definition cleanupVisit (w : World) (instanceId : string) : World :=
  match JsMap.get instanceId (instances w) with
  | Some _ =>
      snd (tryCatch
             (perform (stopKeepAlive instanceId) ;;; _ <~ awaitClient ;; ret tt)
             (fun _ => ret tt) w)
  | None => w
  end.

(** [cleanup]. *)
Definition cleanup (m : Manager) : Manager :=
  let m1 := stopAutoReconnection (stopHealthMonitoring m) in
  let w1 := fold_left cleanupVisit (JsMap.keys (instances (world m1))) (world m1) in
  mkManager (set_profilePicCache ∅ (set_instances [] w1))
    (healthCheckInterval m1) (reconnectionInterval m1).

(** The instance an action is addressed to, for the actions that are
    addressed to one. *)
Definition target (w : World) (a : Action) : option string :=
  match a with
  | Create instanceId uuid => Some (effectiveId instanceId uuid)
  | Recover instanceId => Some instanceId
  | Initialize instanceId => Some instanceId
  | Destroy instanceId => Some instanceId
  | ClientEmits instanceId _ => Some instanceId
  | KeepAliveTick instanceId => Some instanceId
  | TimerFires n =>
      match timers w !! n with
      | Some (ScheduledRetry instanceId) => Some instanceId
      | Some (ImmediateReconnect instanceId) => Some instanceId
      | None => None
      end
  | ReconnectRoute instanceId => Some instanceId
  | SendMessage instanceId _ _ => Some instanceId
  | GetChats instanceId _ _ _ => Some instanceId
  | HealthTick => None
  | SweepTick => None
  | Environment _ _ _ _ => None
  end.

(** Whether the liveness probe, bounded by three seconds, finds the client
    connected. *)
Definition healthy (r : Reply) : bool :=
  (took r <? 3000) &&
  match answer r with
  | Resolves (VState s) => String.eqb s "CONNECTED"
  | _ => false
  end.

(** [to.includes('@') ? to : `${to}@c.us`]. *)
Definition chatIdOf (to : string) : string :=
  if includes to "@" then to else to ++ "@c.us".

(** What [MessageMedia.fromFilePath] makes of the uploaded file. *)
Inductive MediaFile :=
| Loaded
| Unreadable (message : string).

(** [sendMedia]; it is not wrapped in [executeWithRecovery]. *)
Definition sendMedia (instanceId to : string) (media : MediaFile) : Async Sent :=
  tryCatch
    (fun w =>
       match JsMap.get instanceId (instances w) with
       | None => (Threw (notFoundMessage instanceId), w)
       | Some inst =>
           if negb (status_eqb (status inst) ready)
           then (Threw (notReadyMessage instanceId (status inst)), w)
           else
             match media with
             | Unreadable message => (Threw message, w)
             | Loaded =>
                 (result <~ awaitClient ;;
                  match result with
                  | VSent messageId sentAt =>
                      fun w1 =>
                        (Returned (mkSent messageId sentAt),
                         updateInstance instanceId (set_lastActivity (now w1)) w1)
                  | _ => throw "TypeError"
                  end) w
             end
       end)
    (fun error => throw error).

(** The answers of [POST /instances/:instanceId/reconnect]. *)
Inductive ReconnectAnswer :=
| InstanceNotFound
| AlreadyConnected
| NotDisconnected (current : Status)
| AttemptStarted.

(** The handler of [POST /instances/:instanceId/reconnect] with the answer
    it sends. *)
Definition reconnectRequest (instanceId : string) (w : World)
    : ReconnectAnswer * World :=
  match getInstanceStatus instanceId w with
  | None => (InstanceNotFound, w)
  | Some inst =>
      if status_eqb (status inst) ready then (AlreadyConnected, w)
      else if negb (status_eqb (status inst) disconnected)
      then (NotDisconnected (status inst), w)
      else (AttemptStarted, attemptAutoReconnection instanceId w)
  end.

(* ===================================================================== *)
(** ** Vocabulary of the further statements *)

(** What every result of the listing closure satisfies: the page is split
    into contacts and groups, and the counts are the lengths. *)
Definition wellSplit (res : ChatsResult) : Prop :=
  contactsCount res + groupsCount res = returnedCount (pagination res)
  /\ contactsCount res = Z.of_nat (length (contacts res))
  /\ groupsCount res = Z.of_nat (length (groups res))
  /\ Forall (fun d => cd_isGroup d = false) (contacts res)
  /\ Forall (fun d => cd_isGroup d = true) (groups res)
  /\ 0 <= returnedCount (pagination res) <= totalChats res.

(** The record [recoverInstance] registers while the client starts. *)
Definition recoveredRecord (instanceId : string) (w : World) : Instance :=
  let validAuth := hasValidSession instanceId w in
  mkInstance instanceId (nextClient w)
    (if validAuth then authenticating else recovering)
    None None (now w) (now w) true validAuth validAuth None false false.

(** The error a wrapped operation ends with when its guard throws
    [message] and the instance is not registered: a message that carries a
    signature is taken for a session error, and recovery fails at once. *)
Definition guardError (instanceId message : string) : string :=
  if isSessionError message then recoveryFailedMessage instanceId else message.

(** The record the two [disconnected] listeners leave. *)
Definition afterDisconnected (i : Instance) : Instance :=
  set_reconnectAttempts (Some 0)
    (set_keepAliveInterval false
       (set_status disconnected (set_skipQR false (set_hasValidAuth false i)))).

(** The record the [ready] listener leaves, [at_] being the time of the
    event. *)
Definition afterReady (clientInfo : string) (at_ : Z) (i : Instance) : Instance :=
  set_keepAliveInterval true
    (set_skipQR true (set_hasValidAuth true
       (set_lastActivity at_ (set_info (Some clientInfo)
          (set_qr None (set_status ready i)))))).

(** The registries [m] and [m'] agree on every id but [instanceId]. *)
Definition apart (instanceId : string) (m m' : JsMap.t Instance) : Prop :=
  forall other, other <> instanceId -> JsMap.get other m' = JsMap.get other m.

(** The ids the health sweep probes, in the order it visits them. *)
Definition probed (w : World) (ks : list string) : list string :=
  filter (fun k => readyIn w k = true) ks.

(** What the health monitor makes of a ready record, given the reply to
    its probe and the time the probe started. *)
Definition probeEffect (r : Reply) (started : Z) (i : Instance) : Instance :=
  if healthy r then set_lastActivity (started + took r) i
  else set_status disconnected i.

(** The two status values a listener assigns and overwrites before it
    returns. *)
Definition overwritten (s : Status) : bool :=
  match s with
  | auth_failed | qr_required => true
  | _ => false
  end.

Definition settled (m : JsMap.t Instance) : Prop :=
  forall k i, JsMap.get k m = Some i -> overwritten (status i) = false.

(* ===================================================================== *)
(** ** Further sample worlds *)

(** Three session directories on disk and nothing registered; the browser
    of the second one fails to start. *)
Definition startupWorld : World :=
  mkWorld [] ∅ {[ "a" := true; "b" := false; "c" := true ]} 0 [] []
    [mkReply 5 (Resolves VUnit);
     mkReply 5 (Rejects "Failed to launch the browser process");
     mkReply 5 (Resolves VUnit)]
    [] 0%nat.

(** Nothing registered, and a client that accepts its teardown. *)
Definition freshWorld : World :=
  mkWorld [] ∅ ∅ 0 [] [] [mkReply 5 (Resolves VUnit)] [] 0%nat.

(** A ready instance without a session directory whose client rejects
    every call with a closed-session error. *)
Definition silentWorld : World :=
  mkWorld [("a", sampleInstance "a" ready true None)] ∅ ∅ 0 [] []
    [mkReply 5 (Rejects "Session closed"); mkReply 5 (Rejects "Session closed")]
    [] 1%nat.

(** A ready instance without valid authentication, with a pending
    reconnection armed by the health monitor, and a client that starts. *)
Definition armedWorld : World :=
  mkWorld [("a", sampleInstance "a" ready false None)] ∅ ∅ 0 []
    [ImmediateReconnect "a"]
    [mkReply 5 (Resolves VUnit); mkReply 5 (Resolves VUnit)] [] 1%nat.

(** Two ready instances with one cached picture each. *)
Definition cachedWorld : World :=
  mkWorld [("a", sampleInstance "a" ready true None);
           ("b", sampleInstance "b" ready true None)]
    {[ "a:c" := mkCacheEntry (Some "x.jpg") 4000;
       "b:c" := mkCacheEntry None 4000 ]}
    ∅ 5000 [] [] [] [] 2%nat.

(** [lostContact] followed by six more sweeps: nine attempts in all. *)
Definition exhausting : list Action :=
  lostContact ++ [SweepTick; SweepTick; SweepTick; SweepTick; SweepTick; SweepTick].

Definition exhaustedRecord : Instance :=
  mkInstance "a" 8 failed None (Some "me") 0 0 false true true (Some 9) false true.

(** Instance ["a"] is created and its client reports an authentication
    failure. *)
Definition rejectedLogin : list Action :=
  [Create (Some "a") "00000000-0000-4000-8000-000000000000";
   ClientEmits "a" (EvAuthFailure "LOGOUT")].

Definition rejectedRecord : Instance :=
  mkInstance "a" 0 auth_failure None None 0 0 false false false None false false.

(* ===================================================================== *)
(** * Properties *)

(** ** Strings *)

#[local] Arguments append !_ _ / : simpl nomatch.

Lemma prefix_split (p s : string) :
  String.prefix p s = true <-> exists post, s = p ++ post.
Proof.
  revert s; induction p as [|a p IH]; intros s; simpl.
  - split; [exists s; reflexivity | destruct s; reflexivity].
  - destruct s as [|b s]; simpl.
    + split; [discriminate | intros [post H]; discriminate].
    + destruct (Ascii.ascii_dec a b) as [->|Hne].
      * rewrite IH. split; intros [post H]; exists post; congruence.
      * split; [discriminate | intros [post H]; congruence].
Qed.

Lemma includes_unfold (hay needle : string) :
  includes hay needle =
  String.prefix needle hay ||
  match hay with
  | EmptyString => false
  | String _ rest => includes rest needle
  end.
Proof. destruct hay; reflexivity. Qed.

(** [includes] finds exactly the substrings. *)
Lemma includes_substring (hay needle : string) :
  includes hay needle = true <->
  exists pre post, hay = pre ++ needle ++ post.
Proof.
  induction hay as [|a hay IH]; rewrite includes_unfold.
  - rewrite orb_false_r, prefix_split. split.
    + intros [post H]. exists EmptyString, post. exact H.
    + intros [pre [post H]]. destruct pre; simpl in H; [eauto | discriminate].
  - rewrite orb_true_iff, prefix_split, IH. split.
    + intros [[post H] | [pre [post H]]].
      * exists EmptyString, post. exact H.
      * exists (String a pre), post. simpl. congruence.
    + intros [pre [post H]]. destruct pre as [|b pre]; simpl in H.
      * left. eauto.
      * right. exists pre, post. congruence.
Qed.

(** ** The registry as a map *)

Section JsMapFacts.
Context {V : Type}.
Implicit Types (m : JsMap.t V) (k : string) (v : V).

Lemma get_set_same k v m : JsMap.get k (JsMap.set k v m) = Some v.
Proof.
    induction m as [|[k' v'] m IH]; simpl.
    - now rewrite String.eqb_refl.
    - destruct (String.eqb k k') eqn:E; simpl; rewrite E; [reflexivity | exact IH].
Qed.

Lemma get_set_other k k' v m :
    k <> k' -> JsMap.get k' (JsMap.set k v m) = JsMap.get k' m.
Proof.
    intros Hne. induction m as [|[k0 v0] m IH]; simpl.
    - destruct (String.eqb_spec k' k); [congruence | reflexivity].
    - destruct (String.eqb_spec k k0) as [->|H0]; simpl.
      + destruct (String.eqb_spec k' k0); [congruence | reflexivity].
      + destruct (String.eqb_spec k' k0); [reflexivity | exact IH].
Qed.

Lemma get_delete_same k m : JsMap.get k (JsMap.delete k m) = None.
Proof.
    induction m as [|[k' v'] m IH]; simpl; [reflexivity|].
    destruct (String.eqb k k') eqn:E; simpl; [exact IH | now rewrite E].
Qed.

Lemma get_delete_other k k' m :
    k <> k' -> JsMap.get k' (JsMap.delete k m) = JsMap.get k' m.
Proof.
    intros Hne. induction m as [|[k0 v0] m IH]; simpl; [reflexivity|].
    destruct (String.eqb_spec k k0) as [->|H0]; simpl.
    - destruct (String.eqb_spec k' k0); [congruence | exact IH].
    - destruct (String.eqb_spec k' k0); [reflexivity | exact IH].
Qed.

Lemma get_Some_key k v m : JsMap.get k m = Some v -> k ∈ JsMap.keys m.
Proof.
    induction m as [|[k' v'] m IH]; simpl; [discriminate|].
    destruct (String.eqb_spec k k') as [->|Hne]; intros H.
    - left.
    - right. exact (IH H).
Qed.

Lemma get_None_key k m : JsMap.get k m = None <-> k ∉ JsMap.keys m.
Proof.
    induction m as [|[k' v'] m IH]; simpl.
    - split; [intros _; apply not_elem_of_nil | reflexivity].
    - rewrite not_elem_of_cons.
      destruct (String.eqb_spec k k') as [->|Hne].
      + split; [discriminate | intros [H _]; now destruct H].
      + rewrite IH. tauto.
Qed.

Lemma has_key k m : JsMap.has k m = true <-> k ∈ JsMap.keys m.
Proof.
    unfold JsMap.has. destruct (JsMap.get k m) eqn:E.
    - split; [intros _; eapply get_Some_key, E | reflexivity].
    - apply get_None_key in E. split; [discriminate | contradiction].
Qed.

  (** Overwriting a key keeps the key list as it is; a new key goes last. *)
Lemma keys_set k v m :
    JsMap.keys (JsMap.set k v m) =
    if JsMap.has k m then JsMap.keys m else (JsMap.keys m ++ [k])%list.
Proof.
    unfold JsMap.has. induction m as [|[k' v'] m IH]; simpl; [reflexivity|].
    destruct (String.eqb_spec k k') as [->|Hne]; simpl; [reflexivity|].
    rewrite IH. now destruct (JsMap.get k m).
Qed.

Lemma keys_delete k m :
    JsMap.keys (JsMap.delete k m) = filter (fun k' => k' <> k) (JsMap.keys m).
Proof.
    induction m as [|[k' v'] m IH]; simpl; [reflexivity|].
    destruct (String.eqb_spec k k') as [->|Hne]; simpl.
    - rewrite filter_cons_False by naive_solver. exact IH.
    - rewrite filter_cons_True by naive_solver. simpl. now rewrite IH.
Qed.

Lemma set_same k v m : JsMap.get k m = Some v -> JsMap.set k v m = m.
Proof.
    induction m as [|[k' v'] m IH]; simpl; [discriminate|].
    destruct (String.eqb_spec k k') as [->|Hne]; intros H.
    - congruence.
    - now rewrite IH.
Qed.

Lemma set_set k v v' m : JsMap.set k v' (JsMap.set k v m) = JsMap.set k v' m.
Proof.
    induction m as [|[k0 v0] m IH]; simpl.
    - now rewrite String.eqb_refl.
    - destruct (String.eqb k k0) eqn:E; simpl; rewrite E; [reflexivity | now rewrite IH].
Qed.

Lemma NoDup_keys_set k v m :
    NoDup (JsMap.keys m) -> NoDup (JsMap.keys (JsMap.set k v m)).
Proof.
    intros H. rewrite keys_set. destruct (JsMap.has k m) eqn:E; [exact H|].
    apply NoDup_app. split; [exact H|]. split; [|apply NoDup_singleton].
    intros x Hx Hk. apply list_elem_of_singleton in Hk as ->.
    apply has_key in Hx. congruence.
Qed.

Lemma NoDup_keys_delete k m :
    NoDup (JsMap.keys m) -> NoDup (JsMap.keys (JsMap.delete k m)).
Proof. intros H. rewrite keys_delete. now apply NoDup_filter. Qed.
End JsMapFacts.


(** ** Operation recovery wrapper *)

Lemma isSessionError_signature (message : string) :
  isSessionError message = true <->
  exists signature pre post,
    signature ∈ transientSignatures /\ message = pre ++ signature ++ post.
Proof.
  unfold isSessionError, transientSignatures.
  rewrite !orb_true_iff, !includes_substring. split.
  - intros [[(pre & post & H) | (pre & post & H)] | (pre & post & H)];
      eexists _, pre, post; (split; [|exact H]); set_solver.
  - intros (sig & pre & post & Hin & H).
    rewrite !elem_of_cons, elem_of_nil in Hin.
    destruct Hin as [-> | [-> | [-> | []]]]; eauto.
Qed.

(** The wrapper, case by case: what the first run yields decides whether
    recovery runs and whether the operation runs a second time. *)
Lemma executeWithRecovery_cases {R} (instanceId : string)
    (operation : Async R) (w : World) :
  match operation w with
  | (Returned r, w1) =>
      executeWithRecovery instanceId operation w = (Returned r, w1)
  | (Threw error, w1) =>
      if isSessionError error then
        match attemptSessionRecovery instanceId w1 with
        | (true, w2) =>
            executeWithRecovery instanceId operation w = operation (sleep 3000 w2)
        | (false, w2) =>
            executeWithRecovery instanceId operation w =
            (Threw (recoveryFailedMessage instanceId), w2)
        end
      else executeWithRecovery instanceId operation w = (Threw error, w1)
  end.
Proof.
  unfold executeWithRecovery, tryCatch.
  destruct (operation w) as [[r | error] w1]; [reflexivity|].
  destruct (isSessionError error); [|reflexivity].
  destruct (attemptSessionRecovery instanceId w1) as [[|] w2]; reflexivity.
Qed.

(** C1.  [executeWithRecovery] runs the operation once.  A result is
    returned as it is.  An error whose message contains none of
    ['Session closed'], ['Protocol error'], ['Target closed'] is rethrown as
    it is, and the world is the one the first run left: no recovery, no
    retry.  An error that contains one of them starts
    [attemptSessionRecovery]; if that returns [true] the outcome is exactly
    that of one more run of the operation, three seconds later, whether it
    returns or throws; if it returns [false] the error thrown is the
    recovery-failed message and not the original one. *)
Theorem executeWithRecovery_one_shot {R} (instanceId : string)
    (operation : Async R) (w : World) :
  (forall message,
     isSessionError message = true <->
     exists signature pre post,
       signature ∈ transientSignatures /\ message = pre ++ signature ++ post)
  /\ match operation w with
     | (Returned r, w1) =>
         executeWithRecovery instanceId operation w = (Returned r, w1)
     | (Threw error, w1) =>
         if isSessionError error then
           match attemptSessionRecovery instanceId w1 with
           | (true, w2) =>
               executeWithRecovery instanceId operation w
               = operation (sleep 3000 w2)
           | (false, w2) =>
               executeWithRecovery instanceId operation w
               = (Threw (recoveryFailedMessage instanceId), w2)
               /\ recoveryFailedMessage instanceId
                  = "Session recovery failed for instance " ++ instanceId
                    ++ ". Please reinitialize the instance."
           end
         else executeWithRecovery instanceId operation w = (Threw error, w1)
     end.
Proof.
  split; [apply isSessionError_signature|].
  pose proof (executeWithRecovery_cases instanceId operation w) as H.
  destruct (operation w) as [[r | error] w1]; [exact H|].
  destruct (isSessionError error); [|exact H].
  destruct (attemptSessionRecovery instanceId w1) as [[|] w2]; [exact H|].
  split; [exact H | reflexivity].
Qed.

Lemma tryCatch_throws {A} (c : Async A) (handler : string -> Async A)
    (w w' : World) (error : string) :
  tryCatch c handler w = (Threw error, w') ->
  exists error0 w0, c w = (Threw error0, w0) /\ handler error0 w0 = (Threw error, w').
Proof.
  unfold tryCatch. destruct (c w) as [[a | error0] w0]; [discriminate|].
  intros H. now exists error0, w0.
Qed.

(** A [recoverInstance] that throws leaves no entry behind. *)
Lemma recoverInstance_throw_unregisters (instanceId : string) (w w' : World)
    (error : string) :
  recoverInstance instanceId w = (Threw error, w') ->
  JsMap.get instanceId (instances w') = None.
Proof.
  intros H. unfold recoverInstance in H.
  apply tryCatch_throws in H as (error0 & w0 & _ & H).
  injection H as _ <-.
  destruct (JsMap.has instanceId (instances w0)) eqn:E; simpl.
  - apply get_delete_same.
  - unfold JsMap.has in E. now destruct (JsMap.get instanceId (instances w0)).
Qed.

Lemma operation_on_unregistered (instanceId : string) (w : World) :
  JsMap.get instanceId (instances w) = None ->
  getInstanceStatus instanceId w = None
  /\ (forall to message,
        sendMessageOperation instanceId to message w =
        (Threw (notFoundMessage instanceId), w))
  /\ (forall includeProfilePics limit offset,
        getChatsOperation instanceId includeProfilePics limit offset w =
        (Threw (notFoundMessage instanceId), w)).
Proof.
  intros H. unfold getInstanceStatus, sendMessageOperation, getChatsOperation.
  rewrite H. auto.
Qed.

(** C10.  When the first run of a wrapped operation throws a transient
    session error for a registered instance and the [recoverInstance] called
    by [attemptSessionRecovery] throws, the wrapper throws the
    recovery-failed error and the registry no longer holds the id: the
    status query answers not found, and so do the operations, which look the
    instance up before they test its status. *)
Theorem failed_recovery_unregisters {R} (instanceId : string)
    (operation : Async R) (w w1 w3 : World) (error error' : string) :
  operation w = (Threw error, w1) ->
  isSessionError error = true ->
  JsMap.has instanceId (instances w1) = true ->
  recoverInstance instanceId (prepareRecovery instanceId w1) = (Threw error', w3) ->
  executeWithRecovery instanceId operation w =
    (Threw (recoveryFailedMessage instanceId), w3)
  /\ JsMap.get instanceId (instances w3) = None
  /\ getInstanceStatus instanceId w3 = None
  /\ (forall to message,
        sendMessageOperation instanceId to message w3 =
        (Threw (notFoundMessage instanceId), w3))
  /\ (forall includeProfilePics limit offset,
        getChatsOperation instanceId includeProfilePics limit offset w3 =
        (Threw (notFoundMessage instanceId), w3)).
Proof.
  intros Hop Hsig Hreg Hrec.
  pose proof (recoverInstance_throw_unregisters _ _ _ _ Hrec) as Hgone.
  split; [|split; [exact Hgone | now apply operation_on_unregistered]].
  pose proof (executeWithRecovery_cases instanceId operation w) as H.
  rewrite Hop, Hsig in H. unfold attemptSessionRecovery in H.
  unfold JsMap.has in Hreg.
  destruct (JsMap.get instanceId (instances w1)); [|discriminate].
  now rewrite Hrec in H.
Qed.

(** The wrapped methods report the same, unless the id itself spells one of
    the signatures the wrapper looks for in the message. *)
Lemma wrapped_operation_on_unregistered (instanceId : string) (w : World) :
  JsMap.get instanceId (instances w) = None ->
  isSessionError (notFoundMessage instanceId) = false ->
  (forall to message,
     sendMessage instanceId to message w = (Threw (notFoundMessage instanceId), w))
  /\ (forall includeProfilePics limit offset,
        getChats instanceId includeProfilePics limit offset w =
        (Threw (notFoundMessage instanceId), w)).
Proof.
  intros Hgone Hplain.
  destruct (operation_on_unregistered _ _ Hgone) as (_ & Hsend & Hchats).
  split; intros; unfold sendMessage, getChats, executeWithRecovery, tryCatch.
  - rewrite Hsend, Hplain. reflexivity.
  - rewrite Hchats, Hplain. reflexivity.
Qed.

(** ** Lifecycle controller *)

Lemma destroyInstance_teardown_throws (instanceId : string) (w : World)
    (inst : Instance) (t : Z) (message : string) (rest : list Reply) :
  JsMap.get instanceId (instances w) = Some inst ->
  script w = mkReply t (Rejects message) :: rest ->
  destroyInstance instanceId w = (Threw message, sleep t (set_script rest w)).
Proof.
  intros Hreg Hscript.
  unfold destroyInstance, tryCatch, bind, awaitClient, nextReply.
  rewrite Hreg, Hscript. reflexivity.
Qed.

Lemma destroyInstance_teardown_resolves (instanceId : string) (w : World)
    (inst : Instance) (t : Z) (v : Value) (rest : list Reply) :
  JsMap.get instanceId (instances w) = Some inst ->
  script w = mkReply t (Resolves v) :: rest ->
  exists w',
    destroyInstance instanceId w = (Returned tt, w')
    /\ JsMap.get instanceId (instances w') = None
    /\ sessions w' !! instanceId = None
    /\ emitted w' =
       (emitted w ++ [mkNotification None "instance_destroyed" instanceId None])%list.
Proof.
  intros Hreg Hscript.
  unfold destroyInstance, tryCatch, bind, awaitClient, nextReply, perform.
  rewrite Hreg, Hscript. simpl. eexists. split; [reflexivity|].
  split; [|split].
  - match goal with |- context [if ?c then _ else _] => destruct c end;
      simpl; apply get_delete_same.
  - unfold sessionExists. simpl.
    destruct (sessions w !! instanceId) eqn:E; simpl; [apply lookup_delete_eq | exact E].
  - match goal with |- context [if ?c then _ else _] => destruct c end; reflexivity.
Qed.

Lemma createInstance_taken (instanceId uuid : string) (w : World) (inst : Instance) :
  instanceId <> EmptyString ->
  JsMap.get instanceId (instances w) = Some inst ->
  createInstance (Some instanceId) uuid w = (Threw (alreadyExistsMessage instanceId), w).
Proof.
  intros Hne Hreg. unfold createInstance, tryCatch, effectiveId, JsMap.has.
  destruct (String.eqb_spec instanceId EmptyString); [contradiction|].
  rewrite Hreg. reflexivity.
Qed.


(** ** Instance records under the reconnection machinery *)

Section AdjustFacts.
Context {V : Type}.
Implicit Types (m : JsMap.t V) (k : string) (f g : V -> V).

Lemma get_adjust_same k f m :
    JsMap.get k (JsMap.adjust k f m) = f <$> JsMap.get k m.
Proof.
    unfold JsMap.adjust. destruct (JsMap.get k m) eqn:E; simpl.
    - apply get_set_same.
    - exact E.
Qed.

Lemma get_adjust_other k k' f m :
    k <> k' -> JsMap.get k' (JsMap.adjust k f m) = JsMap.get k' m.
Proof.
    intros Hne. unfold JsMap.adjust. destruct (JsMap.get k m); [|reflexivity].
    now apply get_set_other.
Qed.

Lemma keys_adjust k f m : JsMap.keys (JsMap.adjust k f m) = JsMap.keys m.
Proof.
    unfold JsMap.adjust. destruct (JsMap.get k m) eqn:E; [|reflexivity].
    rewrite keys_set. unfold JsMap.has. now rewrite E.
Qed.

Lemma adjust_adjust k f g m :
    JsMap.adjust k g (JsMap.adjust k f m) = JsMap.adjust k (fun v => g (f v)) m.
Proof.
    unfold JsMap.adjust at 1. rewrite get_adjust_same.
    unfold JsMap.adjust. destruct (JsMap.get k m); simpl; [|reflexivity].
    apply set_set.
Qed.

Lemma adjust_id k f m :
    (forall v, JsMap.get k m = Some v -> f v = v) -> JsMap.adjust k f m = m.
Proof.
    intros H. unfold JsMap.adjust. destruct (JsMap.get k m) eqn:E; [|reflexivity].
    rewrite (H _ eq_refl). now apply set_same.
Qed.
End AdjustFacts.

Lemma nextReply_eq (w : World) :
  nextReply w = (replyAt 0 w, set_script (tail (script w)) w).
Proof. destruct w as [? ? ? ? ? ? [|r rest] ? ?]; reflexivity. Qed.

Lemma instances_updateInstance (instanceId : string) (f : Instance -> Instance)
    (w : World) :
  instances (updateInstance instanceId f w) =
  JsMap.adjust instanceId f (instances w).
Proof.
  unfold updateInstance, JsMap.adjust.
  now destruct (JsMap.get instanceId (instances w)).
Qed.

Lemma updateInstance_eq (instanceId : string) (f : Instance -> Instance)
    (w : World) :
  updateInstance instanceId f w =
  set_instances (JsMap.adjust instanceId f (instances w)) w.
Proof.
  unfold updateInstance, JsMap.adjust.
  destruct (JsMap.get instanceId (instances w)); [reflexivity|].
  now destruct w.
Qed.

Ltac world_simpl :=
  repeat first [rewrite updateInstance_eq | rewrite nextReply_eq]; simpl.

Lemma replyAt_tail (n : nat) (w w' : World) :
  script w' = tail (script w) -> replyAt n w' = replyAt (S n) w.
Proof.
  unfold replyAt. intros ->. destruct (script w) as [|r rest]; simpl; [|reflexivity].
  now destruct n.
Qed.

Lemma reinitializeInstance_spec (instanceId : string) (w : World) (inst : Instance) :
  JsMap.get instanceId (instances w) = Some inst ->
  exists outcome w',
    reinitializeInstance instanceId w = (outcome, w')
    /\ (if comesUp (replyAt 1 w) then outcome = Returned tt
        else exists error, outcome = Threw error)
    /\ instances w' =
       JsMap.adjust instanceId
         (if comesUp (replyAt 1 w) then rebuilt (nextClient w)
          else rebuildFailed (nextClient w)) (instances w)
    /\ script w' = tail (tail (script w))
    /\ timers w' = timers w
    /\ emitted w' = emitted w
    /\ nextClient w' = S (nextClient w)
    /\ sameSurroundings w w'.
Proof.
  intros H. unfold reinitializeInstance. rewrite H.
  unfold tryCatch, bind, perform, ret, awaitClient, awaitClientWithin, newClient.
  rewrite nextReply_eq.
  assert (Hout : exists w1,
    (let (o, w') :=
       let (o, w') := settle (answer (replyAt 0 w))
           (sleep (took (replyAt 0 w)) (set_script (tail (script w)) w)) in
       match o with
       | Returned _ => (Returned (), w')
       | Threw e => (Threw e, w')
       end in
     match o with
     | Returned a => (Returned a, w')
     | Threw _ => (Returned (), w')
     end) = (Returned tt, w1)
    /\ instances w1 = instances w /\ script w1 = tail (script w)
    /\ timers w1 = timers w /\ emitted w1 = emitted w
    /\ nextClient w1 = nextClient w /\ sameSurroundings w w1).
  { destruct (answer (replyAt 0 w)); simpl; eexists; (split; [reflexivity|]);
      unfold sameSurroundings; simpl; auto 10. }
  destruct Hout as (w1 & -> & Hi & Hs & Ht & He & Hn & Hc & Hd & Hb).
  rewrite nextReply_eq, !updateInstance_eq. simpl.
  rewrite (replyAt_tail 0 w) by exact Hs.
  unfold comesUp, rebuildFailed, rebuilt.
  destruct (took (replyAt 1 w) <? 120000) eqn:Et; simpl.
  - destruct (answer (replyAt 1 w)) eqn:Ea; simpl.
    all: eexists _, _; (split; [reflexivity|]); world_simpl;
      rewrite ?adjust_adjust, ?Hi, ?Hs, ?Ht, ?He, ?Hn, ?Hc, ?Hd, ?Hb;
      unfold sameSurroundings; simpl;
      rewrite ?Hi, ?Hs, ?Ht, ?He, ?Hn, ?Hc, ?Hd, ?Hb; eauto 12.
  - eexists _, _; (split; [reflexivity|]); world_simpl;
      rewrite ?adjust_adjust, ?Hi, ?Hs, ?Ht, ?He, ?Hn, ?Hc, ?Hd, ?Hb;
      unfold sameSurroundings; simpl;
      rewrite ?Hi, ?Hs, ?Ht, ?He, ?Hn, ?Hc, ?Hd, ?Hb; eauto 12.
Qed.

Lemma adjust_ext {V} (k : string) (f g : V -> V) (m : JsMap.t V) :
  (forall v, JsMap.get k m = Some v -> f v = g v) ->
  JsMap.adjust k f m = JsMap.adjust k g m.
Proof.
  intros H. unfold JsMap.adjust. destruct (JsMap.get k m) eqn:E; [|reflexivity].
  now rewrite (H _ eq_refl).
Qed.

Lemma replyAt_script (n : nat) (w w' : World) :
  script w' = script w -> replyAt n w' = replyAt n w.
Proof. unfold replyAt. now intros ->. Qed.

Lemma attemptAutoReconnection_spec (instanceId : string) (w : World) :
  let w' := attemptAutoReconnection instanceId w in
  instances w' = JsMap.adjust instanceId (attemptEffect w) (instances w)
  /\ script w' = (if rebuilds w instanceId then tail (tail (script w)) else script w)
  /\ nextClient w' =
     (if rebuilds w instanceId then S (nextClient w) else nextClient w)
  /\ sameSurroundings w w'.
Proof.
  unfold attemptAutoReconnection, rebuilds.
  destruct (JsMap.get instanceId (instances w)) as [inst|] eqn:Hreg.
  2: { simpl. unfold JsMap.adjust, sameSurroundings. rewrite Hreg. auto 10. }
  destruct (reconnecting inst) eqn:Hbusy.
  { simpl. unfold sameSurroundings. rewrite adjust_id; [auto 10|].
    intros v Hv. unfold attemptEffect. assert (v = inst) as -> by congruence.
    now rewrite Hbusy. }
  simpl. destruct (attemptsOrZero inst + 1 >? maxReconnectAttempts) eqn:Hmax.
  { world_simpl. unfold sameSurroundings. simpl. rewrite adjust_adjust.
    split; [|auto 10]. apply adjust_ext. intros v Hv.
    assert (v = inst) as -> by congruence.
    unfold attemptEffect. now rewrite Hbusy, Hmax. }
  simpl.
  set (w1 := updateInstance instanceId _ w).
  assert (Hw1 : w1 = set_instances (JsMap.adjust instanceId
            (fun i => set_reconnectAttempts (Some (attemptsOrZero inst + 1))
                        (set_reconnecting true i)) (instances w)) w)
    by apply updateInstance_eq.
  assert (Hreg1 : JsMap.get instanceId (instances w1) = Some (markAttempt inst)).
  { rewrite Hw1. simpl. rewrite get_adjust_same, Hreg. reflexivity. }
  destruct (reinitializeInstance_spec _ _ _ Hreg1)
    as (outcome & w2 & -> & Hout & Hi & Hs & Ht & He & Hn & Hc & Hd & Hb).
  rewrite (replyAt_script 1 w w1) in Hout, Hi by (rewrite Hw1; reflexivity).
  assert (nextClient w1 = nextClient w) as Hn1 by (rewrite Hw1; reflexivity).
  rewrite Hn1 in Hi, Hn.
  assert (Hrest : script w1 = script w /\ sameSurroundings w w1).
  { rewrite Hw1. unfold sameSurroundings. simpl. auto. }
  destruct Hrest as (Hs1 & Hc1 & Hd1 & Hb1).
  destruct (comesUp (replyAt 1 w)) eqn:Hup.
  - subst outcome. world_simpl. unfold sameSurroundings. simpl.
    rewrite Hs, Hn, Hc, Hd, Hb, Hs1, Hc1, Hd1, Hb1.
    split; [|auto 10].
    rewrite Hi, Hw1. simpl. rewrite !adjust_adjust.
    apply adjust_ext. intros v Hv. assert (v = inst) as -> by congruence.
    unfold attemptEffect. rewrite Hbusy, Hmax, Hup. reflexivity.
  - destruct Hout as [error ->]. unfold setTimeout. world_simpl.
    unfold sameSurroundings. simpl.
    rewrite Hs, Hn, Hc, Hd, Hb, Hs1, Hc1, Hd1, Hb1.
    split; [|auto 10].
    rewrite Hi, Hw1. simpl. rewrite !adjust_adjust.
    apply adjust_ext. intros v Hv. assert (v = inst) as -> by congruence.
    unfold attemptEffect. rewrite Hbusy, Hmax, Hup. reflexivity.
Qed.

Lemma attempt_gives_up (instanceId : string) (w : World) (inst : Instance) :
  JsMap.get instanceId (instances w) = Some inst ->
  reconnecting inst = false ->
  attemptsOrZero inst + 1 > maxReconnectAttempts ->
  attemptAutoReconnection instanceId w =
  emit (mkNotification None "instance_status_changed" instanceId (Some failed))
    (set_instances
       (JsMap.set instanceId
          (set_reconnecting false (set_status failed (markAttempt inst)))
          (instances w)) w).
Proof.
  intros Hreg Hbusy Hmax. unfold attemptAutoReconnection.
  rewrite Hreg, Hbusy. apply Z.gtb_gt in Hmax. rewrite Hmax.
  world_simpl. rewrite adjust_adjust. unfold JsMap.adjust. rewrite Hreg.
  reflexivity.
Qed.

Lemma neverComesUp_replyAt (w : World) (n : nat) :
  Forall neverComesUp (script w) -> comesUp (replyAt n w) = false.
Proof.
  intros Hall. unfold replyAt.
  assert (Hr : neverComesUp (nth n (script w) (mkReply 0 (Rejects "Session closed")))).
  { destruct (nth_in_or_default n (script w) (mkReply 0 (Rejects "Session closed")))
      as [Hin | ->]; [|exact I].
    rewrite Forall_forall in Hall. apply Hall. now apply list_elem_of_In. }
  revert Hr. unfold neverComesUp, comesUp.
  destruct (answer _); [|now rewrite andb_false_r].
  intros Hr. rewrite andb_true_r. apply Z.ltb_ge. exact Hr.
Qed.

(** One more failed attempt, as long as fewer than eight were made. *)
Lemma attempt_fails_once (instanceId : string) (w : World) (inst : Instance) :
  JsMap.get instanceId (instances w) = Some inst ->
  reconnecting inst = false ->
  attemptsOrZero inst + 1 <= maxReconnectAttempts ->
  Forall neverComesUp (script w) ->
  exists inst',
    JsMap.get instanceId (instances (attemptAutoReconnection instanceId w)) = Some inst'
    /\ reconnecting inst' = false
    /\ status inst' = disconnected
    /\ attemptsOrZero inst' = attemptsOrZero inst + 1
    /\ Forall neverComesUp (script (attemptAutoReconnection instanceId w)).
Proof.
  intros Hreg Hbusy Hmax Hall.
  destruct (attemptAutoReconnection_spec instanceId w) as (Hi & Hs & _).
  rewrite Hi, get_adjust_same, Hreg. simpl. eexists. split; [reflexivity|].
  unfold attemptEffect. rewrite Hbusy, (neverComesUp_replyAt w 1 Hall).
  assert ((attemptsOrZero inst + 1 >? maxReconnectAttempts) = false) as ->
    by (rewrite Z.gtb_ltb; apply Z.ltb_ge; lia).
  repeat split.
  rewrite Hs. destruct (rebuilds w instanceId); [|exact Hall].
  destruct (script w) as [|r1 [|r2 rest]]; simpl; try constructor.
  inversion Hall as [|? ? _ Hall']. now inversion Hall'.
Qed.

Lemma attempts_fail_repeatedly (instanceId : string) (w : World) (inst : Instance)
    (n : nat) :
  JsMap.get instanceId (instances w) = Some inst ->
  reconnecting inst = false ->
  attemptsOrZero inst = 0 ->
  Forall neverComesUp (script w) ->
  (Z.of_nat n <= maxReconnectAttempts) ->
  exists inst',
    JsMap.get instanceId
      (instances (Nat.iter n (attemptAutoReconnection instanceId) w)) = Some inst'
    /\ reconnecting inst' = false
    /\ attemptsOrZero inst' = Z.of_nat n
    /\ Forall neverComesUp (script (Nat.iter n (attemptAutoReconnection instanceId) w)).
Proof.
  intros Hreg Hbusy Hzero Hall. induction n as [|n IH]; intros Hn.
  - exists inst. simpl. auto.
  - destruct IH as (inst1 & Hreg1 & Hbusy1 & Hcount1 & Hall1); [lia|].
    simpl Nat.iter.
    destruct (attempt_fails_once _ _ _ Hreg1 Hbusy1) as (inst2 & ? & ? & ? & ? & ?);
      [lia | exact Hall1 |].
    exists inst2. repeat split; auto. lia.
Qed.


(** ** Auto-reconnector *)

(** C2.  An attempt on a registered instance that is not already
    reconnecting first raises [reconnectAttempts] by one ([undefined]
    counting as 0).  If the new value exceeds [maxReconnectAttempts], which
    is 8, the record gets [status = failed] and [reconnecting = false], one
    [instance_status_changed] notification is emitted, and nothing else
    happens: no client call, no new client, no timer.  Otherwise the counter
    ends at the raised value (the rebuild failed) or at 0 with status
    [initializing] (it succeeded).  Hence, from a counter of 0 and with a
    client that never comes up, nine attempts in a row end in [failed]. *)
Theorem attemptAutoReconnection_bounded (instanceId : string) (w : World)
    (inst : Instance) :
  JsMap.get instanceId (instances w) = Some inst ->
  reconnecting inst = false ->
  let attempts := attemptsOrZero inst + 1 in
  let w' := attemptAutoReconnection instanceId w in
  maxReconnectAttempts = 8
  /\ (exists inst',
        JsMap.get instanceId (instances w') = Some inst'
        /\ (reconnectAttempts inst' = Some attempts
            \/ reconnectAttempts inst' = Some 0 /\ status inst' = initializing)
        /\ (attempts > maxReconnectAttempts ->
            inst' = set_reconnecting false (set_status failed (markAttempt inst))
            /\ status inst' = failed
            /\ reconnecting inst' = false
            /\ reconnectAttempts inst' = Some attempts
            /\ client inst' = client inst))
  /\ (attempts > maxReconnectAttempts ->
      emitted w' =
        (emitted w ++
         [mkNotification None "instance_status_changed" instanceId (Some failed)])%list
      /\ script w' = script w
      /\ nextClient w' = nextClient w
      /\ timers w' = timers w)
  /\ (attemptsOrZero inst = 0 ->
      Forall neverComesUp (script w) ->
      status <$> JsMap.get instanceId
                   (instances (Nat.iter 9 (attemptAutoReconnection instanceId) w))
      = Some failed).
Proof.
  intros Hreg Hbusy attempts w'. split; [reflexivity|].
  destruct (attemptAutoReconnection_spec instanceId w) as (Hi & _).
  fold w' in Hi. split; [|split].
  - exists (attemptEffect w inst). rewrite Hi, get_adjust_same, Hreg.
    split; [reflexivity|]. unfold attemptEffect. rewrite Hbusy.
    destruct (attemptsOrZero inst + 1 >? maxReconnectAttempts) eqn:Hmax.
    + split; [now left|]. intros _. repeat split.
    + split.
      * destruct (comesUp (replyAt 1 w)); [right | left]; repeat split.
      * intros Habs. apply Z.gtb_gt in Habs. subst attempts. congruence.
  - intros Hmax. subst w'. rewrite (attempt_gives_up _ _ _ Hreg Hbusy Hmax).
    repeat split.
  - intros Hzero Hall.
    destruct (attempts_fail_repeatedly instanceId w inst 8 Hreg Hbusy Hzero Hall)
      as (inst8 & Hreg8 & Hbusy8 & Hcount8 & _); [reflexivity|].
    change (Nat.iter 9 (attemptAutoReconnection instanceId) w)
      with (attemptAutoReconnection instanceId
              (Nat.iter 8 (attemptAutoReconnection instanceId) w)).
    rewrite (attempt_gives_up _ _ _ Hreg8 Hbusy8).
    + simpl. rewrite get_set_same. reflexivity.
    + rewrite Hcount8. reflexivity.
Qed.

Lemma attemptAutoReconnection_bounded_witness :
  status <$> JsMap.get "a"
               (instances (Nat.iter 9 (attemptAutoReconnection "a") strandedWorld))
  = Some failed.
Proof.
  refine (proj2 (proj2 (proj2
    (attemptAutoReconnection_bounded "a" strandedWorld
       (sampleInstance "a" disconnected true None) _ _))) _ _).
  - reflexivity.
  - reflexivity.
  - reflexivity.
  - constructor.
Defined.

Lemma attemptAutoReconnection_frame (instanceId other : string) (w : World) :
  instanceId <> other ->
  JsMap.get other (instances (attemptAutoReconnection instanceId w)) =
  JsMap.get other (instances w).
Proof.
  intros Hne. destruct (attemptAutoReconnection_spec instanceId w) as (-> & _).
  now apply get_adjust_other.
Qed.

Lemma attemptAll_frame (ids : list string) (other : string) (w : World) :
  other ∉ ids ->
  JsMap.get other (instances (attemptAll ids w)) = JsMap.get other (instances w).
Proof.
  unfold attemptAll. revert w. induction ids as [|k ids IH]; intros w Hout; simpl.
  - reflexivity.
  - apply not_elem_of_cons in Hout as [Hne Hout].
    rewrite IH by exact Hout. apply attemptAutoReconnection_frame. congruence.
Qed.

Lemma attemptAutoReconnection_busy (instanceId : string) (w : World)
    (inst : Instance) :
  JsMap.get instanceId (instances w) = Some inst ->
  reconnecting inst = true ->
  attemptAutoReconnection instanceId w = w.
Proof.
  intros Hreg Hbusy. unfold attemptAutoReconnection. now rewrite Hreg, Hbusy.
Qed.

(** The sweep reads each entry when its turn comes; as an attempt only
    writes to its own entry, it finds what was there when the sweep began. *)
Lemma sweep_from (w0 : World) (ids : list string) (w : World) :
  NoDup ids ->
  (forall k, k ∈ ids -> JsMap.get k (instances w) = JsMap.get k (instances w0)) ->
  fold_left sweepVisit ids w =
  attemptAll (filter (fun k => eligibleIn w0 k = true) ids) w.
Proof.
  unfold attemptAll. revert w. induction ids as [|k ids IH]; intros w Hnd Hsame.
  - reflexivity.
  - apply NoDup_cons in Hnd as [Hfresh Hnd]. simpl fold_left.
    assert (Hk : JsMap.get k (instances w) = JsMap.get k (instances w0))
      by (apply Hsame; left).
    assert (Hvisit : sweepVisit w k =
                     if eligibleIn w0 k then attemptAutoReconnection k w else w).
    { unfold sweepVisit, eligibleIn. rewrite Hk.
      destruct (JsMap.get k (instances w0)); reflexivity. }
    rewrite Hvisit. destruct (eligibleIn w0 k) eqn:Hel.
    + rewrite filter_cons_True by exact Hel. simpl. apply IH; [exact Hnd|].
      intros k' Hk'. rewrite attemptAutoReconnection_frame.
      * apply Hsame. now right.
      * intros ->. contradiction.
    + rewrite filter_cons_False by congruence. apply IH; [exact Hnd|].
      intros k' Hk'. apply Hsame. now right.
Qed.

Lemma reconnectionSweep_attempts (w : World) :
  NoDup (JsMap.keys (instances w)) ->
  reconnectionSweep w =
    attemptAll (filter (fun k => eligibleIn w k = true) (JsMap.keys (instances w))) w.
Proof. intros Hnd. apply sweep_from; auto. Qed.

(** C3.  One sweep is the same as one [attemptAutoReconnection] for each
    registered id whose record, when the sweep begins, has
    [status = disconnected], [hasValidAuth = true] and
    [reconnecting = false], in registry order, and for no other id.  The
    record of an instance with [hasValidAuth = false] is the same after the
    sweep.  An attempt on an instance whose [reconnecting] flag is set
    returns at once and changes nothing. *)
Theorem reconnectionSweep_selects (w : World) :
  NoDup (JsMap.keys (instances w)) ->
  reconnectionSweep w =
    attemptAll (filter (fun k => eligibleIn w k = true) (JsMap.keys (instances w))) w
  /\ (forall instanceId inst,
        JsMap.get instanceId (instances w) = Some inst ->
        sweepEligible inst =
          status_eqb (status inst) disconnected && hasValidAuth inst
          && negb (reconnecting inst))
  /\ (forall instanceId inst,
        JsMap.get instanceId (instances w) = Some inst ->
        hasValidAuth inst = false ->
        JsMap.get instanceId (instances (reconnectionSweep w)) = Some inst)
  /\ (forall instanceId inst,
        JsMap.get instanceId (instances w) = Some inst ->
        reconnecting inst = true ->
        attemptAutoReconnection instanceId w = w).
Proof.
  intros Hnd.
  pose proof (reconnectionSweep_attempts w Hnd) as Hsweep.
  split; [exact Hsweep|]. split; [reflexivity|]. split.
  - intros instanceId inst Hreg Hauth. rewrite Hsweep, attemptAll_frame; [exact Hreg|].
    rewrite list_elem_of_filter. intros [Hel _]. unfold eligibleIn in Hel.
    rewrite Hreg in Hel. unfold sweepEligible in Hel.
    rewrite Hauth, andb_false_r in Hel. discriminate.
  - intros instanceId inst. apply attemptAutoReconnection_busy.
Qed.

Lemma reconnectionSweep_selects_witness :
  reconnectionSweep mixedWorld = attemptAutoReconnection "a" mixedWorld
  /\ JsMap.get "b" (instances (reconnectionSweep mixedWorld))
     = Some (sampleInstance "b" disconnected false None).
Proof.
  assert (Hnd : NoDup (JsMap.keys (instances mixedWorld))).
  { apply NoDup_cons. split; [|apply NoDup_singleton].
    intros H. apply list_elem_of_singleton in H. discriminate. }
  destruct (reconnectionSweep_selects mixedWorld Hnd) as (Hsweep & _ & Hauth & _).
  split.
  - exact Hsweep.
  - apply Hauth; reflexivity.
Defined.


(** ** Profile picture cache *)

Lemma stale_not_valid (w : World) (key : string) :
  stale w key ->
  match profilePicCache w !! key with
  | Some cached => cacheValid w cached = false
  | None => True
  end.
Proof.
  unfold stale, cacheValid. destruct (profilePicCache w !! key); [|auto].
  intros H. now apply Z.ltb_ge.
Qed.

Lemma beginLookup_hit (instanceId contactId : string) (w : World)
    (cached : CacheEntry) :
  profilePicCache w !! cacheKey instanceId contactId = Some cached ->
  now w - timestamp cached < cacheExpiry ->
  beginLookup instanceId contactId w = (FromCache (url cached), w).
Proof.
  intros Hhit Hyoung. unfold beginLookup. rewrite Hhit.
  unfold cacheValid. apply Z.ltb_lt in Hyoung. now rewrite Hyoung.
Qed.

Lemma beginLookup_miss (instanceId contactId : string) (w : World) :
  stale w (cacheKey instanceId contactId) ->
  beginLookup instanceId contactId w =
  if readyIn w instanceId
  then (Asked (replyAt 0 w), set_script (tail (script w)) w)
  else (Unavailable, w).
Proof.
  intros Hstale. apply stale_not_valid in Hstale.
  unfold beginLookup, readyIn. rewrite nextReply_eq.
  destruct (profilePicCache w !! cacheKey instanceId contactId);
    [rewrite Hstale|];
    (destruct (JsMap.get instanceId (instances w)) as [inst|]; [|reflexivity]);
    now destruct (status_eqb (status inst) ready).
Qed.

(** C5, amended.  The cache expires after 30 minutes.  A lookup that finds
    an entry younger than that under the key of the pair returns the cached
    value, [null] included, and leaves the world as it is: the client is
    not asked.  A lookup that finds no such entry and whose instance is
    registered and [ready] uses up one answer of the client, returns the
    picture or [null], and stores what it returns with the time of the
    write; a rejection and a lost race give [null].  A lookup that finds no
    such entry and whose instance is missing or not [ready] returns [null]
    and leaves the world, cache included, as it is. *)
Theorem getProfilePicWithCache_cache (instanceId contactId : string)
    (timeout : Z) (w : World) :
  let key := cacheKey instanceId contactId in
  let result := getProfilePicWithCache instanceId contactId timeout w in
  cacheExpiry = 30 * 60 * 1000
  /\ (forall cached,
        profilePicCache w !! key = Some cached ->
        now w - timestamp cached < cacheExpiry ->
        result = (url cached, w))
  /\ (stale w key -> readyIn w instanceId = true ->
      let r := replyAt 0 w in
      fst result = raceResult timeout r
      /\ profilePicCache (snd result) =
         <[key := mkCacheEntry (raceResult timeout r)
                    (now w + raceDuration timeout r)]> (profilePicCache w)
      /\ script (snd result) = tail (script w)
      /\ (forall message, answer r = Rejects message -> raceResult timeout r = None)
      /\ (timeout <= took r -> raceResult timeout r = None))
  /\ (stale w key -> readyIn w instanceId = false -> result = (None, w)).
Proof.
  intros key result. split; [reflexivity|]. split; [|split].
  - intros cached Hhit Hyoung. subst result key.
    unfold getProfilePicWithCache. now rewrite (beginLookup_hit _ _ _ _ Hhit Hyoung).
  - intros Hstale Hready r. subst result key.
    unfold getProfilePicWithCache. rewrite (beginLookup_miss _ _ _ Hstale), Hready.
    simpl. repeat split.
    + intros message Hrej. unfold raceResult. subst r. rewrite Hrej.
      now destruct (_ <? _).
    + intros Hslow. unfold raceResult. apply Z.ltb_ge in Hslow. subst r.
      now rewrite Hslow.
  - intros Hstale Hready. subst result key.
    unfold getProfilePicWithCache. now rewrite (beginLookup_miss _ _ _ Hstale), Hready.
Qed.

Lemma getProfilePicWithCache_cache_witness :
  getProfilePicWithCache "a" "c" 3000 readyWorld
  = (Some "https://pps.example/c.jpg",
     set_profilePicCache
       {[ "a:c" := mkCacheEntry (Some "https://pps.example/c.jpg") 5010 ]}
       (set_now 5010 (set_script [] readyWorld)))
  /\ fst (getProfilePicWithCache "a" "c" 3000
            (snd (getProfilePicWithCache "a" "c" 3000 readyWorld)))
     = Some "https://pps.example/c.jpg".
Proof.
  pose proof (getProfilePicWithCache_cache "a" "c" 3000 readyWorld)
    as (_ & _ & Hmiss & _).
  specialize (Hmiss I eq_refl). destruct Hmiss as (Hres & _).
  split.
  - reflexivity.
  - pose proof (getProfilePicWithCache_cache "a" "c" 3000
                  (snd (getProfilePicWithCache "a" "c" 3000 readyWorld)))
      as (_ & Hhit & _).
    rewrite (Hhit (mkCacheEntry (Some "https://pps.example/c.jpg") 5010));
      [reflexivity | reflexivity | reflexivity].
Defined.

(** C5 as stated fails: no entry under the key, and yet neither a call to
    the client nor a cache write, because the instance is not ready. *)
Lemma getProfilePicWithCache_unready_skips :
  stale unreadyWorld (cacheKey "a" "c")
  /\ getProfilePicWithCache "a" "c" 3000 unreadyWorld = (None, unreadyWorld)
  /\ script unreadyWorld <> []
  /\ profilePicCache (snd (getProfilePicWithCache "a" "c" 3000 unreadyWorld))
       !! cacheKey "a" "c" = None.
Proof.
  split; [exact I|]. split; [reflexivity|]. split; [discriminate|]. reflexivity.
Qed.


(** ** Profile enrichment pipeline *)

(** With indices that are not negative, [slice] is [take] after [drop]. *)
Lemma slice_take_drop {A} (i k : Z) (l : list A) :
  0 <= i -> 0 <= k ->
  slice i (i + k) l = take (Z.to_nat k) (drop (Z.to_nat i) l).
Proof.
  intros Hi Hk. unfold slice, relIndex.
  assert ((i <? 0) = false) as -> by (apply Z.ltb_ge; lia).
  assert ((i + k <? 0) = false) as -> by (apply Z.ltb_ge; lia).
  destruct (Z_le_gt_dec i (Z.of_nat (length l))) as [Hin | Hout].
  - rewrite (Z.min_l i) by lia.
    destruct (Z_le_gt_dec (i + k) (Z.of_nat (length l))) as [Hin' | Hout'].
    + rewrite Z.min_l by lia. f_equal. lia.
    + rewrite Z.min_r by lia.
      rewrite !take_ge; [reflexivity | |]; rewrite length_drop; lia.
  - rewrite !Z.min_r by lia. rewrite !drop_ge by lia. now rewrite !take_nil.
Qed.

Section KeyLists.
Implicit Types (ks ids : list string) (k : string).

Lemma elem_of_addKey ks k x : x ∈ addKey ks k <-> x ∈ ks \/ x = k.
Proof.
    unfold addKey. case_bool_decide as Hin.
    - split; [now left | intros [H | ->]; assumption].
    - rewrite elem_of_app, list_elem_of_singleton. reflexivity.
Qed.

Lemma NoDup_addKey ks k : NoDup ks -> NoDup (addKey ks k).
Proof.
    unfold addKey. intros H. case_bool_decide as Hin; [exact H|].
    apply NoDup_app. split; [exact H|]. split; [|apply NoDup_singleton].
    intros x Hx Hk. apply list_elem_of_singleton in Hk as ->. contradiction.
Qed.

Lemma elem_of_addKeys ks ids x : x ∈ addKeys ks ids <-> x ∈ ks \/ x ∈ ids.
Proof.
    unfold addKeys. revert ks. induction ids as [|k ids IH]; intros ks; simpl.
    - rewrite elem_of_nil. tauto.
    - rewrite IH, elem_of_addKey, elem_of_cons. tauto.
Qed.

Lemma NoDup_addKeys ks ids : NoDup ks -> NoDup (addKeys ks ids).
Proof.
    unfold addKeys. revert ks. induction ids as [|k ids IH]; intros ks H; simpl.
    - exact H.
    - apply IH, NoDup_addKey, H.
Qed.

Lemma addKeys_app ks ids ids' :
    addKeys (addKeys ks ids) ids' = addKeys ks (ids ++ ids').
Proof. unfold addKeys. now rewrite fold_left_app. Qed.

  (** Ids that are new and pairwise distinct are appended in order. *)
Lemma addKeys_fresh ks ids :
    NoDup ids -> (forall x, x ∈ ids -> x ∉ ks) -> addKeys ks ids = (ks ++ ids)%list.
Proof.
    unfold addKeys. revert ks. induction ids as [|k ids IH]; intros ks Hnd Hfresh; simpl.
    - now rewrite app_nil_r.
    - apply NoDup_cons in Hnd as [Hk Hnd].
      unfold addKey at 2. rewrite bool_decide_eq_false_2 by (apply Hfresh; left).
      rewrite IH; [now rewrite <- app_assoc | exact Hnd |].
      intros x Hx. rewrite elem_of_app, list_elem_of_singleton.
      intros [Hin | ->]; [|contradiction].
      apply (Hfresh x); [now right | exact Hin].
Qed.
End KeyLists.

Lemma keys_set_addKey {V} (k : string) (v : V) (m : JsMap.t V) :
  JsMap.keys (JsMap.set k v m) = addKey (JsMap.keys m) k.
Proof.
  rewrite keys_set. unfold addKey. destruct (JsMap.has k m) eqn:E.
  - rewrite bool_decide_eq_true_2; [reflexivity | now apply has_key].
  - rewrite bool_decide_eq_false_2; [reflexivity|].
    intros H. apply has_key in H. congruence.
Qed.

Lemma keys_recordNulls (batch : list string) (m : JsMap.t (option string)) :
  JsMap.keys (recordNulls batch m) = addKeys (JsMap.keys m) batch.
Proof.
  unfold recordNulls, addKeys. revert m.
  induction batch as [|k batch IH]; intros m; simpl; [reflexivity|].
  now rewrite IH, keys_set_addKey.
Qed.

Lemma keys_recordResults (results : list (string * option string))
    (m : JsMap.t (option string)) :
  JsMap.keys (recordResults results m) = addKeys (JsMap.keys m) (map fst results).
Proof.
  unfold recordResults, addKeys. revert m.
  induction results as [|r results IH]; intros m; simpl; [reflexivity|].
  now rewrite IH, keys_set_addKey.
Qed.

Lemma get_recordNulls_other (batch : list string) (m : JsMap.t (option string))
    (k : string) :
  k ∉ batch -> JsMap.get k (recordNulls batch m) = JsMap.get k m.
Proof.
  unfold recordNulls. revert m.
  induction batch as [|b batch IH]; intros m Hout; simpl; [reflexivity|].
  apply not_elem_of_cons in Hout as [Hne Hout].
  rewrite IH by exact Hout. apply get_set_other. congruence.
Qed.

Lemma get_recordNulls (batch : list string) (m : JsMap.t (option string))
    (k : string) :
  k ∈ batch -> JsMap.get k (recordNulls batch m) = Some None.
Proof.
  revert m. induction batch as [|b batch IH]; intros m Hin.
  - now apply elem_of_nil in Hin.
  - destruct (decide (k ∈ batch)) as [Hlater | Hlast].
    + apply (IH (JsMap.set b None m) Hlater).
    + apply elem_of_cons in Hin as [-> | Hin]; [|contradiction].
      change (recordNulls (b :: batch) m)
        with (recordNulls batch (JsMap.set b None m)).
      rewrite get_recordNulls_other by exact Hlast. apply get_set_same.
Qed.

Lemma get_recordResults_other (results : list (string * option string))
    (m : JsMap.t (option string)) (k : string) :
  k ∉ map fst results -> JsMap.get k (recordResults results m) = JsMap.get k m.
Proof.
  unfold recordResults. revert m.
  induction results as [|r results IH]; intros m Hout; simpl; [reflexivity|].
  simpl in Hout. apply not_elem_of_cons in Hout as [Hne Hout].
  rewrite IH by exact Hout. apply get_set_other. congruence.
Qed.

(** A batch of lookups answers for exactly the ids it was given, in order,
    and leaves the registry and the scheduler alone. *)
Lemma beginLookup_keeps (instanceId contactId : string) (w : World) :
  instances (snd (beginLookup instanceId contactId w)) = instances w
  /\ batchTimerFirst (snd (beginLookup instanceId contactId w)) = batchTimerFirst w.
Proof.
  unfold beginLookup. rewrite nextReply_eq.
  destruct (profilePicCache w !! cacheKey instanceId contactId) as [cached|];
    [destruct (cacheValid w cached); [now split|]|];
    (destruct (JsMap.get instanceId (instances w)) as [inst|]; [|now split]);
    destruct (status_eqb (status inst) ready); now split.
Qed.

Lemma finishLookup_keeps (instanceId contactId : string) (timeout started : Z)
    (l : Lookup) (w : World) :
  instances (snd (finishLookup instanceId contactId timeout started l w)) = instances w
  /\ batchTimerFirst (snd (finishLookup instanceId contactId timeout started l w))
     = batchTimerFirst w.
Proof. destruct l; now split. Qed.

Lemma beginBatch_keeps (instanceId : string) (batch : list string) (w : World) :
  map fst (fst (beginBatch instanceId batch w)) = batch
  /\ instances (snd (beginBatch instanceId batch w)) = instances w
  /\ batchTimerFirst (snd (beginBatch instanceId batch w)) = batchTimerFirst w.
Proof.
  revert w. induction batch as [|contactId batch IH]; intros w; simpl; [auto|].
  destruct (beginLookup_keeps instanceId contactId w) as (Hi & Hb).
  destruct (beginLookup instanceId contactId w) as [l w1]. simpl in Hi, Hb.
  destruct (IH w1) as (Hids & Hi' & Hb').
  destruct (beginBatch instanceId batch w1) as [ls w2]. simpl in *.
  rewrite Hids. split; [reflexivity|]. split; congruence.
Qed.

Lemma finishBatch_keeps (instanceId : string) (timeout started : Z)
    (pending : list (string * Lookup)) (w : World) :
  map fst (fst (finishBatch instanceId timeout started pending w)) = map fst pending
  /\ instances (snd (finishBatch instanceId timeout started pending w)) = instances w
  /\ batchTimerFirst (snd (finishBatch instanceId timeout started pending w))
     = batchTimerFirst w.
Proof.
  revert w. induction pending as [|[contactId l] pending IH]; intros w; simpl; [auto|].
  destruct (finishLookup_keeps instanceId contactId timeout started l w) as (Hi & Hb).
  destruct (finishLookup instanceId contactId timeout started l w) as [u w1].
  simpl in Hi, Hb.
  destruct (IH w1) as (Hids & Hi' & Hb').
  destruct (finishBatch instanceId timeout started pending w1) as [us w2]. simpl in *.
  rewrite Hids. split; [reflexivity|]. split; congruence.
Qed.

Lemma nextBatchRace_eq (w : World) :
  nextBatchRace w =
  (nth 0 (batchTimerFirst w) false, set_batchTimerFirst (tail (batchTimerFirst w)) w).
Proof. destruct w as [? ? ? ? ? ? ? [|b rest] ?]; reflexivity. Qed.


Lemma nth_tail {A} (j : nat) (l : list A) (d : A) :
  nth j (tail l) d = nth (S j) l d.
Proof. destruct l; [now destruct j | reflexivity]. Qed.

Section Loop.
Variables (instanceId : string) (contactIds : list string).
Variables (batchSize timeout : Z).
Hypothesis batchSize_positive : 1 <= batchSize.

  (** The loop from index [i] on: it ends, it adds the ids from [i] on to
      the keys, it leaves the other entries alone, and an id whose last
      occurrence lies in a batch that lost against the batch timer maps to
      [null]. *)
Lemma profilePicLoop_spec (fuel : nat) :
    forall (i : Z) (m : JsMap.t (option string)) (w : World),
      0 <= i ->
      (length contactIds - Z.to_nat i <= fuel)%nat ->
      exists m' w',
        profilePicLoop fuel instanceId contactIds batchSize timeout i m w
          = Some (m', w')
        /\ JsMap.keys m' = addKeys (JsMap.keys m) (drop (Z.to_nat i) contactIds)
        /\ (forall k, k ∉ drop (Z.to_nat i) contactIds ->
                      JsMap.get k m' = JsMap.get k m)
        /\ (forall (j : nat) k,
              nth j (batchTimerFirst w) false = true ->
              k ∈ take (Z.to_nat batchSize)
                    (drop (Z.to_nat i + j * Z.to_nat batchSize) contactIds) ->
              k ∉ drop (Z.to_nat i + (j + 1) * Z.to_nat batchSize) contactIds ->
              JsMap.get k m' = Some None)
        /\ instances w' = instances w.
Proof.
    set (b := Z.to_nat batchSize).
    induction fuel as [|fuel IH]; intros i m w Hi Hfuel.
    - assert (Hdone : (i <? Z.of_nat (length contactIds)) = false)
        by (apply Z.ltb_ge; lia).
      simpl. rewrite Hdone. exists m, w. split; [reflexivity|].
      rewrite drop_ge by lia. repeat split; auto.
      intros j k _ Hin. rewrite drop_ge, take_nil in Hin by lia.
      now apply elem_of_nil in Hin.
    - simpl. destruct (i <? Z.of_nat (length contactIds)) eqn:Hmore.
      2: { apply Z.ltb_ge in Hmore. exists m, w. split; [reflexivity|].
           rewrite drop_ge by lia. repeat split; auto.
           intros j k _ Hin. rewrite drop_ge, take_nil in Hin by lia.
           now apply elem_of_nil in Hin. }
      apply Z.ltb_lt in Hmore.
      rewrite slice_take_drop by lia. fold b.
      set (p := Z.to_nat i). set (batch := take b (drop p contactIds)).
      assert (Hnext : Z.to_nat (i + batchSize) = (p + b)%nat)
        by (subst p b; lia).
      assert (Hsplit : (batch ++ drop (p + b) contactIds)%list = drop p contactIds).
      { subst batch. rewrite <- drop_drop. apply take_drop. }
      destruct (beginBatch_keeps instanceId batch w) as (Hids1 & Hi1 & Hb1).
      destruct (beginBatch instanceId batch w) as [pending w1]. simpl in Hids1, Hi1, Hb1.
      destruct (finishBatch_keeps instanceId timeout (now w) pending w1)
        as (Hids2 & Hi2 & Hb2).
      destruct (finishBatch instanceId timeout (now w) pending w1) as [results w2].
      simpl in Hids2, Hi2, Hb2.
      rewrite nextBatchRace_eq.
      destruct (nth 0 (batchTimerFirst w2) false) eqn:Hrace.
      + edestruct (IH (i + batchSize) (recordNulls batch m)) as
          (m' & w' & -> & Hkeys & Hframe & Hnull & Hinst); [lia | lia |].
        exists m', w'. split; [reflexivity|].
        rewrite Hnext in Hkeys, Hframe, Hnull. simpl in Hnull, Hinst.
        split; [|split; [|split]].
        * rewrite Hkeys, keys_recordNulls, addKeys_app, Hsplit. reflexivity.
        * intros k Hout. rewrite <- Hsplit in Hout.
          apply not_elem_of_app in Hout as [Hout1 Hout2].
          rewrite Hframe by exact Hout2. now apply get_recordNulls_other.
        * intros [|j] k Hj Hin Hlast.
          -- rewrite Nat.add_0_r in Hin. replace (p + (0 + 1) * b)%nat with (p + b)%nat
               in Hlast by lia.
             rewrite Hframe by exact Hlast. now apply get_recordNulls.
          -- apply (Hnull j k).
             ++ rewrite nth_tail, Hb2, Hb1. exact Hj.
             ++ replace (p + b + j * b)%nat with (p + S j * b)%nat by lia. exact Hin.
             ++ replace (p + b + (j + 1) * b)%nat with (p + (S j + 1) * b)%nat by lia.
                exact Hlast.
        * rewrite Hinst. congruence.
      + match goal with
        | |- context [profilePicLoop fuel _ _ _ _ _ _ ?wnext] =>
            edestruct (IH (i + batchSize) (recordResults results m) wnext) as
              (m' & w' & -> & Hkeys & Hframe & Hnull & Hinst); [lia | lia |];
            assert (Hbn : batchTimerFirst wnext = tail (batchTimerFirst w2))
              by (now destruct (_ <? _));
            assert (Hin : instances wnext = instances w2)
              by (now destruct (_ <? _))
        end.
        exists m', w'. split; [reflexivity|].
        rewrite Hnext in Hkeys, Hframe, Hnull.
        assert (Hids : map fst results = batch) by congruence.
        split; [|split; [|split]].
        * rewrite Hkeys, keys_recordResults, Hids, addKeys_app, Hsplit. reflexivity.
        * intros k Hout. rewrite <- Hsplit in Hout.
          apply not_elem_of_app in Hout as [Hout1 Hout2].
          rewrite Hframe by exact Hout2. apply get_recordResults_other.
          now rewrite Hids.
        * intros [|j] k Hj Hink Hlast.
          -- rewrite Hb1, Hb2 in *. congruence.
          -- apply (Hnull j k).
             ++ rewrite Hbn, nth_tail, Hb2, Hb1. exact Hj.
             ++ replace (p + b + j * b)%nat with (p + S j * b)%nat by lia. exact Hink.
             ++ replace (p + b + (j + 1) * b)%nat with (p + (S j + 1) * b)%nat by lia.
                exact Hlast.
        * rewrite Hinst, Hin. congruence.
Qed.
End Loop.


Lemma NoDup_drop_take_disjoint {A} (l : list A) (n b : nat) (x : A) :
  NoDup l -> x ∈ take b (drop n l) -> x ∉ drop (n + b) l.
Proof.
  intros Hnd Hin.
  rewrite <- (take_drop n l) in Hnd. apply NoDup_app in Hnd as (_ & _ & Hnd).
  rewrite <- (take_drop b (drop n l)) in Hnd.
  apply NoDup_app in Hnd as (_ & Hdis & _).
  rewrite <- drop_drop. now apply Hdis.
Qed.

Lemma getMultipleProfilePics_returns (instanceId : string)
    (contactIds : list string) (batchSize timeout : Z) (w : World) :
  1 <= batchSize ->
  exists profilePicMap w',
    getMultipleProfilePics instanceId contactIds batchSize timeout w
      = Some (profilePicMap, w').
Proof.
  intros Hsize. unfold getMultipleProfilePics.
  destruct (profilePicLoop_spec instanceId contactIds batchSize timeout Hsize
              (S (length contactIds)) 0 [] w) as (m & w' & Hrun & _);
    [lia | simpl; lia |].
  now exists m, w'.
Qed.

(** C4, amended.  Called with a batch size of at least 1,
    [getMultipleProfilePics] returns, and the keys of the map it returns are
    exactly the requested ids, each once, each mapped to a url or to [null].
    When the requested ids are pairwise distinct the keys are the input
    list, so there are as many entries as ids, and every id of a batch that
    lost against the batch timer maps to [null]. *)
Theorem getMultipleProfilePics_covers (instanceId : string)
    (contactIds : list string) (batchSize timeout : Z) (w : World) :
  1 <= batchSize ->
  exists profilePicMap w',
    getMultipleProfilePics instanceId contactIds batchSize timeout w
      = Some (profilePicMap, w')
    /\ NoDup (JsMap.keys profilePicMap)
    /\ (forall k, k ∈ JsMap.keys profilePicMap <-> k ∈ contactIds)
    /\ (forall k, k ∈ contactIds ->
          exists u : option string, JsMap.get k profilePicMap = Some u)
    /\ (NoDup contactIds ->
        JsMap.keys profilePicMap = contactIds
        /\ JsMap.size profilePicMap = length contactIds
        /\ (forall (j : nat) k,
              nth j (batchTimerFirst w) false = true ->
              k ∈ batchAt contactIds batchSize j ->
              JsMap.get k profilePicMap = Some None)).
Proof.
  intros Hsize. unfold getMultipleProfilePics.
  destruct (profilePicLoop_spec instanceId contactIds batchSize timeout Hsize
              (S (length contactIds)) 0 [] w) as (m & w' & Hrun & Hkeys & _ & Hnull & _);
    [lia | simpl; lia |].
  simpl in Hkeys, Hnull.
  assert (Hmem : forall k, k ∈ JsMap.keys m <-> k ∈ contactIds).
  { intros k. rewrite Hkeys, elem_of_addKeys, elem_of_nil. tauto. }
  exists m, w'. split; [exact Hrun|]. split; [|split; [exact Hmem|split]].
  - rewrite Hkeys. apply NoDup_addKeys, NoDup_nil_2.
  - intros k Hin. apply Hmem in Hin.
    destruct (JsMap.get k m) as [u|] eqn:E; [now exists u|].
    apply get_None_key in E. contradiction.
  - intros Hnd.
    assert (Hexact : JsMap.keys m = contactIds).
    { rewrite Hkeys. rewrite addKeys_fresh; [reflexivity | exact Hnd|].
      intros x _. apply not_elem_of_nil. }
    split; [exact Hexact|]. split.
    + unfold JsMap.size. rewrite <- Hexact. unfold JsMap.keys.
      now rewrite length_map.
    + intros j k Hrace Hin. unfold batchAt in Hin.
      rewrite slice_take_drop in Hin by lia.
      replace (Z.to_nat (Z.of_nat j * batchSize)) with (j * Z.to_nat batchSize)%nat
        in Hin by lia.
      apply (Hnull j k Hrace Hin).
      replace ((j + 1) * Z.to_nat batchSize)%nat
        with (j * Z.to_nat batchSize + Z.to_nat batchSize)%nat by lia.
      now apply NoDup_drop_take_disjoint.
Qed.

Lemma getMultipleProfilePics_covers_witness :
  exists profilePicMap w',
    getMultipleProfilePics "a" ["x"; "y"; "z"] 2 3000 enrichWorld
      = Some (profilePicMap, w')
    /\ JsMap.keys profilePicMap = ["x"; "y"; "z"]
    /\ JsMap.get "y" profilePicMap = Some None.
Proof.
  destruct (getMultipleProfilePics_covers "a" ["x"; "y"; "z"] 2 3000 enrichWorld)
    as (m & w' & Hrun & _ & _ & _ & Hdistinct); [lia|].
  destruct Hdistinct as (Hkeys & _ & Hnull).
  { apply (bool_decide_unpack (NoDup ["x"; "y"; "z"])). vm_compute. exact I. }
  exists m, w'. split; [exact Hrun|]. split; [exact Hkeys|].
  apply (Hnull 0%nat); [reflexivity|].
  unfold batchAt. simpl. right. left.
Defined.

(** C4 as stated fails: a list of two ids, a map with one entry. *)
Lemma getMultipleProfilePics_repeated_id :
  exists profilePicMap w',
    getMultipleProfilePics "a" ["x"; "x"] 5 3000 enrichWorld
      = Some (profilePicMap, w')
    /\ length ["x"; "x"] = 2%nat
    /\ JsMap.size profilePicMap = 1%nat.
Proof. eexists _, _. split; [reflexivity|]. split; reflexivity. Qed.

(** With a batch size below 1 the loop index never passes the first id. *)
Lemma profilePicLoop_stuck (instanceId : string) (contactIds : list string)
    (timeout : Z) (fuel : nat) (m : JsMap.t (option string)) (w : World) :
  contactIds <> [] ->
  profilePicLoop fuel instanceId contactIds 0 timeout 0 m w = None.
Proof.
  intros Hne. revert m w. induction fuel as [|fuel IH]; intros m w; simpl.
  - destruct contactIds; [contradiction | reflexivity].
  - destruct contactIds as [|c rest]; [contradiction|].
    change (0 <? Z.of_nat (length (c :: rest))) with true. cbv iota.
    destruct (beginBatch _ _ _) as [pending w1].
    destruct (finishBatch _ _ _ _ _) as [results w2].
    destruct (nextBatchRace w2) as [[|] w3]; apply IH.
Qed.


(** ** Chat listing *)

Lemma insertChat_perm (c : Chat) (l : list Chat) :
  Permutation (insertChat c l) (c :: l).
Proof.
  induction l as [|d l IH]; simpl; [reflexivity|].
  destruct (recency d <=? recency c); [reflexivity|].
  rewrite IH. apply perm_swap.
Qed.

Lemma sortChats_perm (l : list Chat) : Permutation (sortChats l) l.
Proof.
  induction l as [|c l IH]; simpl; [reflexivity|].
  now rewrite insertChat_perm, IH.
Qed.

Lemma insertChat_sorted (c : Chat) (l : list Chat) :
  StronglySorted newerFirst l -> StronglySorted newerFirst (insertChat c l).
Proof.
  induction l as [|d l IH]; intros Hs; simpl.
  - repeat constructor.
  - apply StronglySorted_inv in Hs as [Hs Hd].
    destruct (recency d <=? recency c) eqn:E.
    + apply Z.leb_le in E. constructor; [now constructor|].
      constructor; [exact E|].
      eapply Forall_impl; [exact Hd|]. unfold newerFirst. intros x Hx. lia.
    + apply Z.leb_gt in E. constructor; [now apply IH|].
      rewrite (insertChat_perm c l). constructor; [unfold newerFirst; lia | exact Hd].
Qed.

Lemma sortChats_sorted (l : list Chat) : StronglySorted newerFirst (sortChats l).
Proof.
  induction l as [|c l IH]; simpl; [constructor | now apply insertChat_sorted].
Qed.

(** Chats of equal recency keep the order the client listed them in. *)
Lemma insertChat_stable (t : Z) (c : Chat) (l : list Chat) :
  filter (fun x => recency x = t) (insertChat c l) =
  filter (fun x => recency x = t) (c :: l).
Proof.
  induction l as [|d l IH]; simpl; [reflexivity|].
  destruct (recency d <=? recency c) eqn:E; [reflexivity|].
  apply Z.leb_gt in E. rewrite (filter_cons _ d), IH, !filter_cons.
  destruct (decide (recency d = t)), (decide (recency c = t)); try reflexivity. lia.
Qed.

Lemma sortChats_stable (t : Z) (l : list Chat) :
  filter (fun x => recency x = t) (sortChats l) = filter (fun x => recency x = t) l.
Proof.
  induction l as [|c l IH]; simpl; [reflexivity|].
  rewrite insertChat_stable, !filter_cons, IH. reflexivity.
Qed.

Lemma paginate_page (limit offset : Z) (allChats : list Chat) :
  0 <= limit -> 0 <= offset ->
  paginate limit offset allChats =
  take (Z.to_nat limit) (drop (Z.to_nat offset) (sortChats allChats)).
Proof. intros. unfold paginate. now apply slice_take_drop. Qed.

Lemma ceilDiv_ceiling (total limit : Z) :
  1 <= limit ->
  exists pages,
    ceilDiv total limit = Num pages
    /\ (pages - 1) * limit < total <= pages * limit.
Proof.
  intros Hl. unfold ceilDiv.
  assert ((limit =? 0) = false) as -> by (apply Z.eqb_neq; lia).
  eexists. split; [reflexivity|].
  pose proof (Z.mul_div_le (- total) limit ltac:(lia)).
  pose proof (Z.mul_succ_div_gt (- total) limit ltac:(lia)).
  nia.
Qed.

Lemma chatBatchSize_positive (n : nat) : 1 <= chatBatchSize n.
Proof.
  unfold chatBatchSize. destruct (n <=? 10)%nat; [lia|].
  destruct (n <=? 20)%nat; lia.
Qed.

Lemma chatsLimit_clamped (limitQuery : option Z) :
  chatsLimit limitQuery <= 200
  /\ chatsLimit None = 50
  /\ chatsLimit (Some 0) = 50
  /\ (forall z, z <> 0 -> chatsLimit (Some z) = Z.min z 200).
Proof.
  unfold chatsLimit. split; [lia|]. split; [reflexivity|]. split; [reflexivity|].
  intros z Hz. simpl. apply Z.eqb_neq in Hz. now rewrite Hz.
Qed.

(** X1 ([getChats], route [/chats]).  The listing on the intended range of
    its parameters, a limit of at
    least 1 and an offset of at least 0: the chats are sorted by decreasing
    recency, the page is the chats ranked from [offset] up to
    [offset + limit], split into contacts and groups, and the pagination
    record carries [hasMore] and the ceiling of total over limit. *)
Lemma getChats_pagination (instanceId : string) (includeProfilePics : bool)
    (limit offset : Z) (w : World) (inst : Instance) (t : Z)
    (allChats : list Chat) (rest : list Reply) :
  JsMap.get instanceId (instances w) = Some inst ->
  status inst = ready ->
  script w = mkReply t (Resolves (VChats allChats)) :: rest ->
  1 <= limit ->
  0 <= offset ->
  let sorted := sortChats allChats in
  let page := take (Z.to_nat limit) (drop (Z.to_nat offset) sorted) in
  let total := Z.of_nat (length allChats) in
  Permutation sorted allChats
  /\ StronglySorted newerFirst sorted
  /\ (exists res w' profilePicMap,
        getChats instanceId includeProfilePics limit offset w = (Returned res, w')
        /\ contacts res =
           map (withPicture profilePicMap)
             (map chatData (filter (fun c => isGroup c = false) page))
        /\ groups res =
           map (withPicture profilePicMap)
             (map chatData (filter (fun c => isGroup c = true) page))
        /\ totalChats res = total
        /\ returnedCount (pagination res) = Z.of_nat (length page)
        /\ hasMore (pagination res) = bool_decide (offset + limit < total)
        /\ exists pages,
             totalPages (pagination res) = Num pages
             /\ (pages - 1) * limit < total <= pages * limit)
  /\ (forall limitQuery,
        chatsLimit limitQuery <= 200
        /\ chatsLimit None = 50
        /\ chatsLimit (Some 0) = 50
        /\ (forall z, z <> 0 -> chatsLimit (Some z) = Z.min z 200)).
Proof.
  intros Hreg Hready Hscript Hlimit Hoffset sorted page total.
  split; [apply sortChats_perm|]. split; [apply sortChats_sorted|].
  split; [|apply chatsLimit_clamped].
  destruct (ceilDiv_ceiling total limit Hlimit) as (pages & Hceil & Hpages).
  assert (Hmore : (offset + limit <? total) = bool_decide (offset + limit < total)).
  { case_bool_decide; [now apply Z.ltb_lt | now apply Z.ltb_ge; lia]. }
  unfold getChats, executeWithRecovery, tryCatch, getChatsOperation.
  rewrite Hreg, Hready. simpl negb. cbv iota.
  unfold bind, awaitClient, nextReply. rewrite Hscript. simpl settle.
  unfold ret. cbv beta iota.
  rewrite paginate_page by lia. fold sorted. fold page. fold total.
  rewrite Hceil, Hmore.
  match goal with
  | |- context [if ?c then getMultipleProfilePics ?i ?ids ?bs ?tm ?w1 else _] =>
      destruct c;
      [destruct (getMultipleProfilePics_returns i ids bs tm w1
                   (chatBatchSize_positive _)) as (m & w2 & ->) |]
  end.
  - eexists _, _, m. split; [reflexivity|]. simpl. repeat split; eauto.
  - eexists _, _, []. split; [reflexivity|]. simpl. repeat split; eauto.
Qed.


(** ** What each step does to the registry *)

Lemma counterKept_refl (i : Instance) : counterKept i i.
Proof. unfold counterKept. auto. Qed.

Lemma counterKept_trans (i j k : Instance) :
  counterKept i j -> counterKept j k -> counterKept i k.
Proof.
  unfold counterKept. intros (Ha & Hr & Hs) (Ha' & Hr' & Hs').
  split; [congruence|]. split; [congruence|].
  destruct Hs' as [Hs' | Hs']; [|now right].
  destruct Hs as [Hs | Hs]; [left | right]; congruence.
Qed.

Lemma replaced_kept (j k : Instance) : replaced j -> counterKept j k -> replaced k.
Proof.
  unfold replaced, counterKept. intros (Ha & Hr & Hs) (Ha' & Hr' & Hs').
  split; [congruence|]. split; [congruence|].
  destruct Hs' as [Hs' | Hs']; congruence.
Qed.

Lemma quiet_refl (instanceId : string) (m : JsMap.t Instance) : quiet instanceId m m.
Proof.
  split; [reflexivity|]. intros k i' H. exists i'.
  split; [exact H|]. split; [reflexivity|]. left. apply counterKept_refl.
Qed.

Lemma quiet_trans (instanceId : string) (m1 m2 m3 : JsMap.t Instance) :
  quiet instanceId m1 m2 -> quiet instanceId m2 m3 -> quiet instanceId m1 m3.
Proof.
  intros (Hk12 & H12) (Hk23 & H23). split; [now transitivity (JsMap.keys m2)|].
  intros k i3 H3. destruct (H23 k i3 H3) as (i2 & H2 & Hsame23 & Hc23).
  destruct (H12 k i2 H2) as (i1 & H1 & Hsame12 & Hc12).
  exists i1. split; [exact H1|]. split.
  - intros Hne. rewrite (Hsame23 Hne). now apply Hsame12.
  - destruct Hc23 as [Hc23 | Hc23]; [|now right].
    destruct Hc12 as [Hc12 | Hc12].
    + left. eapply counterKept_trans; eassumption.
    + right. eapply replaced_kept; eassumption.
Qed.

(** Changing the record of the instance in place is quiet when the counter
    is kept. *)
Lemma quiet_adjust (instanceId : string) (f : Instance -> Instance)
    (m : JsMap.t Instance) :
  (forall i, counterKept i (f i)) ->
  quiet instanceId m (JsMap.adjust instanceId f m).
Proof.
  intros Hf. split; [now rewrite keys_adjust|].
  intros k i' H. destruct (String.eqb_spec instanceId k) as [<- | Hne].
  - rewrite get_adjust_same in H. destruct (JsMap.get instanceId m) as [i|]; [|discriminate].
    injection H as <-. exists i. split; [reflexivity|].
    split; [congruence|]. left. apply Hf.
  - rewrite get_adjust_other in H by exact Hne. exists i'.
    split; [exact H|]. split; [reflexivity|]. left. apply counterKept_refl.
Qed.

Lemma quiet_eq (instanceId : string) (m m' : JsMap.t Instance) :
  m' = m -> quiet instanceId m m'.
Proof. intros ->. apply quiet_refl. Qed.

Lemma sublist_delete_keys {V} (k : string) (m : JsMap.t V) :
  JsMap.keys (JsMap.delete k m) `sublist_of` JsMap.keys m.
Proof. rewrite keys_delete. apply sublist_filter. Qed.

Lemma quiet_delete (instanceId : string) (m : JsMap.t Instance) :
  quiet instanceId m (JsMap.delete instanceId m).
Proof.
  split; [apply sublist_delete_keys|].
  intros k i' H. destruct (String.eqb_spec instanceId k) as [<- | Hne].
  - now rewrite get_delete_same in H.
  - rewrite get_delete_other in H by exact Hne. exists i'.
    split; [exact H|]. split; [reflexivity|]. left. apply counterKept_refl.
Qed.

Lemma quiet_replace (instanceId : string) (fresh : Instance) (m : JsMap.t Instance) :
  JsMap.has instanceId m = true ->
  replaced fresh ->
  quiet instanceId m (JsMap.set instanceId fresh m).
Proof.
  intros Hhas Hfresh. split; [rewrite keys_set, Hhas; reflexivity|].
  intros k i' H. destruct (String.eqb_spec instanceId k) as [<- | Hne].
  - rewrite get_set_same in H. injection H as <-.
    unfold JsMap.has in Hhas. destruct (JsMap.get instanceId m) as [i|]; [|discriminate].
    exists i. split; [reflexivity|]. split; [congruence | now right].
  - rewrite get_set_other in H by exact Hne. exists i'.
    split; [exact H|]. split; [reflexivity|]. left. apply counterKept_refl.
Qed.

(** [recoverInstance] leaves the registry alone, or registers a fresh
    record under the id, or (when it throws) ends with the id
    unregistered. *)
Lemma recoverInstance_effect (instanceId : string) (w : World) :
  let m' := instances (snd (recoverInstance instanceId w)) in
  m' = instances w
  \/ (exists fresh,
        replaced fresh /\ m' = JsMap.set instanceId fresh (instances w))
  \/ (exists fresh,
        replaced fresh
        /\ m' = JsMap.delete instanceId (JsMap.set instanceId fresh (instances w))).
Proof.
  unfold recoverInstance, tryCatch, bind, ret, awaitClient, newClient.
  destruct (sessionExists instanceId w); simpl; [|now left].
  rewrite nextReply_eq. simpl.
  set (fresh := mkInstance instanceId _ _ _ _ _ _ _ _ _ _ _ _).
  assert (Hfresh : replaced fresh).
  { unfold replaced, fresh. simpl. repeat split. now destruct (hasValidSession _ _). }
  destruct (answer (replyAt 0 _)); simpl.
  - right. left. now exists fresh.
  - right. right. exists fresh. split; [exact Hfresh|].
    unfold JsMap.has. now rewrite get_set_same.
Qed.

Lemma quiet_recoverInstance (instanceId : string) (w : World) :
  JsMap.has instanceId (instances w) = true ->
  quiet instanceId (instances w) (instances (snd (recoverInstance instanceId w))).
Proof.
  intros Hhas.
  destruct (recoverInstance_effect instanceId w)
    as [-> | [(fresh & Hfresh & ->) | (fresh & Hfresh & ->)]].
  - apply quiet_refl.
  - now apply quiet_replace.
  - apply (quiet_trans _ _ (JsMap.set instanceId fresh (instances w)));
      [now apply quiet_replace | apply quiet_delete].
Qed.

Lemma instances_awaitClient (w : World) :
  instances (snd (awaitClient w)) = instances w.
Proof.
  unfold awaitClient. rewrite nextReply_eq. now destruct (answer (replyAt 0 w)).
Qed.

Lemma instances_awaitClientWithin (ms : Z) (message : string) (w : World) :
  instances (snd (awaitClientWithin ms message w)) = instances w.
Proof.
  unfold awaitClientWithin. rewrite nextReply_eq.
  destruct (_ <? _); [|reflexivity]. now destruct (answer (replyAt 0 w)).
Qed.

Lemma quiet_prepareRecovery (instanceId : string) (w : World) :
  quiet instanceId (instances w) (instances (prepareRecovery instanceId w))
  /\ JsMap.keys (instances (prepareRecovery instanceId w)) = JsMap.keys (instances w).
Proof.
  unfold prepareRecovery, tryCatch, bind, ret. rewrite updateInstance_eq.
  set (w1 := set_instances _ w).
  pose proof (instances_awaitClient w1) as Hi.
  destruct (awaitClient w1) as [[v | e] w2]; simpl in *; rewrite Hi; subst w1; simpl;
    (split; [|apply keys_adjust]); apply quiet_adjust; intros i;
    unfold counterKept; simpl; repeat split; right; discriminate.
Qed.

Lemma quiet_attemptSessionRecovery (instanceId : string) (w : World) :
  quiet instanceId (instances w) (instances (snd (attemptSessionRecovery instanceId w))).
Proof.
  unfold attemptSessionRecovery.
  destruct (JsMap.get instanceId (instances w)) as [i|] eqn:Hreg; [|apply quiet_refl].
  destruct (quiet_prepareRecovery instanceId w) as (Hq & Hkeys).
  assert (Hhas : JsMap.has instanceId (instances (prepareRecovery instanceId w)) = true).
  { apply has_key. rewrite Hkeys. eapply get_Some_key, Hreg. }
  pose proof (quiet_recoverInstance _ _ Hhas) as Hq'.
  destruct (recoverInstance instanceId (prepareRecovery instanceId w)) as [[[]|e] w3];
    simpl in *; eapply quiet_trans; eassumption.
Qed.

(** An operation that is quiet stays quiet under the recovery wrapper. *)
Lemma quiet_executeWithRecovery {R} (instanceId : string) (operation : Async R) :
  (forall w, quiet instanceId (instances w) (instances (snd (operation w)))) ->
  forall w,
    quiet instanceId (instances w)
      (instances (snd (executeWithRecovery instanceId operation w))).
Proof.
  intros Hop w. unfold executeWithRecovery, tryCatch.
  pose proof (Hop w) as H1.
  destruct (operation w) as [[r | e] w1]; simpl in *; [exact H1|].
  destruct (isSessionError e); [|exact H1].
  pose proof (quiet_attemptSessionRecovery instanceId w1) as H2.
  destruct (attemptSessionRecovery instanceId w1) as [[|] w2]; simpl in *.
  - eapply quiet_trans; [exact H1|]. eapply quiet_trans; [exact H2|].
    apply (Hop (sleep 3000 w2)).
  - eapply quiet_trans; eassumption.
Qed.

Lemma quiet_sendMessageOperation (instanceId to message : string) (w : World) :
  quiet instanceId (instances w)
    (instances (snd (sendMessageOperation instanceId to message w))).
Proof.
  unfold sendMessageOperation.
  destruct (JsMap.get instanceId (instances w)) as [i|]; [|apply quiet_refl].
  destruct (negb _); [apply quiet_refl|].
  unfold bind. pose proof (instances_awaitClient w) as Hi.
  destruct (awaitClient w) as [[v | e] w1]; simpl in *; [|now apply quiet_eq].
  destruct v; simpl; try (now apply quiet_eq).
  rewrite updateInstance_eq. simpl. rewrite Hi. apply quiet_adjust.
  intros i0. unfold counterKept. simpl. auto.
Qed.

Lemma instances_getMultipleProfilePics (instanceId : string)
    (contactIds : list string) (batchSize timeout : Z) (w w' : World)
    (m : JsMap.t (option string)) :
  1 <= batchSize ->
  getMultipleProfilePics instanceId contactIds batchSize timeout w = Some (m, w') ->
  instances w' = instances w.
Proof.
  intros Hsize Hrun. unfold getMultipleProfilePics in Hrun.
  destruct (profilePicLoop_spec instanceId contactIds batchSize timeout Hsize
              (S (length contactIds)) 0 [] w) as (m0 & w0 & Hrun0 & _ & _ & _ & Hi);
    [lia | simpl; lia |].
  congruence.
Qed.

Lemma quiet_getChatsOperation (instanceId : string) (includeProfilePics : bool)
    (limit offset : Z) (w : World) :
  quiet instanceId (instances w)
    (instances (snd (getChatsOperation instanceId includeProfilePics limit offset w))).
Proof.
  unfold getChatsOperation.
  destruct (JsMap.get instanceId (instances w)) as [i|]; [|apply quiet_refl].
  destruct (negb _); [apply quiet_refl|].
  unfold bind. pose proof (instances_awaitClient w) as Hi.
  destruct (awaitClient w) as [[v | e] w1]; simpl in *; [|now apply quiet_eq].
  destruct v; simpl; try (now apply quiet_eq).
  match goal with
  | |- context [if ?c then getMultipleProfilePics ?i ?ids ?bs ?tm ?w1 else _] =>
      destruct c;
      [pose proof (instances_getMultipleProfilePics i ids bs tm w1) as Hpics;
       destruct (getMultipleProfilePics i ids bs tm w1) as [[m w2]|] |]
  end; simpl.
  - rewrite updateInstance_eq. simpl.
    rewrite (Hpics w2 m (chatBatchSize_positive _) eq_refl), Hi.
    apply quiet_adjust. intros i0. unfold counterKept. simpl. auto.
  - now apply quiet_eq.
  - rewrite updateInstance_eq. simpl. rewrite Hi.
    apply quiet_adjust. intros i0. unfold counterKept. simpl. auto.
Qed.


Lemma get_adjust_cases {V} (k0 k : string) (f : V -> V) (m : JsMap.t V) (v' : V) :
  JsMap.get k (JsMap.adjust k0 f m) = Some v' ->
  exists v, JsMap.get k m = Some v /\ (v' = v \/ k = k0 /\ v' = f v).
Proof.
  intros H. destruct (String.eqb_spec k0 k) as [<- | Hne].
  - rewrite get_adjust_same in H. destruct (JsMap.get k0 m) as [v|]; [|discriminate].
    injection H as <-. exists v. auto.
  - rewrite get_adjust_other in H by exact Hne. exists v'. auto.
Qed.

Lemma onClientEvent_effect (instanceId : string) (ev : ClientEvent) (w : World) :
  exists f,
    instances (onClientEvent instanceId ev w) = JsMap.adjust instanceId f (instances w)
    /\ forall i,
         match ev with
         | EvDisconnected _ =>
             reconnectAttempts (f i) = Some 0 /\ status (f i) = disconnected
         | _ => counterKept i (f i)
         end.
Proof.
  destruct ev; unfold onClientEvent, onQr, onAuthenticated, onAuthFailure,
    onDisconnected, onReady, onMessage, startKeepAlive, stopKeepAlive;
    world_simpl; rewrite ?adjust_adjust;
    (eexists; split; [reflexivity|]); intros i; unfold counterKept; simpl;
    try (destruct (skipQR i && hasValidAuth i)); simpl;
    repeat split; try (right; discriminate); try (left; reflexivity).
Qed.

Lemma instances_checkSessionHealth (instanceId : string) (w : World) :
  instances (snd (checkSessionHealth instanceId w)) = instances w.
Proof.
  unfold checkSessionHealth.
  destruct (JsMap.get instanceId (instances w)); [|reflexivity].
  pose proof (instances_awaitClientWithin 3000 "Health check timeout" w) as Hi.
  destruct (awaitClientWithin 3000 "Health check timeout" w) as [[[] | e] w1];
    exact Hi.
Qed.

Lemma healthVisit_effect (w : World) (instanceId : string) :
  exists f,
    instances (healthVisit w instanceId) = JsMap.adjust instanceId f (instances w)
    /\ forall i, counterKept i (f i).
Proof.
  unfold healthVisit.
  assert (Hsame : exists f,
    instances w = JsMap.adjust instanceId f (instances w)
    /\ forall i, counterKept i (f i)).
  { exists (fun i => i). split; [now rewrite adjust_id | apply counterKept_refl]. }
  destruct (JsMap.get instanceId (instances w)) as [inst|]; [|exact Hsame].
  destruct (status_eqb (status inst) ready); [|exact Hsame].
  pose proof (instances_checkSessionHealth instanceId w) as Hi.
  destruct (checkSessionHealth instanceId w) as [[|] w1]; simpl in Hi;
    unfold setTimeout; world_simpl; rewrite Hi;
    (eexists; split; [reflexivity|]); intros i; unfold counterKept; simpl;
    repeat split; try (right; discriminate); left; reflexivity.
Qed.

Lemma keepAliveTick_effect (instanceId : string) (w : World) :
  exists f,
    instances (keepAliveTick instanceId w) = JsMap.adjust instanceId f (instances w)
    /\ forall i, counterKept i (f i).
Proof.
  unfold keepAliveTick.
  assert (Hsame : forall w', instances w' = instances w -> exists f,
    instances w' = JsMap.adjust instanceId f (instances w)
    /\ forall i, counterKept i (f i)).
  { intros w' ->. exists (fun i => i).
    split; [now rewrite adjust_id | apply counterKept_refl]. }
  destruct (JsMap.get instanceId (instances w)) as [inst|]; [|now apply Hsame].
  destruct (status_eqb (status inst) ready); [|now apply Hsame].
  pose proof (instances_awaitClient w) as Hi.
  destruct (awaitClient w) as [[v | e] w1]; simpl in Hi.
  - world_simpl. rewrite Hi. eexists. split; [reflexivity|].
    intros i. unfold counterKept. simpl. auto.
  - pose proof (instances_checkSessionHealth instanceId (sleep 500 w1)) as Hi2.
    destruct (checkSessionHealth instanceId (sleep 500 w1)) as [isHealthy w2].
    simpl in Hi2. rewrite Hi in Hi2.
    destruct (JsMap.get instanceId (instances w2)) as [inst2|]; [|now apply Hsame].
    destruct (negb isHealthy && status_eqb (status inst2) ready); [|now apply Hsame].
    unfold setTimeout. world_simpl. rewrite Hi2. eexists. split; [reflexivity|].
    intros i. unfold counterKept. simpl. repeat split. right. discriminate.
Qed.

Lemma sweepVisit_effect (w : World) (instanceId : string) :
  exists f,
    instances (sweepVisit w instanceId) = JsMap.adjust instanceId f (instances w)
    /\ forall i, f i = i \/ exists w0, f i = attemptEffect w0 i.
Proof.
  unfold sweepVisit.
  assert (Hsame : exists f,
    instances w = JsMap.adjust instanceId f (instances w)
    /\ forall i, f i = i \/ exists w0, f i = attemptEffect w0 i).
  { exists (fun i => i). split; [now rewrite adjust_id | now left]. }
  destruct (JsMap.get instanceId (instances w)) as [inst|]; [|exact Hsame].
  destruct (sweepEligible inst); [|exact Hsame].
  destruct (attemptAutoReconnection_spec instanceId w) as (Hi & _).
  exists (attemptEffect w). split; [exact Hi|]. intros i. right. now exists w.
Qed.

(** A sweep over distinct ids changes each record at most once, by the
    visit of its own id. *)
Section Sweeps.
Variable visit : World -> string -> World.
Variable P : Instance -> Instance -> Prop.
Hypothesis visit_effect :
    forall w k, exists f,
      instances (visit w k) = JsMap.adjust k f (instances w) /\ forall i, P i (f i).

Lemma sweep_frame (ks : list string) (w : World) (k : string) :
    k ∉ ks ->
    JsMap.get k (instances (fold_left visit ks w)) = JsMap.get k (instances w).
Proof.
    revert w. induction ks as [|k0 ks IH]; intros w Hout; simpl; [reflexivity|].
    apply not_elem_of_cons in Hout as [Hne Hout]. rewrite IH by exact Hout.
    destruct (visit_effect w k0) as (f & -> & _).
    apply get_adjust_other. congruence.
Qed.

Lemma sweep_keys (ks : list string) (w : World) :
    JsMap.keys (instances (fold_left visit ks w)) = JsMap.keys (instances w).
Proof.
    revert w. induction ks as [|k0 ks IH]; intros w; simpl; [reflexivity|].
    rewrite IH. destruct (visit_effect w k0) as (f & -> & _). apply keys_adjust.
Qed.

Lemma sweep_effect (ks : list string) (w : World) (k : string) (i' : Instance) :
    NoDup ks ->
    JsMap.get k (instances (fold_left visit ks w)) = Some i' ->
    exists i, JsMap.get k (instances w) = Some i /\ (i' = i \/ P i i').
Proof.
    revert w. induction ks as [|k0 ks IH]; intros w Hnd H; simpl in H.
    - exists i'. auto.
    - apply NoDup_cons in Hnd as [Hfresh Hnd].
      destruct (visit_effect w k0) as (f & Hf & HP).
      destruct (String.eqb_spec k0 k) as [<- | Hne].
      + rewrite sweep_frame, Hf, get_adjust_same in H by exact Hfresh.
        destruct (JsMap.get k0 (instances w)) as [i|]; [|discriminate].
        injection H as <-. exists i. split; [reflexivity|]. right. apply HP.
      + destruct (IH _ Hnd H) as (i & Hi & Hrel).
        rewrite Hf, get_adjust_other in Hi by exact Hne. now exists i.
Qed.
End Sweeps.

Lemma instances_rethrow {A} (c : Async A) (w : World) :
  instances (snd (tryCatch c (fun error => throw error) w)) = instances (snd (c w)).
Proof. unfold tryCatch, throw. now destruct (c w) as [[a | e] w1]. Qed.

Lemma createInstance_effect (instanceId : option string) (uuid : string) (w : World) :
  let id := effectiveId instanceId uuid in
  let m' := instances (snd (createInstance instanceId uuid w)) in
  m' = instances w
  \/ (JsMap.get id (instances w) = None
      /\ exists fresh,
           status fresh = initializing /\ reconnectAttempts fresh = None
           /\ m' = JsMap.set id fresh (instances w)).
Proof.
  unfold createInstance, tryCatch, newClient, JsMap.has. simpl.
  destruct (JsMap.get (effectiveId instanceId uuid) (instances w)) eqn:E; simpl.
  - now left.
  - right. split; [reflexivity|]. eexists. split; [|split]; [| |reflexivity];
      reflexivity.
Qed.

Lemma initializeInstance_effect (instanceId : string) (w : World) :
  instances (snd (initializeInstance instanceId w)) = instances w.
Proof.
  unfold initializeInstance. rewrite instances_rethrow.
  destruct (JsMap.get instanceId (instances w)) as [inst|]; [|reflexivity].
  destruct (status_eqb (status inst) ready); [reflexivity|].
  unfold bind. pose proof (instances_awaitClient w) as Hi.
  destruct (awaitClient w) as [[v | e] w1]; simpl in *; [|exact Hi].
  now destruct (JsMap.get instanceId (instances w1)).
Qed.

Lemma destroyInstance_effect (instanceId : string) (w : World) :
  let m' := instances (snd (destroyInstance instanceId w)) in
  m' = instances w \/ m' = JsMap.delete instanceId (instances w).
Proof.
  unfold destroyInstance. rewrite instances_rethrow.
  destruct (JsMap.get instanceId (instances w)) as [inst|]; [|now left].
  unfold bind, perform. pose proof (instances_awaitClient w) as Hi.
  destruct (awaitClient w) as [[v | e] w1]; simpl in *; [|now left].
  right. rewrite <- Hi. now destruct (sessionExists _ _).
Qed.

Lemma runTimer_effect (t : Timer) (w : World) :
  exists k f,
    instances (runTimer t w) = JsMap.adjust k f (instances w)
    /\ forall i, f i = i \/ exists w0, f i = attemptEffect w0 i.
Proof.
  assert (Hsame : forall k, exists f,
    instances w = JsMap.adjust k f (instances w)
    /\ forall i, f i = i \/ exists w0, f i = attemptEffect w0 i).
  { intros k. exists (fun i => i). split; [now rewrite adjust_id | now left]. }
  assert (Hattempt : forall k, exists f,
    instances (attemptAutoReconnection k w) = JsMap.adjust k f (instances w)
    /\ forall i, f i = i \/ exists w0, f i = attemptEffect w0 i).
  { intros k. destruct (attemptAutoReconnection_spec k w) as (Hi & _).
    exists (attemptEffect w). split; [exact Hi|]. intros i. right. now exists w. }
  destruct t as [k | k]; exists k; simpl; [|apply Hattempt].
  unfold scheduledRetry.
  destruct (JsMap.get k (instances w)) as [inst|]; [|apply Hsame].
  destruct (reconnectAttempts inst) as [n|]; [|apply Hsame].
  destruct (n <? maxReconnectAttempts); [apply Hattempt | apply Hsame].
Qed.

Lemma reconnectRoute_effect (instanceId : string) (w : World) :
  exists f,
    instances (reconnectRoute instanceId w) = JsMap.adjust instanceId f (instances w)
    /\ forall i, f i = i \/ exists w0, f i = attemptEffect w0 i.
Proof.
  unfold reconnectRoute, getInstanceStatus.
  assert (Hsame : exists f,
    instances w = JsMap.adjust instanceId f (instances w)
    /\ forall i, f i = i \/ exists w0, f i = attemptEffect w0 i).
  { exists (fun i => i). split; [now rewrite adjust_id | now left]. }
  destruct (JsMap.get instanceId (instances w)) as [inst|]; [|exact Hsame].
  destruct (status_eqb (status inst) disconnected); [|exact Hsame].
  destruct (attemptAutoReconnection_spec instanceId w) as (Hi & _).
  exists (attemptEffect w). split; [exact Hi|]. intros i. right. now exists w.
Qed.


(** ** The registry along a run *)

Lemma change_of_adjust (a : Action) (k0 k : string) (f : Instance -> Instance)
    (m : JsMap.t Instance) (i' : Instance) :
  (forall i, k = k0 -> recordChange a k i (f i)) ->
  JsMap.get k (JsMap.adjust k0 f m) = Some i' ->
  exists i, JsMap.get k m = Some i /\ recordChange a k i i'.
Proof.
  intros Hf H. apply get_adjust_cases in H as (i & Hi & [-> | [Hk ->]]).
  - exists i. split; [exact Hi|]. left. apply counterKept_refl.
  - exists i. split; [exact Hi|]. now apply Hf.
Qed.

Lemma change_of_attempt (a : Action) (k : string) (i fi : Instance) :
  fi = i \/ (exists w0, fi = attemptEffect w0 i) -> recordChange a k i fi.
Proof.
  intros [-> | H]; [left; apply counterKept_refl | right; right; now left].
Qed.

Lemma change_of_quiet (a : Action) (k0 k : string) (m m' : JsMap.t Instance)
    (i' : Instance) :
  quiet k0 m m' ->
  JsMap.get k m' = Some i' ->
  exists i, JsMap.get k m = Some i /\ recordChange a k i i'.
Proof.
  intros (_ & Hq) H. destruct (Hq k i' H) as (i & Hi & _ & Hc).
  exists i. split; [exact Hi|]. destruct Hc as [Hc | Hc]; [now left | right; now left].
Qed.

(** Every step either changes a registered record in one of the ways of
    [recordChange], or registers a record that is not [failed] and has no
    counter yet. *)
Lemma run_change (a : Action) (w : World) (k : string) (i' : Instance) :
  NoDup (JsMap.keys (instances w)) ->
  JsMap.get k (instances (run a w)) = Some i' ->
  (exists i, JsMap.get k (instances w) = Some i /\ recordChange a k i i')
  \/ (JsMap.get k (instances w) = None
      /\ status i' <> failed /\ reconnectAttempts i' = None).
Proof.
  intros Hnd H.
  assert (Hsame : JsMap.get k (instances w) = Some i' ->
    (exists i, JsMap.get k (instances w) = Some i /\ recordChange a k i i')
    \/ (JsMap.get k (instances w) = None
        /\ status i' <> failed /\ reconnectAttempts i' = None)).
  { intros Hi. left. exists i'. split; [exact Hi|]. left. apply counterKept_refl. }
  assert (Hfresh : forall k0 fresh,
    status fresh <> failed -> reconnectAttempts fresh = None ->
    (JsMap.get k0 (instances w) <> None -> replaced fresh) ->
    JsMap.get k (JsMap.set k0 fresh (instances w)) = Some i' ->
    (exists i, JsMap.get k (instances w) = Some i /\ recordChange a k i i')
    \/ (JsMap.get k (instances w) = None
        /\ status i' <> failed /\ reconnectAttempts i' = None)).
  { intros k0 fresh Hst Hat Hrep Hget.
    destruct (String.eqb_spec k0 k) as [<- | Hne].
    - rewrite get_set_same in Hget. injection Hget as <-.
      destruct (JsMap.get k0 (instances w)) as [i|] eqn:E; [|now right].
      left. exists i. split; [reflexivity|]. right. left. now apply Hrep.
    - rewrite get_set_other in Hget by exact Hne. now apply Hsame. }
  destruct a; simpl in H.
  - (* Create *)
    destruct (createInstance_effect instanceId uuid w)
      as [Heq | (Hnew & fresh & Hst & Hat & Heq)]; rewrite Heq in H.
    + now apply Hsame.
    + apply (Hfresh (effectiveId instanceId uuid) fresh);
        [congruence | exact Hat | congruence | exact H].
  - (* Recover *)
    destruct (recoverInstance_effect instanceId w)
      as [Heq | [(fresh & Hrep & Heq) | (fresh & Hrep & Heq)]]; rewrite Heq in H.
    + now apply Hsame.
    + destruct Hrep as (Hat & Hrec & Hst).
      apply (Hfresh instanceId fresh);
        [exact Hst | exact Hat | now repeat split | exact H].
    + destruct (String.eqb_spec instanceId k) as [<- | Hne].
      * now rewrite get_delete_same in H.
      * rewrite get_delete_other, get_set_other in H by exact Hne. now apply Hsame.
  - (* Initialize *)
    rewrite initializeInstance_effect in H. now apply Hsame.
  - (* Destroy *)
    destruct (destroyInstance_effect instanceId w) as [Heq | Heq]; rewrite Heq in H.
    + now apply Hsame.
    + destruct (String.eqb_spec instanceId k) as [<- | Hne].
      * now rewrite get_delete_same in H.
      * rewrite get_delete_other in H by exact Hne. now apply Hsame.
  - (* ClientEmits *)
    destruct (onClientEvent_effect instanceId ev w) as (f & Heq & Hf).
    rewrite Heq in H. left. eapply change_of_adjust; [|exact H].
    intros i ->. specialize (Hf i). destruct ev; try (now left).
    right. right. right. split; [now exists reason | exact Hf].
  - (* HealthTick *)
    left. unfold healthSweep in H.
    destruct (sweep_effect healthVisit counterKept healthVisit_effect _ _ _ _ Hnd H)
      as (i & Hi & Hrel).
    exists i. split; [exact Hi|]. left.
    destruct Hrel as [-> | Hrel]; [apply counterKept_refl | exact Hrel].
  - (* KeepAliveTick *)
    destruct (keepAliveTick_effect instanceId w) as (f & Heq & Hf).
    rewrite Heq in H. left. eapply change_of_adjust; [|exact H].
    intros i _. left. apply Hf.
  - (* SweepTick *)
    left. unfold reconnectionSweep in H.
    destruct (sweep_effect sweepVisit
                (fun i fi => fi = i \/ exists w0, fi = attemptEffect w0 i)
                sweepVisit_effect _ _ _ _ Hnd H) as (i & Hi & Hrel).
    exists i. split; [exact Hi|]. apply change_of_attempt.
    destruct Hrel as [-> | Hrel]; [now left | exact Hrel].
  - (* TimerFires *)
    destruct (timers w !! n) as [t|]; [|now apply Hsame].
    destruct (runTimer_effect t (set_timers (base.delete n (timers w)) w))
      as (k0 & f & Heq & Hf).
    rewrite Heq in H. simpl in H. left. eapply change_of_adjust; [|exact H].
    intros i _. apply change_of_attempt, Hf.
  - (* ReconnectRoute *)
    destruct (reconnectRoute_effect instanceId w) as (f & Heq & Hf).
    rewrite Heq in H. left. eapply change_of_adjust; [|exact H].
    intros i _. apply change_of_attempt, Hf.
  - (* SendMessage *)
    unfold sendMessage in H. rewrite instances_rethrow in H.
    left. eapply change_of_quiet; [|exact H].
    apply quiet_executeWithRecovery. intros w0. apply quiet_sendMessageOperation.
  - (* GetChats *)
    unfold getChats in H. rewrite instances_rethrow in H.
    left. eapply change_of_quiet; [|exact H].
    apply quiet_executeWithRecovery. intros w0. apply quiet_getChatsOperation.
  - (* Environment *)
    now apply Hsame.
Qed.

Lemma wellKeyed_sublist (m m' : JsMap.t Instance) :
  JsMap.keys m' `sublist_of` JsMap.keys m -> wellKeyed m -> wellKeyed m'.
Proof.
  intros Hsub (Hnd & Hne). split.
  - eapply sublist_NoDup; eassumption.
  - intros Hin. apply Hne. eapply elem_of_sublist; eassumption.
Qed.

Lemma wellKeyed_keys (m m' : JsMap.t Instance) :
  JsMap.keys m' = JsMap.keys m -> wellKeyed m -> wellKeyed m'.
Proof. unfold wellKeyed. now intros ->. Qed.

Lemma wellKeyed_set (k : string) (v : Instance) (m : JsMap.t Instance) :
  k <> EmptyString -> wellKeyed m -> wellKeyed (JsMap.set k v m).
Proof.
  intros Hk (Hnd & Hne). split; [now apply NoDup_keys_set|].
  rewrite keys_set. destruct (JsMap.has k m); [exact Hne|].
  rewrite elem_of_app, list_elem_of_singleton. intros [H | H]; [now apply Hne | congruence].
Qed.

Lemma effectiveId_not_empty (instanceId : option string) (uuid : string) :
  uuid <> EmptyString -> effectiveId instanceId uuid <> EmptyString.
Proof.
  intros Hu. unfold effectiveId. destruct instanceId as [s|]; [|exact Hu].
  now destruct (String.eqb_spec s EmptyString).
Qed.

Lemma run_wellKeyed (a : Action) (w : World) :
  admissible a -> wellKeyed (instances w) -> wellKeyed (instances (run a w)).
Proof.
  intros Hadm Hwk.
  assert (Hadj : forall k f w', instances w' = JsMap.adjust k f (instances w) ->
                                wellKeyed (instances w')).
  { intros k f w' Heq. eapply wellKeyed_keys; [|exact Hwk]. rewrite Heq.
    apply keys_adjust. }
  destruct a; simpl in *.
  - destruct (createInstance_effect instanceId uuid w)
      as [-> | (_ & fresh & _ & _ & ->)]; [exact Hwk|].
    apply wellKeyed_set; [now apply effectiveId_not_empty | exact Hwk].
  - destruct (recoverInstance_effect instanceId w)
      as [-> | [(fresh & _ & ->) | (fresh & _ & ->)]]; [exact Hwk | |].
    + now apply wellKeyed_set.
    + eapply wellKeyed_sublist; [apply sublist_delete_keys|]. now apply wellKeyed_set.
  - now rewrite initializeInstance_effect.
  - destruct (destroyInstance_effect instanceId w) as [-> | ->]; [exact Hwk|].
    eapply wellKeyed_sublist; [apply sublist_delete_keys | exact Hwk].
  - destruct (onClientEvent_effect instanceId ev w) as (f & Heq & _). eauto.
  - eapply wellKeyed_keys; [|exact Hwk].
    apply (sweep_keys healthVisit counterKept healthVisit_effect).
  - destruct (keepAliveTick_effect instanceId w) as (f & Heq & _). eauto.
  - eapply wellKeyed_keys; [|exact Hwk].
    apply (sweep_keys sweepVisit
             (fun i fi => fi = i \/ exists w0, fi = attemptEffect w0 i)
             sweepVisit_effect).
  - destruct (timers w !! n) as [t|]; [|exact Hwk].
    destruct (runTimer_effect t (set_timers (base.delete n (timers w)) w))
      as (k0 & f & Heq & _). eauto.
  - destruct (reconnectRoute_effect instanceId w) as (f & Heq & _). eauto.
  - unfold sendMessage. rewrite instances_rethrow.
    eapply wellKeyed_sublist; [|exact Hwk].
    apply (quiet_executeWithRecovery instanceId _
             (fun w0 => quiet_sendMessageOperation instanceId to message w0) w).
  - unfold getChats. rewrite instances_rethrow.
    eapply wellKeyed_sublist; [|exact Hwk].
    apply (quiet_executeWithRecovery instanceId _
             (fun w0 => quiet_getChatsOperation instanceId includeProfilePics
                          (chatsLimit limitQuery) (chatsOffset offsetQuery) w0) w).
  - exact Hwk.
Qed.

Lemma attemptEffect_exhausted (w0 : World) (i : Instance) :
  status (attemptEffect w0 i) = failed ->
  (status i = failed -> exists n, reconnectAttempts i = Some n /\ maxReconnectAttempts < n) ->
  exists n, reconnectAttempts (attemptEffect w0 i) = Some n /\ maxReconnectAttempts < n.
Proof.
  unfold attemptEffect. destruct (reconnecting i); [auto|].
  destruct (attemptsOrZero i + 1 >? maxReconnectAttempts) eqn:Hmax.
  - intros _ _. simpl. eexists. split; [reflexivity|]. now apply Z.gtb_gt, Z.gt_lt in Hmax.
  - destruct (comesUp (replyAt 1 w0)); simpl; discriminate.
Qed.

Lemma run_failedIsExhausted (a : Action) (w : World) :
  NoDup (JsMap.keys (instances w)) ->
  failedIsExhausted (instances w) -> failedIsExhausted (instances (run a w)).
Proof.
  intros Hnd Hinv k i' Hget Hfailed.
  destruct (run_change a w k i' Hnd Hget) as [(i & Hi & Hc) | (_ & Hst & _)];
    [|contradiction].
  destruct Hc as [(Hat & _ & Hst) | [(_ & _ & Hst) | [(w0 & ->) | (_ & _ & Hst)]]].
  - destruct Hst as [Hst | Hst]; [|contradiction].
    rewrite Hat. apply (Hinv k i Hi). congruence.
  - contradiction.
  - apply attemptEffect_exhausted; [exact Hfailed | apply (Hinv k i Hi)].
  - congruence.
Qed.

Lemma Reachable_invariants (w : World) :
  Reachable w -> wellKeyed (instances w) /\ failedIsExhausted (instances w).
Proof.
  induction 1 as [|a w Hreach (Hwk & Hfail) Hadm].
  - split.
    + split; [apply NoDup_nil_2 | apply not_elem_of_nil].
    + intros k i H. discriminate.
  - split; [now apply run_wellKeyed|].
    apply run_failedIsExhausted; [apply Hwk | exact Hfail].
Qed.

Lemma Reachable_replay (history : list Action) :
  Forall admissible history -> Reachable (replay history).
Proof.
  unfold replay. generalize reach_initial. generalize initialWorld.
  induction history as [|a history IH]; intros w Hw Hall; simpl; [exact Hw|].
  apply Forall_cons in Hall as [Ha Hall]. apply IH; [|exact Hall].
  now apply reach_run.
Qed.


Lemma filter_absent (ks : list string) (k : string) :
  k ∉ ks -> filter (fun k' => k' = k) ks = [].
Proof.
  induction ks as [|k0 ks IH]; intros Hout; [reflexivity|].
  apply not_elem_of_cons in Hout as [Hne Hout].
  rewrite filter_cons_False by congruence. now apply IH.
Qed.

Lemma NoDup_one_occurrence (ks : list string) (k : string) :
  NoDup ks -> k ∈ ks -> length (filter (fun k' => k' = k) ks) = 1%nat.
Proof.
  induction ks as [|k0 ks IH]; intros Hnd Hin.
  - now apply elem_of_nil in Hin.
  - apply NoDup_cons in Hnd as [Hfresh Hnd].
    destruct (decide (k0 = k)) as [-> | Hne].
    + rewrite filter_cons_True by reflexivity.
      now rewrite filter_absent.
    + rewrite filter_cons_False by exact Hne. apply IH; [exact Hnd|].
      apply elem_of_cons in Hin as [-> | Hin]; [contradiction | exact Hin].
Qed.

(** C8.  In every world the manager can reach, [createInstance] with an id
    that is registered throws the already-exists error and leaves the world,
    and with it the registered record, as it is; and the registry holds
    every id once. *)
Theorem createInstance_rejects_taken_id (w : World) (instanceId uuid : string)
    (inst : Instance) :
  Reachable w ->
  JsMap.get instanceId (instances w) = Some inst ->
  createInstance (Some instanceId) uuid w
    = (Threw (alreadyExistsMessage instanceId), w)
  /\ NoDup (JsMap.keys (instances w))
  /\ length (filter (fun k => k = instanceId) (JsMap.keys (instances w))) = 1%nat.
Proof.
  intros Hreach Hreg.
  destruct (Reachable_invariants w Hreach) as ((Hnd & Hne) & _).
  pose proof (get_Some_key _ _ _ Hreg) as Hin.
  split; [|split; [exact Hnd | now apply NoDup_one_occurrence]].
  apply (createInstance_taken _ _ _ inst); [|exact Hreg].
  intros ->. contradiction.
Qed.

Lemma createInstance_rejects_taken_id_witness :
  createInstance (Some "a") "11111111-1111-4111-8111-111111111111" (replay oneCreated)
  = (Threw "Instance a already exists", replay oneCreated).
Proof.
  refine (proj1 (createInstance_rejects_taken_id (replay oneCreated) "a" _
                   (mkInstance "a" 0 initializing None None 0 0 false false false
                      None false false) _ _)).
  - apply Reachable_replay. repeat constructor. discriminate.
  - vm_compute. reflexivity.
Defined.

Lemma scheduledRetry_frame (instanceId other : string) (w : World) :
  instanceId <> other ->
  JsMap.get other (instances (scheduledRetry instanceId w)) =
  JsMap.get other (instances w).
Proof.
  intros Hne. unfold scheduledRetry.
  destruct (JsMap.get instanceId (instances w)) as [inst|]; [|reflexivity].
  destruct (reconnectAttempts inst) as [n|]; [|reflexivity].
  destruct (n <? maxReconnectAttempts); [|reflexivity].
  now apply attemptAutoReconnection_frame.
Qed.








(** ** Teardown *)

(** C7, failing input.  When [client.destroy()] rejects, [destroyInstance]
    rethrows the error: the instance stays registered, its session
    directory stays on disk and nothing is emitted.  On the same world
    [reinitializeInstance] ignores the rejection and goes on to build
    client 1. *)
Theorem destroyInstance_teardown_failure_aborts :
  exists w',
    destroyInstance "a" brokenTeardownWorld
      = (Threw "Protocol error (Browser.close): Target closed", w')
    /\ JsMap.has "a" (instances w') = true
    /\ sessions w' !! "a" = Some true
    /\ emitted w' = []
    /\ client <$> JsMap.get "a"
                    (instances (snd (reinitializeInstance "a" brokenTeardownWorld)))
       = Some 1%nat.
Proof.
  exists (sleep 5 (set_script [] brokenTeardownWorld)).
  repeat split; vm_compute; reflexivity.
Qed.


(** ** Worked examples *)

Lemma getChats_pagination_witness :
  exists res w',
    getChats "a" false 3 2 listingWorld = (Returned res, w')
    /\ map cd_id (contacts res) = ["2@c.us"; "3@c.us"; "4@c.us"]
    /\ hasMore (pagination res) = true
    /\ exists pages, totalPages (pagination res) = Num pages /\ pages = 4.
Proof.
  destruct (getChats_pagination "a" false 3 2 listingWorld
              (sampleInstance "a" ready true None) 10 tenChats [])
    as (_ & _ & (res & w' & m & Hrun & Hcontacts & _ & _ & _ & Hmore & pages & Hpages & Hbounds) & _).
  - reflexivity.
  - reflexivity.
  - reflexivity.
  - lia.
  - lia.
  - exists res, w'. split; [exact Hrun|]. split; [|split].
    + rewrite Hcontacts. vm_compute. reflexivity.
    + rewrite Hmore. vm_compute. reflexivity.
    + exists pages. split; [exact Hpages|].
      change (Z.of_nat (length tenChats)) with 10 in Hbounds. lia.
Defined.

(** C6, failing input.  The controller passes [limit = -5] through:
    [parseInt] gives -5, which is truthy and below 200.  No rank lies in
    [0, 0 + -5), yet [slice(0, -5)] hands out the five newest of ten chats,
    and the pagination record reports a limit of -5 and -2 pages. *)
Theorem getChats_negative_limit :
  chatsLimit (Some (-5)) = -5
  /\ chatsOffset None = 0
  /\ (forall rank, ~ (0 <= rank < 0 + -5))
  /\ match fst (getChats "a" false (chatsLimit (Some (-5))) (chatsOffset None)
                  listingWorld) with
     | Returned res =>
         map cd_id (contacts res)
           = ["0@c.us"; "1@c.us"; "2@c.us"; "3@c.us"; "4@c.us"]
         /\ returnedCount (pagination res) = 5
         /\ limit (pagination res) = -5
         /\ totalPages (pagination res) = Num (-2)
     | Threw _ => False
     end.
Proof.
  split; [reflexivity|]. split; [reflexivity|]. split; [intros rank; lia|].
  vm_compute. repeat split.
Qed.

Lemma closedSession_first_run :
  sendMessageOperation "a" "491701234567" "hello" closedSessionWorld
  = (Threw "Protocol error (Runtime.callFunctionOn): Session closed.",
     closedSessionAfterFailure).
Proof. vm_compute. reflexivity. Qed.

Lemma closedSession_signature :
  isSessionError "Protocol error (Runtime.callFunctionOn): Session closed." = true.
Proof. vm_compute. reflexivity. Qed.

Lemma closedSession_registered :
  JsMap.has "a" (instances closedSessionAfterFailure) = true.
Proof. vm_compute. reflexivity. Qed.

Lemma closedSession_rebuild_throws :
  recoverInstance "a" (prepareRecovery "a" closedSessionAfterFailure)
  = (Threw "Failed to launch the browser process", closedSessionAfterRecovery).
Proof. vm_compute. reflexivity. Qed.

Lemma failed_recovery_unregisters_witness :
  executeWithRecovery "a" (sendMessageOperation "a" "491701234567" "hello")
    closedSessionWorld
  = (Threw (recoveryFailedMessage "a"), closedSessionAfterRecovery)
  /\ getInstanceStatus "a" closedSessionAfterRecovery = None.
Proof.
  pose proof (failed_recovery_unregisters "a"
                (sendMessageOperation "a" "491701234567" "hello")
                closedSessionWorld closedSessionAfterFailure
                closedSessionAfterRecovery _ _
                closedSession_first_run closedSession_signature
                closedSession_registered closedSession_rebuild_throws)
    as (Hrun & _ & Hstatus & _).
  split; [exact Hrun | exact Hstatus].
Defined.

(* ===================================================================== *)
(** * Further properties of the manager *)

(** ** Listing: contacts, groups and the page *)

Lemma executeWithRecovery_returns {R} (instanceId : string) (operation : Async R)
    (P : R -> World -> Prop) (w w' : World) (r : R) :
  (forall w0 r0 w0', operation w0 = (Returned r0, w0') -> P r0 w0') ->
  executeWithRecovery instanceId operation w = (Returned r, w') ->
  P r w'.
Proof.
  intros Hop. unfold executeWithRecovery, tryCatch.
  destruct (operation w) as [[r1 | e] w1] eqn:E1.
  - intros H. injection H as <- <-. eapply Hop, E1.
  - destruct (isSessionError e); [|discriminate].
    destruct (attemptSessionRecovery instanceId w1) as [[|] w2]; [|discriminate].
    intros H. eapply Hop, H.
Qed.

Lemma rethrow_returns {A} (c : Async A) (w w' : World) (a : A) :
  tryCatch c (fun error => throw error) w = (Returned a, w') ->
  c w = (Returned a, w').
Proof. unfold tryCatch, throw. destruct (c w) as [[a0 | e] w0]; congruence. Qed.

Lemma rethrow_eq {A} (c : Async A) (w : World) :
  tryCatch c (fun error => throw error) w = c w.
Proof. unfold tryCatch, throw. now destruct (c w) as [[a0 | e] w0]. Qed.

Lemma filter_isGroup_lengths (page : list Chat) :
  (length (filter (fun c => isGroup c = false) page)
   + length (filter (fun c => isGroup c = true) page))%nat = length page.
Proof.
  induction page as [|c page IH]; [reflexivity|].
  rewrite !filter_cons. destruct (isGroup c) eqn:E;
    repeat case_decide; try congruence; simpl; lia.
Qed.

Lemma slice_length_le {A} (i j : Z) (l : list A) :
  (length (slice i j l) <= length l)%nat.
Proof. unfold slice. rewrite length_take, length_drop. lia. Qed.

Lemma sortChats_length (l : list Chat) : length (sortChats l) = length l.
Proof. apply Permutation_length, sortChats_perm. Qed.

Lemma getChatsOperation_wellSplit (instanceId : string) (includeProfilePics : bool)
    (limit offset : Z) (w w' : World) (res : ChatsResult) :
  getChatsOperation instanceId includeProfilePics limit offset w = (Returned res, w') ->
  wellSplit res.
Proof.
  unfold getChatsOperation.
  destruct (JsMap.get instanceId (instances w)) as [inst|]; [|discriminate].
  destruct (negb _); [discriminate|].
  unfold bind. destruct (awaitClient w) as [[v | e] w1]; [|discriminate].
  destruct v; try discriminate.
  set (page := paginate limit offset chats).
  match goal with
  | |- context [match ?en with Some _ => _ | None => _ end] =>
      destruct en as [[m w2]|]; [|discriminate]
  end.
  intros H. injection H as <- _. unfold wellSplit. simpl.
  rewrite !length_map.
  pose proof (filter_isGroup_lengths page) as Hsum.
  assert (Hpage : (length page <= length chats)%nat).
  { subst page. unfold paginate.
    etransitivity; [apply slice_length_le|]. now rewrite sortChats_length. }
  repeat split; try lia.
  - apply Forall_forall. intros d Hd.
    apply list_elem_of_fmap in Hd as (d0 & -> & Hd0).
    apply list_elem_of_fmap in Hd0 as (c & -> & Hc).
    apply list_elem_of_filter in Hc as [Hc _]. exact Hc.
  - apply Forall_forall. intros d Hd.
    apply list_elem_of_fmap in Hd as (d0 & -> & Hd0).
    apply list_elem_of_fmap in Hd0 as (c & -> & Hc).
    apply list_elem_of_filter in Hc as [Hc _]. exact Hc.
Qed.

Lemma getChats_wellSplit (instanceId : string) (includeProfilePics : bool)
    (limit offset : Z) (w w' : World) (res : ChatsResult) :
  getChats instanceId includeProfilePics limit offset w = (Returned res, w') ->
  wellSplit res.
Proof.
  intros H. unfold getChats in H. apply rethrow_returns in H.
  apply (executeWithRecovery_returns instanceId
           (getChatsOperation instanceId includeProfilePics limit offset)
           (fun r _ => wellSplit r) w w' res);
    [|exact H].
  intros w0 r0 w0'. apply getChatsOperation_wellSplit.
Qed.

(** X2 ([getChats]).  Whatever the limit and the offset, also outside
    their intended range, and whether or not a session recovery and a second
    run took place: a result that [getChats] returns splits its page into
    contacts, which are not groups, and groups, which are; the two counts are
    the lengths of the two lists and add up to [returnedCount], which is at
    most the total number of chats. *)
Theorem getChats_splits_the_page (instanceId : string) (includeProfilePics : bool)
    (limit offset : Z) (w w' : World) (res : ChatsResult) :
  getChats instanceId includeProfilePics limit offset w = (Returned res, w') ->
  contactsCount res + groupsCount res = returnedCount (pagination res)
  /\ contactsCount res = Z.of_nat (length (contacts res))
  /\ groupsCount res = Z.of_nat (length (groups res))
  /\ Forall (fun d => cd_isGroup d = false) (contacts res)
  /\ Forall (fun d => cd_isGroup d = true) (groups res)
  /\ 0 <= returnedCount (pagination res) <= totalChats res.
Proof. apply getChats_wellSplit. Qed.

Lemma getChats_splits_the_page_witness :
  match getChats "a" false 3 2 listingWorld with
  | (Returned res, _) =>
      contactsCount res + groupsCount res = returnedCount (pagination res)
      /\ 0 <= returnedCount (pagination res) <= totalChats res
  | (Threw _, _) => False
  end.
Proof.
  destruct (getChats "a" false 3 2 listingWorld) as [[res | e] w'] eqn:E.
  - destruct (getChats_splits_the_page "a" false 3 2 listingWorld w' res E)
      as (Hsum & _ & _ & _ & _ & Hbound).
    split; [exact Hsum | exact Hbound].
  - vm_compute in E. discriminate E.
Defined.

(** X3 ([getContacts], [getGroups]).  Both run the whole listing and keep
    one half of it: on the same world they end in the same world as
    [getChats] and fail with the same error; when the listing returns, the
    contacts of the one and the groups of the other are the two halves of
    the same page, under the same pagination record, and the two counts add
    up to the [returnedCount] of that page. *)
Theorem getContacts_getGroups_complement (instanceId : string)
    (includeProfilePics : bool) (limit offset : Z) (w : World) :
  match getChats instanceId includeProfilePics limit offset w with
  | (Returned res, w') =>
      exists rc rg,
        getContacts instanceId includeProfilePics limit offset w = (Returned rc, w')
        /\ getGroups instanceId includeProfilePics limit offset w = (Returned rg, w')
        /\ listed_contacts rc = contacts res
        /\ listed_groups rg = groups res
        /\ contacts_pagination rc = pagination res
        /\ groups_pagination rg = pagination res
        /\ contacts_count rc + groups_count rg
           = returnedCount (pagination res)
  | (Threw error, w') =>
      getContacts instanceId includeProfilePics limit offset w = (Threw error, w')
      /\ getGroups instanceId includeProfilePics limit offset w = (Threw error, w')
  end.
Proof.
  unfold getContacts, getGroups. rewrite !rethrow_eq. unfold bind, ret.
  destruct (getChats instanceId includeProfilePics limit offset w)
    as [[res | error] w'] eqn:E; [|now split].
  eexists _, _. repeat split.
  simpl. apply (getChats_wellSplit _ _ _ _ _ _ _ E).
Qed.

(** X4 ([getChats] with [includeProfilePics = false]).  On a ready
    instance whose client lists its chats, for any limit and offset: the
    listing returns after exactly one call to the client, leaves the picture
    cache and the scheduler alone, gives every contact and group a [null]
    picture, reports the total number of chats, and stamps the instance
    with the time the call took. *)
Theorem getChats_without_pictures (instanceId : string) (limit offset : Z)
    (w : World) (inst : Instance) (t : Z) (allChats : list Chat)
    (rest : list Reply) :
  JsMap.get instanceId (instances w) = Some inst ->
  status inst = ready ->
  script w = mkReply t (Resolves (VChats allChats)) :: rest ->
  exists res w',
    getChats instanceId false limit offset w = (Returned res, w')
    /\ script w' = rest
    /\ profilePicCache w' = profilePicCache w
    /\ batchTimerFirst w' = batchTimerFirst w
    /\ Forall (fun d => profilePicUrl d = None) (contacts res ++ groups res)
    /\ profilePicsIncluded res = false
    /\ totalChats res = Z.of_nat (length allChats)
    /\ JsMap.get instanceId (instances w')
       = Some (set_lastActivity (now w + t) inst).
Proof.
  intros Hget Hready Hscript.
  unfold getChats. rewrite rethrow_eq.
  pose proof (executeWithRecovery_cases instanceId
                (getChatsOperation instanceId false limit offset) w) as H.
  unfold getChatsOperation at 1 in H. rewrite Hget, Hready in H.
  simpl negb in H. cbv iota in H.
  unfold bind, awaitClient, nextReply in H. rewrite Hscript in H.
  simpl in H. rewrite H. eexists _, _. split; [reflexivity|].
  world_simpl. rewrite get_adjust_same, Hget. simpl.
  repeat split.
  apply Forall_forall. intros d Hd. apply elem_of_app in Hd as [Hd | Hd];
    apply list_elem_of_fmap in Hd as (d0 & -> & _); reflexivity.
Qed.

Lemma getChats_without_pictures_witness :
  exists res w',
    getChats "a" false 3 2 listingWorld = (Returned res, w')
    /\ script w' = []
    /\ profilePicsIncluded res = false
    /\ totalChats res = Z.of_nat (length tenChats).
Proof.
  destruct (getChats_without_pictures "a" 3 2 listingWorld
              (sampleInstance "a" ready true None) 10 tenChats [])
    as (res & w' & Hrun & Hscript & _ & _ & _ & Hpics & Htotal & _).
  - reflexivity.
  - reflexivity.
  - reflexivity.
  - exists res, w'. auto.
Defined.

(** X5 (routes [/chats], [/contacts], [/groups]).  The limit
    [Math.min(parseInt(q) || 50, 200)] never exceeds 200 and the offset
    [Math.max(parseInt(q) || 0, 0)] is never negative; the limit is below 1
    exactly when the query is a negative number, and the offset is 0 exactly
    when the query is missing, not a number, or at most 0. *)
Theorem chatsLimit_range (limitQuery offsetQuery : option Z) :
  chatsLimit limitQuery <= 200
  /\ 0 <= chatsOffset offsetQuery
  /\ (chatsLimit limitQuery < 1 <-> exists z, limitQuery = Some z /\ z < 0)
  /\ (chatsOffset offsetQuery = 0
      <-> offsetQuery = None \/ exists z, offsetQuery = Some z /\ z <= 0).
Proof.
  unfold chatsLimit, chatsOffset, orDefault.
  split; [lia|]. split; [lia|]. split.
  - destruct limitQuery as [z|].
    + destruct (z =? 0) eqn:E.
      * apply Z.eqb_eq in E. subst z. split; [lia|].
        intros (z & Hz & Hlt). injection Hz as <-. lia.
      * apply Z.eqb_neq in E. split.
        -- intros H. exists z. split; [reflexivity|lia].
        -- intros (z' & Hz & Hlt). injection Hz as <-. lia.
    + split; [lia|]. intros (z & Hz & _). discriminate.
  - destruct offsetQuery as [z|].
    + destruct (z =? 0) eqn:E.
      * apply Z.eqb_eq in E. subst z. split; [|lia].
        intros _. right. exists 0. split; [reflexivity|lia].
      * apply Z.eqb_neq in E. split.
        -- intros H. right. exists z. split; [reflexivity|lia].
        -- intros [H | (z' & Hz & Hle)]; [discriminate|]. injection Hz as <-. lia.
    + split; [now left|lia].
Qed.

(** ** Guards and recovery of the wrapped operations *)

Lemma executeWithRecovery_unregistered {R} (instanceId message : string)
    (operation : Async R) (w : World) :
  JsMap.get instanceId (instances w) = None ->
  operation w = (Threw message, w) ->
  executeWithRecovery instanceId operation w
  = (Threw (guardError instanceId message), w).
Proof.
  intros Hget Hop. pose proof (executeWithRecovery_cases instanceId operation w) as H.
  rewrite Hop in H. unfold guardError.
  destruct (isSessionError message); [|exact H].
  unfold attemptSessionRecovery in H. rewrite Hget in H. exact H.
Qed.

(** X6 ([sendMessage], [getChats], [getContacts], [getGroups]).  On
    an id that is not registered the four operations throw and leave the
    world as it is.  The error is the not-found message, unless that message,
    which embeds the id, contains one of the signatures of a session error:
    then [executeWithRecovery] starts a recovery, which fails at once, and
    the recovery-failed message is thrown instead. *)
Theorem unregistered_operation_error (instanceId : string) (w : World) :
  JsMap.get instanceId (instances w) = None ->
  let error := guardError instanceId (notFoundMessage instanceId) in
  (forall to message, sendMessage instanceId to message w = (Threw error, w))
  /\ (forall includeProfilePics limit offset,
        getChats instanceId includeProfilePics limit offset w = (Threw error, w)
        /\ getContacts instanceId includeProfilePics limit offset w = (Threw error, w)
        /\ getGroups instanceId includeProfilePics limit offset w = (Threw error, w)).
Proof.
  intros Hget error. subst error.
  destruct (operation_on_unregistered instanceId w Hget) as (_ & Hsend & Hchats).
  split.
  - intros to message. unfold sendMessage. rewrite rethrow_eq.
    apply executeWithRecovery_unregistered; auto.
  - intros p l o.
    assert (H : getChats instanceId p l o w
                = (Threw (guardError instanceId (notFoundMessage instanceId)), w)).
    { unfold getChats. rewrite rethrow_eq.
      apply executeWithRecovery_unregistered; auto. }
    split; [exact H|].
    unfold getContacts, getGroups. rewrite !rethrow_eq. unfold bind.
    rewrite H. now split.
Qed.

Lemma unregistered_operation_error_witness :
  sendMessage "Session closed" "491701234567" "hello" initialWorld
  = (Threw (recoveryFailedMessage "Session closed"), initialWorld).
Proof.
  exact (proj1 (unregistered_operation_error "Session closed" initialWorld eq_refl)
           "491701234567" "hello").
Defined.

Lemma recoverInstance_without_session (instanceId : string) (w : World) :
  sessionExists instanceId w = false ->
  recoverInstance instanceId w = (Returned tt, w).
Proof. intros H. unfold recoverInstance, tryCatch. now rewrite H. Qed.

Lemma prepareRecovery_registered (instanceId : string) (w : World) (inst : Instance) :
  JsMap.get instanceId (instances w) = Some inst ->
  let w' := prepareRecovery instanceId w in
  instances w' = JsMap.set instanceId (set_status recovering inst) (instances w)
  /\ script w' = tail (script w)
  /\ sessions w' = sessions w
  /\ nextClient w' = nextClient w
  /\ emitted w' = emitted w
  /\ timers w' = timers w
  /\ profilePicCache w' = profilePicCache w.
Proof.
  intros Hget. unfold prepareRecovery, tryCatch, bind, awaitClient, ret.
  world_simpl. unfold JsMap.adjust. rewrite Hget.
  destruct (answer (replyAt 0 _)); simpl; repeat split.
Qed.

(** X7 ([executeWithRecovery], [attemptSessionRecovery],
    [recoverInstance]).  A ready instance that has no session directory and
    whose client rejects an operation with a session error: the recovery marks
    it [recovering] and destroys the client, [recoverInstance] returns
    without building a client because the directory is missing, the recovery
    counts as successful, and the second run of the operation fails on the
    readiness guard.  The caller gets the not-ready error for status
    [recovering]; the record stays registered as [recovering] with its old
    client, and neither the health monitor, nor the sweep, nor the keep-alive
    tick touches it. *)
Theorem recovery_without_session_directory (instanceId to message : string)
    (w : World) (inst : Instance) (t : Z) (error : string) (rest : list Reply) :
  JsMap.get instanceId (instances w) = Some inst ->
  status inst = ready ->
  script w = mkReply t (Rejects error) :: rest ->
  isSessionError error = true ->
  sessions w !! instanceId = None ->
  exists w',
    sendMessage instanceId to message w
    = (Threw (notReadyMessage instanceId recovering), w')
    /\ JsMap.get instanceId (instances w') = Some (set_status recovering inst)
    /\ script w' = tail rest
    /\ nextClient w' = nextClient w
    /\ eligibleIn w' instanceId = false
    /\ healthVisit w' instanceId = w'
    /\ sweepVisit w' instanceId = w'
    /\ keepAliveTick instanceId w' = w'.
Proof.
  intros Hget Hready Hscript Herr Hdir.
  unfold sendMessage. rewrite rethrow_eq.
  pose proof (executeWithRecovery_cases instanceId
                (sendMessageOperation instanceId to message) w) as H.
  unfold sendMessageOperation at 1 in H. rewrite Hget, Hready in H.
  simpl negb in H. cbv iota in H.
  unfold bind, awaitClient, nextReply in H. rewrite Hscript in H.
  simpl in H. rewrite Herr in H.
  set (w1 := sleep t (set_script rest w)) in *.
  assert (Hget1 : JsMap.get instanceId (instances w1) = Some inst) by exact Hget.
  unfold attemptSessionRecovery in H. rewrite Hget1 in H.
  destruct (prepareRecovery_registered instanceId w1 inst Hget1)
    as (Hi & Hs & Hd & Hc & _).
  rewrite recoverInstance_without_session in H
    by (unfold sessionExists; rewrite Hd; simpl; now rewrite Hdir).
  rewrite H. clear H.
  set (w3 := sleep 3000 (prepareRecovery instanceId w1)).
  assert (Hget3 : JsMap.get instanceId (instances w3)
                  = Some (set_status recovering inst)).
  { subst w3. simpl. rewrite Hi. apply get_set_same. }
  exists w3. unfold sendMessageOperation. rewrite Hget3. simpl.
  split; [reflexivity|]. split; [reflexivity|].
  split; [subst w3; simpl; now rewrite Hs|].
  split; [subst w3; simpl; now rewrite Hc|].
  unfold eligibleIn, healthVisit, sweepVisit, keepAliveTick. rewrite Hget3.
  repeat split.
Qed.

Lemma recovery_without_session_directory_witness :
  exists w',
    sendMessage "a" "491701234567" "hello" silentWorld
    = (Threw (notReadyMessage "a" recovering), w')
    /\ JsMap.get "a" (instances w')
       = Some (set_status recovering (sampleInstance "a" ready true None))
    /\ eligibleIn w' "a" = false.
Proof.
  destruct (recovery_without_session_directory "a" "491701234567" "hello"
              silentWorld (sampleInstance "a" ready true None) 5 "Session closed"
              [mkReply 5 (Rejects "Session closed")])
    as (w' & Hrun & Hget & _ & _ & Heligible & _).
  - reflexivity.
  - reflexivity.
  - reflexivity.
  - vm_compute. reflexivity.
  - apply lookup_empty.
  - exists w'. auto.
Defined.

Lemma onReady_record (instanceId clientInfo : string) (w : World) :
  instances (onReady instanceId clientInfo w) =
  JsMap.adjust instanceId (afterReady clientInfo (now w)) (instances w).
Proof.
  unfold onReady, startKeepAlive, emit. world_simpl.
  rewrite !adjust_adjust. apply adjust_ext. intros v _. reflexivity.
Qed.

(** X8 ([setupClientEvents], the [ready] listener; [sendMessage]).
    Whatever the status of a registered instance was, after the [ready] event
    of its client the record is ready with valid authentication, no QR code,
    the keep-alive running and the activity stamp of the event; the two
    notifications are emitted, no call is made to the client, and a
    [sendMessage] that the client accepts returns the message id and the
    time stamp of the client. *)
Theorem ready_event_opens_instance (instanceId clientInfo : string) (w : World)
    (inst : Instance) :
  JsMap.get instanceId (instances w) = Some inst ->
  let w1 := run (ClientEmits instanceId (EvReady clientInfo)) w in
  JsMap.get instanceId (instances w1) = Some (afterReady clientInfo (now w) inst)
  /\ readyIn w1 instanceId = true
  /\ script w1 = script w
  /\ emitted w1 =
     (emitted w ++ [mkNotification (instanceRoom instanceId) "ready" instanceId None;
                    mkNotification None "instance_ready" instanceId None])%list
  /\ (forall to message t messageId sentAt rest,
        script w = mkReply t (Resolves (VSent messageId sentAt)) :: rest ->
        fst (sendMessage instanceId to message w1)
        = Returned (mkSent messageId sentAt)).
Proof.
  intros Hget w1. subst w1. simpl run.
  assert (H1 : JsMap.get instanceId (instances (onReady instanceId clientInfo w))
               = Some (afterReady clientInfo (now w) inst)).
  { rewrite onReady_record, get_adjust_same, Hget. reflexivity. }
  assert (Hs : script (onReady instanceId clientInfo w) = script w).
  { unfold onReady, startKeepAlive, emit. world_simpl. reflexivity. }
  split; [exact H1|]. split; [unfold readyIn; now rewrite H1|].
  split; [exact Hs|]. split.
  - unfold onReady, startKeepAlive, emit. world_simpl. now rewrite <- app_assoc.
  - intros to message t mid ts rest Hscript.
    unfold sendMessage. rewrite rethrow_eq.
    pose proof (executeWithRecovery_cases instanceId
                  (sendMessageOperation instanceId to message)
                  (onReady instanceId clientInfo w)) as H.
    unfold sendMessageOperation at 1 in H. rewrite H1 in H.
    simpl negb in H. cbv iota in H.
    unfold bind, awaitClient, nextReply in H. rewrite Hs, Hscript in H.
    simpl in H. now rewrite H.
Qed.

Lemma ready_event_opens_instance_witness :
  readyIn (run (ClientEmits "a" (EvReady "me")) strandedWorld) "a" = true
  /\ script (run (ClientEmits "a" (EvReady "me")) strandedWorld)
     = script strandedWorld.
Proof.
  destruct (ready_event_opens_instance "a" "me" strandedWorld
              (sampleInstance "a" disconnected true None) eq_refl)
    as (_ & Hready & Hscript & _).
  split; [exact Hready | exact Hscript].
Defined.

(** ** Start-up, creation and teardown *)

Lemma recoverInstance_with_session (instanceId : string) (w : World) :
  sessionExists instanceId w = true ->
  exists outcome w',
    recoverInstance instanceId w = (outcome, w')
    /\ instances w' =
       match answer (replyAt 0 w) with
       | Resolves _ => JsMap.set instanceId (recoveredRecord instanceId w) (instances w)
       | Rejects _ => JsMap.delete instanceId (instances w)
       end
    /\ script w' = tail (script w)
    /\ nextClient w' = S (nextClient w)
    /\ sessions w' = sessions w
    /\ emitted w' = emitted w
    /\ timers w' = timers w
    /\ profilePicCache w' = profilePicCache w.
Proof.
  intros Hdir. unfold recoverInstance, tryCatch. rewrite Hdir. simpl negb. cbv iota.
  unfold newClient, bind, awaitClient. rewrite nextReply_eq.
  match goal with
  | |- context [replyAt 0 ?x] => change (replyAt 0 x) with (replyAt 0 w)
  end.
  destruct (answer (replyAt 0 w)) as [v | e] eqn:Ha; simpl.
  - eexists _, _. split; [reflexivity|]. simpl. repeat split.
  - eexists _, _. split; [reflexivity|].
    unfold JsMap.has. rewrite get_set_same. simpl.
    repeat split.
    clear. induction (instances w) as [|[k v] m IH]; simpl.
    + now rewrite String.eqb_refl.
    + destruct (String.eqb instanceId k) eqn:E; simpl; rewrite E; [reflexivity|].
      now rewrite IH.
Qed.

Lemma swallow_snd {A} (c : Async A) (a : A) (w : World) :
  snd (tryCatch c (fun _ => ret a) w) = snd (c w).
Proof. unfold tryCatch, ret. now destruct (c w) as [[x | e] w1]. Qed.

Lemma sessionExists_sessions (instanceId : string) (w w' : World) :
  sessions w' = sessions w -> sessionExists instanceId w' = sessionExists instanceId w.
Proof. unfold sessionExists. now intros ->. Qed.

Lemma hasValidSession_sessions (instanceId : string) (w w' : World) :
  sessions w' = sessions w -> hasValidSession instanceId w' = hasValidSession instanceId w.
Proof. unfold hasValidSession. now intros ->. Qed.

Lemma replyAt_drop (n k : nat) (w w' : World) :
  script w' = drop k (script w) -> replyAt n w' = replyAt (k + n) w.
Proof.
  unfold replyAt. intros ->. revert n. generalize (script w) as l.
  induction k as [|k IH]; intros l n; [now rewrite drop_0|].
  destruct l as [|r l]; simpl; [now destruct n|]. apply IH.
Qed.

(** X9 ([recoverExistingSessions], [recoverInstance]).  The session
    directories are recovered one after the other, and a directory whose
    client fails to start does not stop the others.  For a listing without
    repetition: the [k]-th directory is registered afterwards exactly when
    the [k]-th client starts, with the [k]-th fresh client, marked recovered,
    without a reconnection counter, and with status and authentication flags
    as the session files suggest; when its client fails to start it is not
    registered.  Ids outside the listing keep their records, one client is
    built and one call made per directory, and neither the disk nor the
    socket is touched. *)
Theorem recoverExistingSessions_isolates (sessionDirs : list string) :
  forall w : World,
    NoDup sessionDirs ->
    (forall instanceId, instanceId ∈ sessionDirs -> sessionExists instanceId w = true) ->
    let w' := recoverExistingSessions sessionDirs w in
    (forall (k : nat) instanceId,
       sessionDirs !! k = Some instanceId ->
       match answer (replyAt k w) with
       | Resolves _ =>
           exists inst,
             JsMap.get instanceId (instances w') = Some inst
             /\ client inst = (nextClient w + k)%nat
             /\ status inst =
                (if hasValidSession instanceId w then authenticating else recovering)
             /\ isRecovered inst = true
             /\ hasValidAuth inst = hasValidSession instanceId w
             /\ skipQR inst = hasValidSession instanceId w
             /\ reconnectAttempts inst = None
       | Rejects _ => JsMap.get instanceId (instances w') = None
       end)
    /\ (forall other,
          other ∉ sessionDirs ->
          JsMap.get other (instances w') = JsMap.get other (instances w))
    /\ script w' = drop (length sessionDirs) (script w)
    /\ nextClient w' = (nextClient w + length sessionDirs)%nat
    /\ sessions w' = sessions w
    /\ emitted w' = emitted w.
Proof.
  induction sessionDirs as [|d dirs IH]; intros w Hnd Hdirs; simpl.
  - split; [intros k id Hk; discriminate|].
    repeat split; auto.
  - apply NoDup_cons in Hnd as [Hd Hnd].
    unfold recoverExistingSessions. simpl. rewrite swallow_snd.
    destruct (recoverInstance_with_session d w) as
      (o & w1 & Hrun & Hinst & Hscript & Hclient & Hsess & Hemit & _ & _).
    { apply Hdirs. left. }
    rewrite Hrun. simpl snd.
    specialize (IH w1 Hnd).
    destruct IH as (IHk & IHother & IHscript & IHclient & IHsess & IHemit).
    { intros id Hid. rewrite (sessionExists_sessions id w w1 Hsess).
      apply Hdirs. now right. }
    unfold recoverExistingSessions in *.
    split; [|split; [|split; [|split; [|split]]]].
    + intros [|k] id Hk.
      * injection Hk as <-. simpl in *. rewrite IHother by exact Hd. rewrite Hinst.
        destruct (answer (replyAt 0 w)).
        -- rewrite get_set_same. eexists. split; [reflexivity|].
           simpl. repeat split. lia.
        -- apply get_delete_same.
      * simpl in Hk. specialize (IHk k id Hk).
        rewrite (replyAt_drop k 1 w w1) in IHk
          by (rewrite Hscript; now destruct (script w)).
        simpl in IHk.
        rewrite (hasValidSession_sessions id w w1 Hsess) in IHk.
        destruct (answer (replyAt (S k) w)); [|exact IHk].
        destruct IHk as (inst & Hget & Hc & Hrest). exists inst.
        split; [exact Hget|]. split; [lia|exact Hrest].
    + intros other Hother. apply not_elem_of_cons in Hother as [Hne Hother].
      rewrite IHother by exact Hother. rewrite Hinst.
      destruct (answer (replyAt 0 w)).
      * now apply get_set_other.
      * now apply get_delete_other.
    + rewrite IHscript, Hscript. destruct (script w); simpl; [now rewrite drop_nil|reflexivity].
    + rewrite IHclient, Hclient. lia.
    + congruence.
    + congruence.
Qed.

Lemma recoverExistingSessions_isolates_witness :
  JsMap.get "b" (instances (recoverExistingSessions ["a"; "b"; "c"] startupWorld))
  = None
  /\ (exists inst,
        JsMap.get "c"
          (instances (recoverExistingSessions ["a"; "b"; "c"] startupWorld))
        = Some inst
        /\ client inst = 2%nat
        /\ isRecovered inst = true)
  /\ script (recoverExistingSessions ["a"; "b"; "c"] startupWorld) = [].
Proof.
  destruct (recoverExistingSessions_isolates ["a"; "b"; "c"] startupWorld)
    as (Hk & _ & Hscript & _).
  - apply (bool_decide_unpack (NoDup ["a"; "b"; "c"])). vm_compute. exact I.
  - intros instanceId Hin.
    repeat (apply elem_of_cons in Hin as [-> | Hin]; [vm_compute; reflexivity|]).
    destruct (not_elem_of_nil _ Hin).
  - split; [exact (Hk 1%nat "b" eq_refl)|]. split; [|exact Hscript].
    destruct (Hk 2%nat "c" eq_refl) as (inst & Hget & Hclient & _ & Hrec & _).
    exists inst. split; [exact Hget|]. split; [exact Hclient | exact Hrec].
Defined.

Lemma delete_set_fresh {V} (k : string) (v : V) (m : JsMap.t V) :
  JsMap.get k m = None -> JsMap.delete k (JsMap.set k v m) = m.
Proof.
  induction m as [|[k' v'] m IH]; simpl.
  - now rewrite String.eqb_refl.
  - destruct (String.eqb k k') eqn:E; [discriminate|]. intros H. simpl. rewrite E.
    now rewrite IH.
Qed.

(** X10 ([createInstance], [destroyInstance]).  Creating an instance
    under a free, non-empty id and destroying it again, with a client that
    accepts the teardown: the creation registers an [initializing] record
    with a fresh client and no flags set; after the destruction the registry
    is the one before the creation, entry for entry and in the same order;
    no session directory is left under the id, one [instance_destroyed]
    notification is emitted, and the client handle is used up. *)
Theorem create_then_destroy (instanceId uuid : string) (w : World) (t : Z)
    (v : Value) (rest : list Reply) :
  instanceId <> EmptyString ->
  JsMap.get instanceId (instances w) = None ->
  script w = mkReply t (Resolves v) :: rest ->
  let created := createInstance (Some instanceId) uuid w in
  let destroyed := destroyInstance instanceId (snd created) in
  fst created = Returned (mkCreated instanceId initializing)
  /\ JsMap.get instanceId (instances (snd created))
     = Some (mkInstance instanceId (nextClient w) initializing None None
               (now w) (now w) false false false None false false)
  /\ fst destroyed = Returned tt
  /\ instances (snd destroyed) = instances w
  /\ sessions (snd destroyed) = base.delete instanceId (sessions w)
  /\ emitted (snd destroyed)
     = (emitted w ++ [mkNotification None "instance_destroyed" instanceId None])%list
  /\ nextClient (snd destroyed) = S (nextClient w).
Proof.
  intros Hne Hfresh Hscript created destroyed. subst created destroyed.
  unfold createInstance, tryCatch, effectiveId.
  destruct (String.eqb instanceId EmptyString) eqn:E;
    [apply String.eqb_eq in E; contradiction|].
  unfold JsMap.has. rewrite Hfresh. simpl.
  rewrite get_set_same.
  unfold destroyInstance, tryCatch. simpl. rewrite get_set_same.
  unfold bind, awaitClient, nextReply. simpl. rewrite Hscript. simpl.
  rewrite delete_set_fresh by exact Hfresh.
  unfold sessionExists. simpl.
  destruct (sessions w !! instanceId) eqn:Hs; simpl; repeat split; auto.
  symmetry. apply delete_id. exact Hs.
Qed.

Lemma create_then_destroy_witness :
  instances
    (snd (destroyInstance "a"
            (snd (createInstance (Some "a") "00000000-0000-4000-8000-000000000000"
                    freshWorld))))
  = instances freshWorld.
Proof.
  destruct (create_then_destroy "a" "00000000-0000-4000-8000-000000000000"
              freshWorld 5 VUnit [])
    as (_ & _ & _ & Hregistry & _).
  - discriminate.
  - reflexivity.
  - reflexivity.
  - exact Hregistry.
Defined.

(** X11 ([destroyInstance]).  On a registered instance the outcome is
    decided by [client.destroy()] alone.  When it resolves, the entry and the
    session directory are gone and one [instance_destroyed] notification is
    emitted.  When it rejects, the error is rethrown and nothing but the
    clock and the script of the client has changed: the entry, the session
    directory and the socket are as before. *)
Theorem destroyInstance_outcomes (instanceId : string) (w : World)
    (inst : Instance) (r : Reply) (rest : list Reply) :
  JsMap.get instanceId (instances w) = Some inst ->
  script w = r :: rest ->
  match answer r with
  | Resolves _ =>
      exists w',
        destroyInstance instanceId w = (Returned tt, w')
        /\ JsMap.get instanceId (instances w') = None
        /\ sessions w' !! instanceId = None
        /\ emitted w' =
           (emitted w ++ [mkNotification None "instance_destroyed" instanceId None])%list
  | Rejects message =>
      exists w',
        destroyInstance instanceId w = (Threw message, w')
        /\ instances w' = instances w
        /\ sessions w' = sessions w
        /\ emitted w' = emitted w
  end.
Proof.
  intros Hreg Hscript. destruct r as [t [v | message]]; simpl.
  - exact (destroyInstance_teardown_resolves instanceId w inst t v rest Hreg Hscript).
  - rewrite (destroyInstance_teardown_throws instanceId w inst t message rest Hreg Hscript).
    eexists. split; [reflexivity|]. repeat split.
Qed.

Lemma destroyInstance_outcomes_witness :
  exists w',
    destroyInstance "a" brokenTeardownWorld
    = (Threw "Protocol error (Browser.close): Target closed", w')
    /\ instances w' = instances brokenTeardownWorld
    /\ sessions w' = sessions brokenTeardownWorld
    /\ emitted w' = emitted brokenTeardownWorld.
Proof.
  exact (destroyInstance_outcomes "a" brokenTeardownWorld
           (sampleInstance "a" disconnected true None)
           (mkReply 5 (Rejects "Protocol error (Browser.close): Target closed")) []
           eq_refl eq_refl).
Defined.

(** X12 ([getInstancesStatus], [getInstanceStatus]).  The array has one
    element per registered id, in the order of registration, and each element
    carries what [getInstanceStatus] reports for its id: status, info, both
    time stamps and the two flags.  Conversely every id [getInstanceStatus]
    knows has its element.  The registry holds each key once, as a JavaScript
    [Map] does. *)
Theorem getInstancesStatus_lists_registry (w : World) :
  NoDup (JsMap.keys (instances w)) ->
  map entry_instanceId (getInstancesStatus w) = JsMap.keys (instances w)
  /\ (forall entry,
        entry ∈ getInstancesStatus w ->
        exists inst,
          getInstanceStatus (entry_instanceId entry) w = Some inst
          /\ entry_status entry = status inst
          /\ entry_info entry = info inst
          /\ entry_createdAt entry = createdAt inst
          /\ entry_lastActivity entry = lastActivity inst
          /\ entry_isRecovered entry = isRecovered inst
          /\ entry_hasValidAuth entry = hasValidAuth inst)
  /\ (forall instanceId inst,
        getInstanceStatus instanceId w = Some inst ->
        exists entry,
          entry ∈ getInstancesStatus w
          /\ entry_instanceId entry = instanceId /\ entry_status entry = status inst).
Proof.
  unfold getInstancesStatus, getInstanceStatus.
  generalize (instances w) as m. clear w.
  induction m as [|[k v] m IH]; intros Hnd; simpl.
  - split; [reflexivity|]. split.
    + intros e He. inversion He.
    + intros id inst H. discriminate.
  - simpl in Hnd. apply NoDup_cons in Hnd as [Hk Hnd].
    destruct (IH Hnd) as (IHk & IHe & IHg).
    split; [now rewrite IHk|]. split.
    + intros e He. apply elem_of_cons in He as [-> | He].
      * simpl. rewrite String.eqb_refl. exists v. repeat split.
      * destruct (IHe e He) as (inst & Hget & Hrest).
        assert (Hne : entry_instanceId e <> k).
        { intros <-. apply Hk. apply get_Some_key in Hget. exact Hget. }
        apply String.eqb_neq in Hne. rewrite Hne. now exists inst.
    + intros id inst Hget. destruct (String.eqb id k) eqn:E.
      * injection Hget as <-. apply String.eqb_eq in E. subst id.
        eexists. split; [left|]. now split.
      * destruct (IHg id inst Hget) as (e & He & Hid & Hst).
        exists e. split; [now right|]. now split.
Qed.

Lemma getInstancesStatus_lists_registry_witness :
  map entry_instanceId (getInstancesStatus mixedWorld) = ["a"; "b"].
Proof.
  refine (proj1 (getInstancesStatus_lists_registry mixedWorld _)).
  apply (bool_decide_unpack (NoDup ["a"; "b"])). vm_compute. exact I.
Defined.

(** ** Isolation between instances *)

Lemma apart_refl (instanceId : string) (m : JsMap.t Instance) : apart instanceId m m.
Proof. now intros k _. Qed.

Lemma apart_eq (instanceId : string) (m m' : JsMap.t Instance) :
  m' = m -> apart instanceId m m'.
Proof. intros ->. apply apart_refl. Qed.

Lemma apart_trans (instanceId : string) (m1 m2 m3 : JsMap.t Instance) :
  apart instanceId m1 m2 -> apart instanceId m2 m3 -> apart instanceId m1 m3.
Proof. intros H1 H2 k Hk. now rewrite H2, H1. Qed.

Lemma apart_adjust (instanceId : string) (f : Instance -> Instance)
    (m : JsMap.t Instance) :
  apart instanceId m (JsMap.adjust instanceId f m).
Proof. intros k Hk. apply get_adjust_other. congruence. Qed.

Lemma apart_set (instanceId : string) (v : Instance) (m : JsMap.t Instance) :
  apart instanceId m (JsMap.set instanceId v m).
Proof. intros k Hk. apply get_set_other. congruence. Qed.

Lemma apart_delete (instanceId : string) (m : JsMap.t Instance) :
  apart instanceId m (JsMap.delete instanceId m).
Proof. intros k Hk. apply get_delete_other. congruence. Qed.

Lemma apart_recoverInstance (instanceId : string) (w : World) :
  apart instanceId (instances w) (instances (snd (recoverInstance instanceId w))).
Proof.
  destruct (recoverInstance_effect instanceId w)
    as [-> | [(fresh & _ & ->) | (fresh & _ & ->)]].
  - apply apart_refl.
  - apply apart_set.
  - apply (apart_trans _ _ (JsMap.set instanceId fresh (instances w)));
      [apply apart_set | apply apart_delete].
Qed.

Lemma apart_attemptSessionRecovery (instanceId : string) (w : World) :
  apart instanceId (instances w) (instances (snd (attemptSessionRecovery instanceId w))).
Proof.
  unfold attemptSessionRecovery.
  destruct (JsMap.get instanceId (instances w)) as [i|]; [|apply apart_refl].
  assert (Hp : apart instanceId (instances w)
                 (instances (prepareRecovery instanceId w))).
  { unfold prepareRecovery, tryCatch, bind, ret. rewrite updateInstance_eq.
    set (w1 := set_instances _ w).
    pose proof (instances_awaitClient w1) as Hi.
    destruct (awaitClient w1) as [[v | e] w2]; simpl in *; rewrite Hi; subst w1; simpl;
      apply apart_adjust. }
  pose proof (apart_recoverInstance instanceId (prepareRecovery instanceId w)) as Hr.
  destruct (recoverInstance instanceId (prepareRecovery instanceId w)) as [[[]|e] w3];
    simpl in *; eapply apart_trans; eassumption.
Qed.

Lemma apart_executeWithRecovery {R} (instanceId : string) (operation : Async R) :
  (forall w, apart instanceId (instances w) (instances (snd (operation w)))) ->
  forall w,
    apart instanceId (instances w)
      (instances (snd (executeWithRecovery instanceId operation w))).
Proof.
  intros Hop w. unfold executeWithRecovery, tryCatch.
  pose proof (Hop w) as H1.
  destruct (operation w) as [[r | e] w1]; simpl in *; [exact H1|].
  destruct (isSessionError e); [|exact H1].
  pose proof (apart_attemptSessionRecovery instanceId w1) as H2.
  destruct (attemptSessionRecovery instanceId w1) as [[|] w2]; simpl in *.
  - eapply apart_trans; [exact H1|]. eapply apart_trans; [exact H2|].
    apply (Hop (sleep 3000 w2)).
  - eapply apart_trans; eassumption.
Qed.

Lemma apart_sendMessageOperation (instanceId to message : string) (w : World) :
  apart instanceId (instances w)
    (instances (snd (sendMessageOperation instanceId to message w))).
Proof.
  unfold sendMessageOperation.
  destruct (JsMap.get instanceId (instances w)) as [i|]; [|apply apart_refl].
  destruct (negb _); [apply apart_refl|].
  unfold bind. pose proof (instances_awaitClient w) as Hi.
  destruct (awaitClient w) as [[v | e] w1]; simpl in *; [|now apply apart_eq].
  destruct v; simpl; try (now apply apart_eq).
  rewrite updateInstance_eq. simpl. rewrite Hi. apply apart_adjust.
Qed.

Lemma apart_getChatsOperation (instanceId : string) (includeProfilePics : bool)
    (limit offset : Z) (w : World) :
  apart instanceId (instances w)
    (instances (snd (getChatsOperation instanceId includeProfilePics limit offset w))).
Proof.
  unfold getChatsOperation.
  destruct (JsMap.get instanceId (instances w)) as [i|]; [|apply apart_refl].
  destruct (negb _); [apply apart_refl|].
  unfold bind. pose proof (instances_awaitClient w) as Hi.
  destruct (awaitClient w) as [[v | e] w1]; simpl in *; [|now apply apart_eq].
  destruct v; simpl; try (now apply apart_eq).
  match goal with
  | |- context [if ?c then getMultipleProfilePics ?i ?ids ?bs ?tm ?w1 else _] =>
      destruct c;
      [pose proof (instances_getMultipleProfilePics i ids bs tm w1) as Hpics;
       destruct (getMultipleProfilePics i ids bs tm w1) as [[m w2]|] |]
  end; simpl.
  - rewrite updateInstance_eq. simpl.
    rewrite (Hpics w2 m (chatBatchSize_positive _) eq_refl), Hi.
    apply apart_adjust.
  - now apply apart_eq.
  - rewrite updateInstance_eq. simpl. rewrite Hi. apply apart_adjust.
Qed.

(** X13 (every method addressed to one instance).  A step that is
    addressed to an instance, that is a call of [createInstance],
    [recoverInstance], [initializeInstance], [destroyInstance], the reconnect
    route, [sendMessage] or [getChats] with their recovery, an event of its
    client, its keep-alive tick or one of its reconnection timers, neither
    changes, nor adds, nor removes the record of any other id. *)
Theorem step_leaves_other_instances (a : Action) (w : World)
    (instanceId other : string) :
  target w a = Some instanceId ->
  other <> instanceId ->
  JsMap.get other (instances (run a w)) = JsMap.get other (instances w).
Proof.
  intros Htarget Hother. revert other Hother.
  change (apart instanceId (instances w) (instances (run a w))).
  destruct a as [cid uuid | rid | iid | did | eid ev | | kid | | n | rrid
                 | sid to message | gid pics lq oq | replies races disk clock];
    simpl in Htarget; try discriminate; try (injection Htarget as <-); simpl run.
  - destruct (createInstance_effect cid uuid w) as [-> | (_ & fresh & _ & _ & ->)];
      [apply apart_refl | apply apart_set].
  - apply apart_recoverInstance.
  - rewrite initializeInstance_effect. apply apart_refl.
  - destruct (destroyInstance_effect did w) as [-> | ->];
      [apply apart_refl | apply apart_delete].
  - destruct (onClientEvent_effect eid ev w) as (f & -> & _). apply apart_adjust.
  - destruct (keepAliveTick_effect kid w) as (f & -> & _). apply apart_adjust.
  - destruct (timers w !! n) as [[tid | tid]|] eqn:Ht; [| |discriminate];
      injection Htarget as <-; intros other Hother; simpl.
    + now rewrite scheduledRetry_frame by congruence.
    + now rewrite attemptAutoReconnection_frame by congruence.
  - destruct (reconnectRoute_effect rrid w) as (f & -> & _). apply apart_adjust.
  - unfold sendMessage. rewrite instances_rethrow.
    apply apart_executeWithRecovery. intros w0. apply apart_sendMessageOperation.
  - unfold getChats. rewrite instances_rethrow.
    apply apart_executeWithRecovery. intros w0. apply apart_getChatsOperation.
Qed.

Lemma step_leaves_other_instances_witness :
  JsMap.get "b" (instances (run (Destroy "a") mixedWorld))
  = JsMap.get "b" (instances mixedWorld).
Proof.
  apply (step_leaves_other_instances (Destroy "a") mixedWorld "a" "b").
  - reflexivity.
  - discriminate.
Defined.

(** ** Status values along a run *)

Lemma settled_adjust (k : string) (f : Instance -> Instance) (m : JsMap.t Instance) :
  (forall i, overwritten (status i) = false -> overwritten (status (f i)) = false) ->
  settled m -> settled (JsMap.adjust k f m).
Proof.
  intros Hf Hm k' i' Hget.
  apply get_adjust_cases in Hget as (i & Hi & [-> | [_ ->]]).
  - eapply Hm, Hi.
  - apply Hf. eapply Hm, Hi.
Qed.

Lemma settled_set (k : string) (v : Instance) (m : JsMap.t Instance) :
  overwritten (status v) = false -> settled m -> settled (JsMap.set k v m).
Proof.
  intros Hv Hm k' i' Hget. destruct (String.eqb_spec k k') as [<- | Hne].
  - rewrite get_set_same in Hget. now injection Hget as <-.
  - rewrite get_set_other in Hget by exact Hne. eapply Hm, Hget.
Qed.

Lemma settled_delete (k : string) (m : JsMap.t Instance) :
  settled m -> settled (JsMap.delete k m).
Proof.
  intros Hm k' i' Hget. destruct (String.eqb_spec k k') as [<- | Hne].
  - now rewrite get_delete_same in Hget.
  - rewrite get_delete_other in Hget by exact Hne. eapply Hm, Hget.
Qed.

Lemma settled_fold (visit : World -> string -> World) (ks : list string) :
  (forall w k, settled (instances w) -> settled (instances (visit w k))) ->
  forall w, settled (instances w) -> settled (instances (fold_left visit ks w)).
Proof.
  intros Hvisit. induction ks as [|k ks IH]; intros w Hw; simpl; [exact Hw|].
  apply IH, Hvisit, Hw.
Qed.

Lemma attemptEffect_status (w0 : World) (i : Instance) :
  overwritten (status i) = false -> overwritten (status (attemptEffect w0 i)) = false.
Proof.
  intros Hi. unfold attemptEffect.
  destruct (reconnecting i); [exact Hi|].
  destruct (_ >? _); [reflexivity|].
  destruct (comesUp _); reflexivity.
Qed.

Lemma settled_attempts (k : string) (f : Instance -> Instance) (m : JsMap.t Instance) :
  (forall i, f i = i \/ exists w0, f i = attemptEffect w0 i) ->
  settled m -> settled (JsMap.adjust k f m).
Proof.
  intros Hf. apply settled_adjust. intros i Hi.
  destruct (Hf i) as [-> | (w0 & ->)]; [exact Hi | now apply attemptEffect_status].
Qed.

Lemma settled_onClientEvent (instanceId : string) (ev : ClientEvent) (w : World) :
  settled (instances w) -> settled (instances (onClientEvent instanceId ev w)).
Proof.
  destruct ev; unfold onClientEvent, onQr, onAuthenticated, onAuthFailure,
    onDisconnected, onReady, onMessage, startKeepAlive, stopKeepAlive;
    world_simpl; rewrite ?adjust_adjust; apply settled_adjust; intros i Hi; simpl;
    try reflexivity; exact Hi.
Qed.

Lemma settled_healthVisit (w : World) (instanceId : string) :
  settled (instances w) -> settled (instances (healthVisit w instanceId)).
Proof.
  intros Hw. unfold healthVisit.
  destruct (JsMap.get instanceId (instances w)) as [inst|]; [|exact Hw].
  destruct (status_eqb (status inst) ready); [|exact Hw].
  pose proof (instances_checkSessionHealth instanceId w) as Hi.
  destruct (checkSessionHealth instanceId w) as [[|] w1]; simpl in Hi;
    unfold setTimeout; world_simpl; rewrite Hi;
    apply settled_adjust; auto.
Qed.

Lemma settled_keepAliveTick (instanceId : string) (w : World) :
  settled (instances w) -> settled (instances (keepAliveTick instanceId w)).
Proof.
  intros Hw. unfold keepAliveTick.
  destruct (JsMap.get instanceId (instances w)) as [inst|]; [|exact Hw].
  destruct (status_eqb (status inst) ready); [|exact Hw].
  pose proof (instances_awaitClient w) as Hi.
  destruct (awaitClient w) as [[v | e] w1]; simpl in Hi.
  - world_simpl. rewrite Hi. apply settled_adjust; auto.
  - pose proof (instances_checkSessionHealth instanceId (sleep 500 w1)) as Hi2.
    destruct (checkSessionHealth instanceId (sleep 500 w1)) as [isHealthy w2].
    simpl in Hi2. rewrite Hi in Hi2.
    destruct (JsMap.get instanceId (instances w2)) as [inst2|]; [|now rewrite Hi2].
    destruct (negb isHealthy && status_eqb (status inst2) ready); [|now rewrite Hi2].
    unfold setTimeout. world_simpl. rewrite Hi2. apply settled_adjust; auto.
Qed.

Lemma settled_recoverInstance (instanceId : string) (w : World) :
  settled (instances w) -> settled (instances (snd (recoverInstance instanceId w))).
Proof.
  intros Hw.
  unfold recoverInstance, tryCatch, bind, ret, awaitClient, newClient.
  destruct (sessionExists instanceId w); simpl; [|exact Hw].
  rewrite nextReply_eq. simpl.
  set (fresh := mkInstance instanceId _ _ _ _ _ _ _ _ _ _ _ _).
  assert (Hfresh : overwritten (status fresh) = false).
  { unfold fresh. simpl. now destruct (hasValidSession _ _). }
  destruct (answer (replyAt 0 _)); simpl.
  - now apply settled_set.
  - unfold JsMap.has. rewrite get_set_same. simpl.
    apply settled_delete. now apply settled_set.
Qed.

Lemma settled_attemptSessionRecovery (instanceId : string) (w : World) :
  settled (instances w) ->
  settled (instances (snd (attemptSessionRecovery instanceId w))).
Proof.
  intros Hw. unfold attemptSessionRecovery.
  destruct (JsMap.get instanceId (instances w)) as [i|]; [|exact Hw].
  assert (Hp : settled (instances (prepareRecovery instanceId w))).
  { unfold prepareRecovery, tryCatch, bind, ret. rewrite updateInstance_eq.
    set (w1 := set_instances _ w).
    pose proof (instances_awaitClient w1) as Hi.
    destruct (awaitClient w1) as [[v | e] w2]; simpl in *; rewrite Hi; subst w1; simpl;
      apply settled_adjust; auto. }
  pose proof (settled_recoverInstance instanceId _ Hp) as Hr.
  destruct (recoverInstance instanceId (prepareRecovery instanceId w)) as [[[]|e] w3];
    exact Hr.
Qed.

Lemma settled_executeWithRecovery {R} (instanceId : string) (operation : Async R) :
  (forall w, settled (instances w) -> settled (instances (snd (operation w)))) ->
  forall w,
    settled (instances w) ->
    settled (instances (snd (executeWithRecovery instanceId operation w))).
Proof.
  intros Hop w Hw. unfold executeWithRecovery, tryCatch.
  pose proof (Hop w Hw) as H1.
  destruct (operation w) as [[r | e] w1]; simpl in *; [exact H1|].
  destruct (isSessionError e); [|exact H1].
  pose proof (settled_attemptSessionRecovery instanceId w1 H1) as H2.
  destruct (attemptSessionRecovery instanceId w1) as [[|] w2]; simpl in *.
  - apply (Hop (sleep 3000 w2)). exact H2.
  - exact H2.
Qed.

Lemma settled_sendMessageOperation (instanceId to message : string) (w : World) :
  settled (instances w) ->
  settled (instances (snd (sendMessageOperation instanceId to message w))).
Proof.
  intros Hw. unfold sendMessageOperation.
  destruct (JsMap.get instanceId (instances w)) as [i|]; [|exact Hw].
  destruct (negb _); [exact Hw|].
  unfold bind. pose proof (instances_awaitClient w) as Hi.
  destruct (awaitClient w) as [[v | e] w1]; simpl in *; [|now rewrite Hi].
  destruct v; simpl; try (now rewrite Hi).
  rewrite updateInstance_eq. simpl. rewrite Hi. apply settled_adjust; auto.
Qed.

Lemma settled_getChatsOperation (instanceId : string) (includeProfilePics : bool)
    (limit offset : Z) (w : World) :
  settled (instances w) ->
  settled (instances (snd (getChatsOperation instanceId includeProfilePics
                             limit offset w))).
Proof.
  intros Hw. unfold getChatsOperation.
  destruct (JsMap.get instanceId (instances w)) as [i|]; [|exact Hw].
  destruct (negb _); [exact Hw|].
  unfold bind. pose proof (instances_awaitClient w) as Hi.
  destruct (awaitClient w) as [[v | e] w1]; simpl in *; [|now rewrite Hi].
  destruct v; simpl; try (now rewrite Hi).
  match goal with
  | |- context [if ?c then getMultipleProfilePics ?i ?ids ?bs ?tm ?w1 else _] =>
      destruct c;
      [pose proof (instances_getMultipleProfilePics i ids bs tm w1) as Hpics;
       destruct (getMultipleProfilePics i ids bs tm w1) as [[m w2]|] |]
  end; simpl.
  - rewrite updateInstance_eq. simpl.
    rewrite (Hpics w2 m (chatBatchSize_positive _) eq_refl), Hi.
    apply settled_adjust; auto.
  - now rewrite Hi.
  - rewrite updateInstance_eq. simpl. rewrite Hi. apply settled_adjust; auto.
Qed.

Lemma run_settled (a : Action) (w : World) :
  settled (instances w) -> settled (instances (run a w)).
Proof.
  intros Hw.
  destruct a as [cid uuid | rid | iid | did | eid ev | | kid | | n | rrid
                 | sid to message | gid pics lq oq | replies races disk clock];
    simpl run.
  - destruct (createInstance_effect cid uuid w) as [-> | (_ & fresh & Hst & _ & ->)];
      [exact Hw|]. apply settled_set; [now rewrite Hst | exact Hw].
  - now apply settled_recoverInstance.
  - now rewrite initializeInstance_effect.
  - destruct (destroyInstance_effect did w) as [-> | ->];
      [exact Hw | now apply settled_delete].
  - now apply settled_onClientEvent.
  - apply settled_fold; [apply settled_healthVisit | exact Hw].
  - now apply settled_keepAliveTick.
  - apply settled_fold; [|exact Hw]. intros w0 k Hw0.
    destruct (sweepVisit_effect w0 k) as (f & -> & Hf). now apply settled_attempts.
  - destruct (timers w !! n) as [t|]; [|exact Hw].
    destruct (runTimer_effect t (set_timers (base.delete n (timers w)) w))
      as (k & f & -> & Hf).
    now apply settled_attempts.
  - destruct (reconnectRoute_effect rrid w) as (f & -> & Hf). now apply settled_attempts.
  - unfold sendMessage. rewrite instances_rethrow.
    apply settled_executeWithRecovery; [|exact Hw].
    intros w0. apply settled_sendMessageOperation.
  - unfold getChats. rewrite instances_rethrow.
    apply settled_executeWithRecovery; [|exact Hw].
    intros w0. apply settled_getChatsOperation.
  - exact Hw.
Qed.

(** X14 ([setupClientEvents] and every assignment to [status]).  The
    values [auth_failed] and [qr_required] are assigned by a listener and
    overwritten before that listener, or the next listener of the same event,
    returns: in no world reachable from the constructor does a registered
    instance have one of them, so no caller of [getInstanceStatus] ever reads
    them. *)
Theorem overwritten_statuses_unobservable (w : World) (instanceId : string)
    (inst : Instance) :
  Reachable w ->
  JsMap.get instanceId (instances w) = Some inst ->
  status inst <> auth_failed /\ status inst <> qr_required.
Proof.
  intros Hreach Hget.
  assert (Hs : settled (instances w)).
  { clear Hget. induction Hreach as [|a w Hreach IH Ha].
    - intros k i H. discriminate.
    - now apply run_settled. }
  specialize (Hs instanceId inst Hget).
  split; intros E; rewrite E in Hs; discriminate.
Qed.

Lemma rejectedLogin_record :
  JsMap.get "a" (instances (replay rejectedLogin)) = Some rejectedRecord.
Proof. vm_compute. reflexivity. Qed.

Lemma overwritten_statuses_unobservable_witness :
  status rejectedRecord <> auth_failed /\ status rejectedRecord <> qr_required.
Proof.
  apply (overwritten_statuses_unobservable (replay rejectedLogin) "a" rejectedRecord).
  - apply Reachable_replay. repeat constructor. discriminate.
  - exact rejectedLogin_record.
Defined.

(** X15 ([attemptAutoReconnection]).  In every world reachable from the
    constructor, an instance whose status is [failed] has a reconnection
    counter, and the counter is above [maxReconnectAttempts]: [failed] is
    only ever assigned by the attempt that finds the bound exceeded. *)
Theorem failed_only_after_bound (w : World) (instanceId : string) (inst : Instance) :
  Reachable w ->
  JsMap.get instanceId (instances w) = Some inst ->
  status inst = failed ->
  exists n, reconnectAttempts inst = Some n /\ maxReconnectAttempts < n.
Proof.
  intros Hreach Hget Hfailed.
  destruct (Reachable_invariants w Hreach) as [_ Hinv].
  exact (Hinv instanceId inst Hget Hfailed).
Qed.

Lemma exhausting_record :
  JsMap.get "a" (instances (replay exhausting)) = Some exhaustedRecord.
Proof. vm_compute. reflexivity. Qed.

Lemma failed_only_after_bound_witness :
  exists n, reconnectAttempts exhaustedRecord = Some n /\ maxReconnectAttempts < n.
Proof.
  apply (failed_only_after_bound (replay exhausting) "a" exhaustedRecord).
  - apply Reachable_replay. repeat constructor. discriminate.
  - exact exhausting_record.
  - reflexivity.
Defined.

(** ** Reconnection paths *)

Lemma onDisconnected_record (instanceId : string) (w : World) :
  instances (onDisconnected instanceId w) =
  JsMap.adjust instanceId afterDisconnected (instances w).
Proof.
  unfold onDisconnected, stopKeepAlive, emit. world_simpl.
  rewrite !adjust_adjust. apply adjust_ext. intros v _. reflexivity.
Qed.

(** X16 ([setupClientEvents], the [disconnected] listeners;
    [startAutoReconnection]).  When the client itself reports the
    disconnection, the first listener clears [hasValidAuth] and [skipQR] and
    stops the keep-alive, the second resets the counter: the record is
    [disconnected] without valid authentication, so the sweep does not pick
    it, and a sweep leaves it exactly as the listeners left it. *)
Theorem client_disconnect_is_not_swept (instanceId reason : string) (w : World)
    (inst : Instance) :
  NoDup (JsMap.keys (instances w)) ->
  JsMap.get instanceId (instances w) = Some inst ->
  let w1 := run (ClientEmits instanceId (EvDisconnected reason)) w in
  JsMap.get instanceId (instances w1) = Some (afterDisconnected inst)
  /\ hasValidAuth (afterDisconnected inst) = false
  /\ eligibleIn w1 instanceId = false
  /\ JsMap.get instanceId (instances (run SweepTick w1))
     = Some (afterDisconnected inst).
Proof.
  intros Hnd Hget w1. subst w1. simpl run.
  assert (H1 : JsMap.get instanceId (instances (onDisconnected instanceId w))
               = Some (afterDisconnected inst)).
  { rewrite onDisconnected_record, get_adjust_same, Hget. reflexivity. }
  assert (He : eligibleIn (onDisconnected instanceId w) instanceId = false).
  { unfold eligibleIn. rewrite H1. reflexivity. }
  split; [exact H1|]. split; [reflexivity|]. split; [exact He|].
  rewrite reconnectionSweep_attempts
    by (rewrite onDisconnected_record, keys_adjust; exact Hnd).
  rewrite attemptAll_frame; [exact H1|].
  intros Hin. apply list_elem_of_filter in Hin as [Hin _]. congruence.
Qed.

Lemma client_disconnect_is_not_swept_witness :
  JsMap.get "a"
    (instances (run SweepTick
                  (run (ClientEmits "a" (EvDisconnected "NAVIGATION")) strandedWorld)))
  = Some (afterDisconnected (sampleInstance "a" disconnected true None)).
Proof.
  destruct (client_disconnect_is_not_swept "a" "NAVIGATION" strandedWorld
              (sampleInstance "a" disconnected true None))
    as (_ & _ & _ & Hswept).
  - apply NoDup_singleton.
  - reflexivity.
  - exact Hswept.
Defined.



(** X18 ([startHealthMonitoring] and [startKeepAlive], the timer they
    arm).  The reconnection armed by a failed health check calls
    [attemptAutoReconnection] without looking at the instance again:
    when the timer fires, the attempt is made whatever the status and the
    authentication flag are by then.  Below the bound the client is torn down
    and replaced by a fresh one, also for an instance that has become ready
    in between; at the bound the instance is marked [failed] and the counter
    keeps growing. *)
Theorem immediate_reconnect_ignores_status (n : nat) (instanceId : string)
    (w : World) (inst : Instance) :
  timers w !! n = Some (ImmediateReconnect instanceId) ->
  JsMap.get instanceId (instances w) = Some inst ->
  let w' := run (TimerFires n) w in
  JsMap.get instanceId (instances w') = Some (attemptEffect w inst)
  /\ (reconnecting inst = false ->
      attemptsOrZero inst < maxReconnectAttempts ->
      client (attemptEffect w inst) = nextClient w
      /\ status (attemptEffect w inst)
         = (if comesUp (replyAt 1 w) then initializing else disconnected)
      /\ nextClient w' = S (nextClient w)
      /\ script w' = tail (tail (script w)))
  /\ (reconnecting inst = false ->
      maxReconnectAttempts <= attemptsOrZero inst ->
      status (attemptEffect w inst) = failed
      /\ reconnectAttempts (attemptEffect w inst) = Some (attemptsOrZero inst + 1)).
Proof.
  intros Htimer Hget w'. subst w'. simpl run. rewrite Htimer. simpl runTimer.
  set (w0 := set_timers _ w).
  destruct (attemptAutoReconnection_spec instanceId w0) as (Hi & Hs & Hc & _).
  assert (Hget0 : JsMap.get instanceId (instances w0) = Some inst) by exact Hget.
  split; [|split].
  - rewrite Hi, get_adjust_same, Hget0. reflexivity.
  - intros Hbusy Hlt.
    assert (Hgt : (attemptsOrZero inst + 1 >? maxReconnectAttempts) = false).
    { rewrite Z.gtb_ltb. apply Z.ltb_ge. lia. }
    unfold rebuilds in Hs, Hc. rewrite Hget0, Hbusy, Hgt in Hs, Hc. simpl in Hs, Hc.
    unfold attemptEffect. rewrite Hbusy, Hgt.
    destruct (comesUp (replyAt 1 w)); simpl; auto.
  - intros Hbusy Hge.
    assert (Hgt : (attemptsOrZero inst + 1 >? maxReconnectAttempts) = true).
    { rewrite Z.gtb_ltb. apply Z.ltb_lt. lia. }
    unfold attemptEffect. rewrite Hbusy, Hgt. simpl. auto.
Qed.

Lemma immediate_reconnect_ignores_status_witness :
  JsMap.get "a" (instances (run (TimerFires 0) armedWorld))
  = Some (attemptEffect armedWorld (sampleInstance "a" ready false None))
  /\ status (attemptEffect armedWorld (sampleInstance "a" ready false None))
     = initializing.
Proof.
  destruct (immediate_reconnect_ignores_status 0 "a" armedWorld
              (sampleInstance "a" ready false None) eq_refl eq_refl)
    as (Hget & Hbelow & _).
  split; [exact Hget|].
  destruct Hbelow as (_ & Hstatus & _).
  - reflexivity.
  - reflexivity.
  - exact Hstatus.
Defined.

(** ** Health monitor and keep-alive *)

Lemma status_eqb_ready (s : Status) : status_eqb s ready = true <-> s = ready.
Proof. destruct s; split; intros H; try reflexivity; discriminate. Qed.

Lemma healthVisit_skips (w : World) (instanceId : string) :
  readyIn w instanceId = false -> healthVisit w instanceId = w.
Proof.
  unfold readyIn, healthVisit.
  destruct (JsMap.get instanceId (instances w)) as [i|]; [|reflexivity].
  now intros ->.
Qed.

Lemma checkSessionHealth_probe (instanceId : string) (w : World) (inst : Instance) :
  JsMap.get instanceId (instances w) = Some inst ->
  exists w1,
    checkSessionHealth instanceId w = (healthy (replyAt 0 w), w1)
    /\ instances w1 = instances w
    /\ script w1 = tail (script w)
    /\ timers w1 = timers w
    /\ emitted w1 = emitted w
    /\ now w1 = now w + (if took (replyAt 0 w) <? 3000 then took (replyAt 0 w) else 3000).
Proof.
  intros Hget. unfold checkSessionHealth, awaitClientWithin, healthy. rewrite Hget.
  rewrite nextReply_eq.
  destruct (took (replyAt 0 w) <? 3000).
  - destruct (answer (replyAt 0 w)) as [[]|]; simpl; eexists; repeat split.
  - simpl. eexists; repeat split.
Qed.

Lemma healthVisit_probes (w : World) (instanceId : string) (inst : Instance) :
  JsMap.get instanceId (instances w) = Some inst ->
  status inst = ready ->
  let r := replyAt 0 w in
  let w' := healthVisit w instanceId in
  instances w' = JsMap.set instanceId (probeEffect r (now w) inst) (instances w)
  /\ script w' = tail (script w)
  /\ timers w' =
     (if healthy r then timers w
      else timers w ++ [ImmediateReconnect instanceId])%list
  /\ emitted w' =
     (if healthy r then emitted w
      else emitted w ++ [mkNotification None "instance_status_changed" instanceId
                           (Some disconnected)])%list.
Proof.
  intros Hget Hready r w'. subst r w'. unfold healthVisit. rewrite Hget, Hready.
  simpl status_eqb. cbv iota.
  destruct (checkSessionHealth_probe instanceId w inst Hget)
    as (w1 & -> & Hi & Hs & Ht & He & Hn).
  unfold probeEffect.
  destruct (healthy (replyAt 0 w)) eqn:Hh.
  - world_simpl. rewrite Hi, Hn. unfold JsMap.adjust. rewrite Hget.
    assert (Hlt : (took (replyAt 0 w) <? 3000) = true).
    { unfold healthy in Hh. now apply andb_true_iff in Hh as [Hh _]. }
    rewrite Hlt. repeat split; assumption.
  - unfold emit, setTimeout. world_simpl. rewrite Hi. unfold JsMap.adjust. rewrite Hget.
    repeat split; congruence.
Qed.

Lemma probed_ext (w w1 : World) (ks : list string) :
  (forall k, k ∈ ks -> JsMap.get k (instances w1) = JsMap.get k (instances w)) ->
  probed w1 ks = probed w ks.
Proof.
  intros H. unfold probed. induction ks as [|k ks IH]; [reflexivity|].
  rewrite !filter_cons.
  assert (Hk : readyIn w1 k = readyIn w k).
  { unfold readyIn. rewrite (H k); [reflexivity|left]. }
  rewrite Hk. rewrite IH by (intros k' Hk'; apply H; now right). reflexivity.
Qed.

Lemma healthSweep_from (ks : list string) :
  forall w : World,
    NoDup ks ->
    let w' := fold_left healthVisit ks w in
    JsMap.keys (instances w') = JsMap.keys (instances w)
    /\ script w' = drop (length (probed w ks)) (script w)
    /\ (forall k, k ∉ probed w ks ->
          JsMap.get k (instances w') = JsMap.get k (instances w))
    /\ (forall (n : nat) k inst,
          probed w ks !! n = Some k ->
          JsMap.get k (instances w) = Some inst ->
          exists started,
            JsMap.get k (instances w')
            = Some (probeEffect (replyAt n w) started inst))
    /\ (forall (n : nat) k,
          probed w ks !! n = Some k ->
          healthy (replyAt n w) = false ->
          ImmediateReconnect k ∈ timers w').
Proof.
  induction ks as [|d ks IH]; intros w Hnd; simpl.
  - split; [reflexivity|]. split; [reflexivity|]. split; [reflexivity|].
    split; intros n k; intros; discriminate.
  - apply NoDup_cons in Hnd as [Hd Hnd].
    destruct (readyIn w d) eqn:Hready.
    + pose proof Hready as Hready0. unfold readyIn in Hready.
      destruct (JsMap.get d (instances w)) as [inst|] eqn:Hget; [|discriminate].
      apply status_eqb_ready in Hready.
      destruct (healthVisit_probes w d inst Hget Hready) as (Hi & Hs & Ht & _).
      set (w1 := healthVisit w d) in *.
      assert (Hsame : forall k, k ∈ ks ->
                JsMap.get k (instances w1) = JsMap.get k (instances w)).
      { intros k Hk. rewrite Hi. apply get_set_other. intros ->. contradiction. }
      destruct (IH w1 Hnd) as (IHk & IHs & IHo & IHp & IHt).
      rewrite (probed_ext w w1 ks Hsame) in *.
      assert (Hp : probed w (d :: ks) = d :: probed w ks).
      { unfold probed. rewrite filter_cons. now rewrite decide_True by exact Hready0. }
      rewrite Hp.
      assert (Hdp : d ∉ probed w ks).
      { intros Hin. apply list_elem_of_filter in Hin as [_ Hin]. contradiction. }
      split; [|split; [|split; [|split]]].
      * rewrite IHk, Hi. rewrite keys_set.
        assert (Hhas : JsMap.has d (instances w) = true)
          by (unfold JsMap.has; now rewrite Hget).
        now rewrite Hhas.
      * rewrite IHs, Hs. simpl length.
        destruct (script w); simpl; [now rewrite drop_nil|reflexivity].
      * intros k Hk. apply not_elem_of_cons in Hk as [Hne Hk].
        rewrite IHo by exact Hk. rewrite Hi. now apply get_set_other.
      * intros [|n] k inst0 Hn Hk.
        -- injection Hn as <-. rewrite Hget in Hk. injection Hk as <-.
           exists (now w).
           rewrite IHo by exact Hdp. rewrite Hi. apply get_set_same.
        -- simpl in Hn.
           assert (Hkin : k ∈ ks).
           { apply list_elem_of_lookup_2 in Hn.
             now apply list_elem_of_filter in Hn as [_ Hn]. }
           rewrite <- Hsame in Hk by exact Hkin.
           destruct (IHp n k inst0 Hn Hk) as (started & Hres).
           exists started.
           rewrite (replyAt_tail n w w1 Hs) in Hres. exact Hres.
      * intros [|n] k Hn Hbad.
        -- injection Hn as <-. simpl in Hbad.
           assert (Hin : ImmediateReconnect d ∈ timers w1).
           { rewrite Ht, Hbad. apply elem_of_app. right. left. }
           clear -Hin. subst w1.
           revert Hin. generalize (healthVisit w d) as w0.
           induction ks as [|k ks IHks]; intros w0 Hin; [exact Hin|].
           simpl. apply IHks.
           unfold healthVisit.
           destruct (JsMap.get k (instances w0)) as [i|] eqn:Hg; [|exact Hin].
           destruct (status_eqb (status i) ready) eqn:Hr; [|exact Hin].
           apply status_eqb_ready in Hr.
           destruct (healthVisit_probes w0 k i Hg Hr) as (_ & _ & Ht0 & _).
           unfold healthVisit in Ht0. rewrite Hg in Ht0.
           apply status_eqb_ready in Hr. rewrite Hr in Ht0. rewrite Ht0.
           destruct (healthy (replyAt 0 w0)); [exact Hin|].
           apply elem_of_app. now left.
        -- simpl in Hn. apply (IHt n k Hn).
           now rewrite (replyAt_tail n w w1 Hs).
    + rewrite healthVisit_skips by exact Hready.
      assert (Hp : probed w (d :: ks) = probed w ks).
      { unfold probed. rewrite filter_cons.
        now rewrite decide_False by (rewrite Hready; discriminate). }
      rewrite Hp. apply (IH w Hnd).
Qed.

(** X19 ([startHealthMonitoring], [checkSessionHealth]).  One tick of
    the health monitor, on a registry that holds each key once.  Exactly the
    instances that are ready when the tick starts are probed, in registry
    order, one call to the client each; the [n]-th of them is judged by the
    [n]-th reply: connected within three seconds refreshes [lastActivity],
    anything else marks the instance [disconnected] and arms an immediate
    reconnection.  Instances that are not ready are left as they are, no key
    appears or disappears, and no record loses its authentication flag, its
    counter or its client: unlike a disconnection reported by the client, one
    found by the monitor stays eligible for the sweep. *)
Theorem healthSweep_probes_ready (w : World) :
  NoDup (JsMap.keys (instances w)) ->
  let ids := probed w (JsMap.keys (instances w)) in
  let w' := healthSweep w in
  JsMap.keys (instances w') = JsMap.keys (instances w)
  /\ script w' = drop (length ids) (script w)
  /\ (forall instanceId inst,
        JsMap.get instanceId (instances w) = Some inst ->
        status inst <> ready ->
        JsMap.get instanceId (instances w') = Some inst)
  /\ (forall (n : nat) instanceId inst,
        ids !! n = Some instanceId ->
        JsMap.get instanceId (instances w) = Some inst ->
        exists started,
          JsMap.get instanceId (instances w')
          = Some (probeEffect (replyAt n w) started inst))
  /\ (forall (n : nat) instanceId,
        ids !! n = Some instanceId ->
        healthy (replyAt n w) = false ->
        ImmediateReconnect instanceId ∈ timers w')
  /\ (forall instanceId inst',
        JsMap.get instanceId (instances w') = Some inst' ->
        exists inst,
          JsMap.get instanceId (instances w) = Some inst
          /\ hasValidAuth inst' = hasValidAuth inst
          /\ reconnectAttempts inst' = reconnectAttempts inst
          /\ client inst' = client inst
          /\ (status inst' = status inst
              \/ status inst = ready /\ status inst' = disconnected)).
Proof.
  intros Hnd ids w'. subst ids w'. unfold healthSweep.
  destruct (healthSweep_from (JsMap.keys (instances w)) w Hnd)
    as (Hk & Hs & Ho & Hp & Ht).
  split; [exact Hk|]. split; [exact Hs|].
  split; [|split; [exact Hp|split; [exact Ht|]]].
  - intros id inst Hget Hst. rewrite Ho; [exact Hget|].
    intros Hin. apply list_elem_of_filter in Hin as [Hin _].
    unfold readyIn in Hin. rewrite Hget in Hin.
    apply status_eqb_ready in Hin. contradiction.
  - intros id inst' Hget'.
    destruct (decide (id ∈ probed w (JsMap.keys (instances w)))) as [Hin | Hout].
    + pose proof Hin as Hin0.
      apply list_elem_of_filter in Hin0 as [Hready _].
      unfold readyIn in Hready.
      destruct (JsMap.get id (instances w)) as [inst|] eqn:Hget; [|discriminate].
      apply status_eqb_ready in Hready.
      apply list_elem_of_lookup_1 in Hin as [n Hn].
      destruct (Hp n id inst Hn Hget) as (started & Hres).
      rewrite Hres in Hget'. injection Hget' as <-.
      exists inst. split; [reflexivity|]. unfold probeEffect.
      destruct (healthy (replyAt n w)); simpl; repeat split; auto.
    + rewrite Ho in Hget' by exact Hout. exists inst'. repeat split; auto.
Qed.

Lemma healthSweep_probes_ready_witness :
  JsMap.keys (instances (healthSweep readyWorld)) = JsMap.keys (instances readyWorld)
  /\ script (healthSweep readyWorld) = []
  /\ ImmediateReconnect "a" ∈ timers (healthSweep readyWorld).
Proof.
  destruct (healthSweep_probes_ready readyWorld)
    as (Hkeys & Hscript & _ & _ & Htimer & _).
  - apply NoDup_singleton.
  - split; [exact Hkeys|]. split; [exact Hscript|].
    apply (Htimer 0%nat "a"); reflexivity.
Defined.

(** X20 ([startKeepAlive]).  A keep-alive tick on a ready instance
    whose probe rejects and whose re-check half a second later is not
    healthy: the instance is marked [disconnected] and an immediate
    reconnection is armed, after two calls to the client.  Unlike the health
    monitor, this path emits no [instance_status_changed] notification.  The
    authentication flag is kept: the sweep picks the instance when the flag
    is set and no attempt is running. *)
Theorem keepAliveTick_failure_path (instanceId : string) (w : World)
    (inst : Instance) (probe check : Reply) (rest : list Reply) (error : string) :
  JsMap.get instanceId (instances w) = Some inst ->
  status inst = ready ->
  script w = probe :: check :: rest ->
  answer probe = Rejects error ->
  healthy check = false ->
  let w' := keepAliveTick instanceId w in
  JsMap.get instanceId (instances w') = Some (set_status disconnected inst)
  /\ timers w' = (timers w ++ [ImmediateReconnect instanceId])%list
  /\ emitted w' = emitted w
  /\ script w' = rest
  /\ eligibleIn w' instanceId = hasValidAuth inst && negb (reconnecting inst).
Proof.
  intros Hget Hready Hscript Hprobe Hcheck w'. subst w'.
  unfold keepAliveTick. rewrite Hget, Hready. simpl status_eqb. cbv iota.
  unfold awaitClient, nextReply. rewrite Hscript, Hprobe. simpl.
  unfold checkSessionHealth. simpl. rewrite Hget.
  unfold awaitClientWithin, nextReply. simpl.
  unfold healthy in Hcheck.
  destruct (took check <? 3000) eqn:Hlt; simpl in *.
  - destruct (answer check) as [[| | |s|]|e'] eqn:Ha; simpl; rewrite ?Hget, ?Hready; simpl;
      try rewrite Hcheck; simpl;
      unfold setTimeout, eligibleIn; world_simpl;
      rewrite get_adjust_same, Hget; simpl; repeat split.
  - rewrite Hget, Hready. simpl.
    unfold setTimeout, eligibleIn; world_simpl;
      rewrite get_adjust_same, Hget; simpl; repeat split.
Qed.

Lemma keepAliveTick_failure_path_witness :
  timers (keepAliveTick "a" silentWorld) = [ImmediateReconnect "a"]
  /\ emitted (keepAliveTick "a" silentWorld) = []
  /\ eligibleIn (keepAliveTick "a" silentWorld) "a" = true.
Proof.
  destruct (keepAliveTick_failure_path "a" silentWorld
              (sampleInstance "a" ready true None)
              (mkReply 5 (Rejects "Session closed"))
              (mkReply 5 (Rejects "Session closed")) [] "Session closed")
    as (_ & Htimers & Hemitted & _ & Heligible).
  - reflexivity.
  - reflexivity.
  - reflexivity.
  - reflexivity.
  - reflexivity.
  - split; [exact Htimers|]. split; [exact Hemitted | exact Heligible].
Defined.

(** ** Profile pictures: batches and cache keys *)

(** X21 ([getMultipleProfilePics]).  With a batch size of 0 or less and
    at least one id, the loop [for (i = 0; i < contactIds.length;
    i += batchSize)] never ends: the index never exceeds 0, so however many
    rounds are run the loop is still running.  The callers inside the manager
    pass 3, 4 or 5; the method itself does not check its parameter. *)
Theorem profilePicLoop_needs_positive_batch (instanceId : string)
    (contactIds : list string) (batchSize timeout : Z) :
  batchSize <= 0 ->
  contactIds <> [] ->
  forall (fuel : nat) (i : Z) (m : JsMap.t (option string)) (w : World),
    i <= 0 ->
    profilePicLoop fuel instanceId contactIds batchSize timeout i m w = None.
Proof.
  intros Hb Hne fuel.
  assert (Hlen : 0 < Z.of_nat (length contactIds)).
  { destruct contactIds; [contradiction|]. simpl. lia. }
  induction fuel as [|fuel IH]; intros i m w Hi; simpl.
  - assert (E : (i <? Z.of_nat (length contactIds)) = true) by (apply Z.ltb_lt; lia).
    now rewrite E.
  - assert (E : (i <? Z.of_nat (length contactIds)) = true) by (apply Z.ltb_lt; lia).
    rewrite E.
    destruct (beginBatch _ _ _) as [pending w1].
    destruct (finishBatch _ _ _ _ _) as [results w2].
    destruct (nextBatchRace w2) as [[|] w3]; apply IH; lia.
Qed.

Lemma profilePicLoop_needs_positive_batch_witness :
  profilePicLoop 100 "a" ["x"] (-1) 3000 0 [] readyWorld = None.
Proof.
  apply (profilePicLoop_needs_positive_batch "a" ["x"] (-1) 3000).
  - lia.
  - discriminate.
  - lia.
Defined.

Lemma colon_free_cons (a : ascii) (s : string) :
  includes (String a s) ":" = false -> a <> ":"%char /\ includes s ":" = false.
Proof.
  rewrite includes_unfold. intros H. apply orb_false_iff in H as [Hp Hs].
  split; [|exact Hs]. intros ->. simpl in Hp. destruct s; discriminate.
Qed.

Lemma cacheKey_split (i1 i2 c1 c2 : string) :
  includes i1 ":" = false -> includes i2 ":" = false ->
  cacheKey i1 c1 = cacheKey i2 c2 -> i1 = i2 /\ c1 = c2.
Proof.
  unfold cacheKey. revert i2. induction i1 as [|a i1 IH]; intros [|b i2] H1 H2 Heq; simpl in Heq.
  - injection Heq as ->. now split.
  - apply colon_free_cons in H2 as [Hb _]. injection Heq as Hab _. now symmetry in Hab.
  - apply colon_free_cons in H1 as [Ha _]. injection Heq as Hab _. contradiction.
  - apply colon_free_cons in H1 as [_ H1]. apply colon_free_cons in H2 as [_ H2].
    injection Heq as -> Heq. destruct (IH i2 H1 H2 Heq) as [-> ->]. now split.
Qed.

Lemma string_append_assoc (a b c : string) : (a ++ b) ++ c = a ++ b ++ c.
Proof. induction a as [|x a IH]; simpl; [reflexivity|]. now rewrite IH. Qed.

Lemma belongsTo_cacheKey (instanceId contactId : string) :
  belongsTo instanceId (cacheKey instanceId contactId) = true.
Proof.
  unfold belongsTo, cacheKey. apply prefix_split. exists contactId.
  now rewrite string_append_assoc.
Qed.

Lemma belongsTo_longer_id (instanceId suffix contactId : string) :
  belongsTo instanceId (cacheKey (instanceId ++ ":" ++ suffix) contactId) = true.
Proof.
  unfold belongsTo, cacheKey. apply prefix_split.
  exists (suffix ++ ":" ++ contactId).
  rewrite !string_append_assoc. reflexivity.
Qed.

Lemma belongsTo_other (instanceId other contactId : string) :
  includes instanceId ":" = false -> includes other ":" = false ->
  other <> instanceId ->
  belongsTo instanceId (cacheKey other contactId) = false.
Proof.
  intros H1 H2 Hne. destruct (belongsTo _ _) eqn:E; [|reflexivity].
  unfold belongsTo in E. apply prefix_split in E as [post E].
  rewrite string_append_assoc in E.
  change (cacheKey other contactId = cacheKey instanceId post) in E.
  apply cacheKey_split in E as [E _]; auto. contradiction.
Qed.

Lemma clearProfilePicCache_lookup (instanceId key : string) (w : World) :
  instanceId <> EmptyString ->
  profilePicCache (clearProfilePicCache (Some instanceId) w) !! key =
  if belongsTo instanceId key then None else profilePicCache w !! key.
Proof.
  intros Hne. unfold clearProfilePicCache.
  destruct (String.eqb instanceId EmptyString) eqn:E;
    [apply String.eqb_eq in E; contradiction|].
  simpl. destruct (belongsTo instanceId key) eqn:Hb.
  - apply map_lookup_filter_None. right. intros x _. simpl. congruence.
  - destruct (profilePicCache w !! key) as [x|] eqn:Hk.
    + apply map_lookup_filter_Some. split; [exact Hk|exact Hb].
    + apply map_lookup_filter_None. now left.
Qed.

(** X22 ([clearProfilePicCache]).  Clearing the cache for a non-empty
    instance id removes every entry of that instance, so that the next lookup
    on the ready instance asks the client again, and changes nothing else in
    the world.  Every entry whose key does not start with the id and a colon
    is kept; in particular the entries of another instance are kept when
    neither id contains a colon.  An instance whose id is the cleared id
    followed by a colon and more loses its entries as well. *)
Theorem clearProfilePicCache_scope (instanceId : string) (w : World) :
  instanceId <> EmptyString ->
  let w' := clearProfilePicCache (Some instanceId) w in
  (forall contactId, profilePicCache w' !! cacheKey instanceId contactId = None)
  /\ (forall key,
        belongsTo instanceId key = false ->
        profilePicCache w' !! key = profilePicCache w !! key)
  /\ (forall other contactId,
        includes instanceId ":" = false -> includes other ":" = false ->
        other <> instanceId ->
        profilePicCache w' !! cacheKey other contactId
        = profilePicCache w !! cacheKey other contactId)
  /\ (forall suffix contactId,
        profilePicCache w' !! cacheKey (instanceId ++ ":" ++ suffix) contactId = None)
  /\ (forall contactId,
        readyIn w instanceId = true ->
        beginLookup instanceId contactId w'
        = (Asked (replyAt 0 w), set_script (tail (script w)) w'))
  /\ w' = set_profilePicCache (profilePicCache w') w.
Proof.
  intros Hne w'. subst w'.
  split; [|split; [|split; [|split; [|split]]]].
  - intros c. rewrite clearProfilePicCache_lookup by exact Hne.
    now rewrite belongsTo_cacheKey.
  - intros key Hkey. rewrite clearProfilePicCache_lookup by exact Hne. now rewrite Hkey.
  - intros other c H1 H2 Hother. rewrite clearProfilePicCache_lookup by exact Hne.
    now rewrite belongsTo_other.
  - intros suffix c. rewrite clearProfilePicCache_lookup by exact Hne.
    now rewrite belongsTo_longer_id.
  - intros c Hready. rewrite beginLookup_miss.
    + unfold clearProfilePicCache.
      destruct (String.eqb instanceId EmptyString); unfold readyIn in *; simpl;
        now rewrite Hready.
    + unfold stale. rewrite clearProfilePicCache_lookup by exact Hne.
      now rewrite belongsTo_cacheKey.
  - unfold clearProfilePicCache.
    destruct (String.eqb instanceId EmptyString); reflexivity.
Qed.

Lemma clearProfilePicCache_scope_witness :
  profilePicCache (clearProfilePicCache (Some "a") cachedWorld) !! cacheKey "a" "c"
  = None
  /\ profilePicCache (clearProfilePicCache (Some "a") cachedWorld) !! cacheKey "b" "c"
     = profilePicCache cachedWorld !! cacheKey "b" "c".
Proof.
  destruct (clearProfilePicCache_scope "a" cachedWorld)
    as (Hgone & _ & Hkept & _).
  - discriminate.
  - split; [exact (Hgone "c")|].
    apply (Hkept "b" "c"); [reflexivity | reflexivity | discriminate].
Defined.

(** X23 ([getProfilePicWithCache], the cache key).  For instance ids
    without a colon the key [`${instanceId}:${contactId}`] determines the
    instance and the contact: two lookups share a cache entry only when they
    are for the same contact of the same instance. *)
Theorem cacheKey_injective (i1 i2 c1 c2 : string) :
  includes i1 ":" = false -> includes i2 ":" = false ->
  cacheKey i1 c1 = cacheKey i2 c2 -> i1 = i2 /\ c1 = c2.
Proof. apply cacheKey_split. Qed.

Lemma cacheKey_injective_witness : "a" = "a" /\ "c@c.us" = "c@c.us".
Proof.
  apply (cacheKey_injective "a" "a" "c@c.us" "c@c.us"); reflexivity.
Defined.

(** X24 ([getProfilePicWithCache], the cache key).  An instance id may
    contain a colon, and then the key does not determine the instance: the
    contact [contactId] of the instance [instanceId:suffix] and the contact
    [suffix:contactId] of the instance [instanceId] share one cache entry,
    although the two instances are different. *)
Theorem cacheKey_collision (instanceId suffix contactId : string) :
  cacheKey (instanceId ++ ":" ++ suffix) contactId
  = cacheKey instanceId (suffix ++ ":" ++ contactId)
  /\ instanceId ++ ":" ++ suffix <> instanceId.
Proof.
  split.
  - unfold cacheKey. now rewrite !string_append_assoc.
  - induction instanceId as [|a s IH]; simpl; [discriminate|].
    intros H. injection H as H. contradiction.
Qed.

(** ** Shutdown *)

Lemma cleanupVisit_registered (w : World) (instanceId : string) :
  instanceId ∈ JsMap.keys (instances w) ->
  let w' := cleanupVisit w instanceId in
  instances w' = JsMap.adjust instanceId (set_keepAliveInterval false) (instances w)
  /\ script w' = tail (script w)
  /\ sessions w' = sessions w
  /\ emitted w' = emitted w
  /\ timers w' = timers w
  /\ batchTimerFirst w' = batchTimerFirst w
  /\ nextClient w' = nextClient w.
Proof.
  intros Hin. apply has_key in Hin. unfold JsMap.has in Hin.
  unfold cleanupVisit. destruct (JsMap.get instanceId (instances w)) as [inst|] eqn:Hget;
    [clear Hin|discriminate].
  unfold tryCatch, bind, perform, stopKeepAlive, awaitClient, ret.
  world_simpl.
  destruct (answer (replyAt 0 _)); simpl; repeat split.
Qed.

Lemma cleanup_loop (ks : list string) :
  forall w : World,
    (forall k, k ∈ ks -> k ∈ JsMap.keys (instances w)) ->
    let w' := fold_left cleanupVisit ks w in
    JsMap.keys (instances w') = JsMap.keys (instances w)
    /\ script w' = drop (length ks) (script w)
    /\ sessions w' = sessions w
    /\ emitted w' = emitted w
    /\ timers w' = timers w
    /\ batchTimerFirst w' = batchTimerFirst w
    /\ nextClient w' = nextClient w.
Proof.
  induction ks as [|k ks IH]; intros w Hks; simpl.
  - repeat split.
  - destruct (cleanupVisit_registered w k) as (Hi & Hs & Hd & He & Ht & Hb & Hc).
    { apply Hks. left. }
    destruct (IH (cleanupVisit w k)) as (Hi' & Hs' & Hd' & He' & Ht' & Hb' & Hc').
    { intros k' Hk'. rewrite Hi, keys_adjust. apply Hks. now right. }
    rewrite Hi'. rewrite Hi, keys_adjust. rewrite Hs', Hs.
    repeat split; try congruence.
    destruct (script w); simpl; [now rewrite drop_nil|reflexivity].
Qed.

(** X25 ([cleanup], [stopHealthMonitoring], [stopAutoReconnection]).
    Whatever the clients answer to their teardown, [cleanup] ends with both
    intervals cleared, an empty registry and an empty picture cache, after
    one call per registered instance.  The session directories are kept, so
    the next start recovers them, and nothing is emitted.  Timeouts that are
    still pending are not cancelled, but whichever of them fires afterwards
    finds no instance and does nothing, as would a tick of the health monitor
    or of the sweep. *)
Theorem cleanup_leaves_nothing_running (m : Manager) :
  let w := world m in
  let w' := world (cleanup m) in
  healthCheckInterval (cleanup m) = false
  /\ reconnectionInterval (cleanup m) = false
  /\ instances w' = []
  /\ profilePicCache w' = ∅
  /\ script w' = drop (JsMap.size (instances w)) (script w)
  /\ sessions w' = sessions w
  /\ emitted w' = emitted w
  /\ timers w' = timers w
  /\ (forall t, runTimer t w' = w')
  /\ healthSweep w' = w'
  /\ reconnectionSweep w' = w'
  /\ getInstancesStatus w' = [].
Proof.
  intros w w'.
  assert (Hw : world (stopAutoReconnection (stopHealthMonitoring m)) = w).
  { unfold stopAutoReconnection, stopHealthMonitoring.
    destruct m as [w0 [|] [|]]; reflexivity. }
  assert (Hh : healthCheckInterval (stopAutoReconnection (stopHealthMonitoring m)) = false).
  { unfold stopAutoReconnection, stopHealthMonitoring.
    destruct m as [w0 [|] [|]]; reflexivity. }
  assert (Hr : reconnectionInterval (stopAutoReconnection (stopHealthMonitoring m)) = false).
  { unfold stopAutoReconnection, stopHealthMonitoring.
    destruct m as [w0 [|] [|]]; reflexivity. }
  destruct (cleanup_loop (JsMap.keys (instances w)) w) as (_ & Hs & Hd & He & Ht & _).
  { auto. }
  subst w'. unfold cleanup. rewrite Hw, Hh, Hr. simpl.
  unfold JsMap.keys in Hs. rewrite length_map in Hs.
  repeat split; auto.
  intros [k | k]; reflexivity.
Qed.

(** ** Sending, and the reconnect route *)

Lemma includes_at (to : string) : includes (to ++ "@c.us") "@" = true.
Proof. apply includes_substring. exists to, "c.us". reflexivity. Qed.

(** X26 ([sendMessage], [sendMedia], the recipient).  The chat id
    handed to the client always contains an [@]: a recipient that has one is
    passed on as it is, so group ids are kept, and any other gets [@c.us]
    appended; normalising twice changes nothing. *)
Theorem chatIdOf_normalises (to : string) :
  includes (chatIdOf to) "@" = true
  /\ chatIdOf (chatIdOf to) = chatIdOf to
  /\ (includes to "@" = true -> chatIdOf to = to)
  /\ (includes to "@" = false -> chatIdOf to = to ++ "@c.us").
Proof.
  unfold chatIdOf. destruct (includes to "@") eqn:E.
  - rewrite E. repeat split; auto. discriminate.
  - rewrite includes_at. repeat split; auto. discriminate.
Qed.

(** X27 ([sendMedia]).  Unlike [sendMessage], [sendMedia] is not
    wrapped in [executeWithRecovery]: whatever the client answers, also a
    session error, no recovery is started.  The registry keeps its keys and
    its records, except that a successful send stamps [lastActivity] of the
    ready instance; no status changes, no client is built, at most one call
    is made to the client, the disk and the socket are untouched, and a call
    that throws leaves the registry exactly as it was. *)
Theorem sendMedia_never_recovers (instanceId to : string) (media : MediaFile)
    (w : World) :
  let w' := snd (sendMedia instanceId to media w) in
  JsMap.keys (instances w') = JsMap.keys (instances w)
  /\ (forall k i',
        JsMap.get k (instances w') = Some i' ->
        exists i,
          JsMap.get k (instances w) = Some i
          /\ (i' = i
              \/ (k = instanceId /\ status i = ready
                  /\ exists t, i' = set_lastActivity t i)))
  /\ (script w' = script w \/ script w' = tail (script w))
  /\ nextClient w' = nextClient w
  /\ sessions w' = sessions w
  /\ emitted w' = emitted w
  /\ (forall error,
        fst (sendMedia instanceId to media w) = Threw error ->
        instances w' = instances w).
Proof.
  intros w'. subst w'. unfold sendMedia, tryCatch.
  assert (Hsame : forall k i', JsMap.get k (instances w) = Some i' ->
            exists i, JsMap.get k (instances w) = Some i
              /\ (i' = i \/ (k = instanceId /\ status i = ready
                             /\ exists t, i' = set_lastActivity t i))).
  { intros k i' H. exists i'. auto. }
  destruct (JsMap.get instanceId (instances w)) as [inst|] eqn:Hget;
    [|simpl; repeat split; auto].
  destruct (status_eqb (status inst) ready) eqn:Hready;
    [|simpl; repeat split; auto].
  apply status_eqb_ready in Hready. simpl negb. cbv iota.
  destruct media as [|message]; [|simpl; repeat split; auto].
  unfold bind, awaitClient. rewrite nextReply_eq.
  destruct (answer (replyAt 0 w)) as [v | e]; simpl.
  - destruct v; simpl; try (repeat split; auto; fail).
    world_simpl. split; [apply keys_adjust|]. split.
    + intros k i' H. apply get_adjust_cases in H as (i & Hi & [-> | [-> ->]]).
      * exists i. auto.
      * exists i. split; [exact Hi|]. right. split; [reflexivity|].
        rewrite Hget in Hi. injection Hi as <-. split; [exact Hready|]. eauto.
    + repeat split; auto. intros error H. discriminate.
  - repeat split; auto.
Qed.

Lemma status_eqb_disconnected (s : Status) :
  status_eqb s disconnected = true <-> s = disconnected.
Proof. destruct s; split; intros H; try reflexivity; discriminate. Qed.

(** X28 (route [POST /instances/:instanceId/reconnect]).  The route
    changes the world as the guarded call of [attemptAutoReconnection] does,
    and answers that an attempt was started exactly when the instance is
    registered and [disconnected].  That answer says nothing about the
    attempt: it is also given when an attempt is already running and the call
    returned at once, and when the counter had reached the bound and the call
    marked the instance [failed]. *)
Theorem reconnectRequest_answers (instanceId : string) (w : World) :
  snd (reconnectRequest instanceId w) = reconnectRoute instanceId w
  /\ (fst (reconnectRequest instanceId w) = AttemptStarted
      <-> exists inst,
            JsMap.get instanceId (instances w) = Some inst
            /\ status inst = disconnected)
  /\ (forall inst,
        JsMap.get instanceId (instances w) = Some inst ->
        status inst = disconnected ->
        reconnecting inst = true ->
        reconnectRequest instanceId w = (AttemptStarted, w))
  /\ (forall inst,
        JsMap.get instanceId (instances w) = Some inst ->
        status inst = disconnected ->
        reconnecting inst = false ->
        maxReconnectAttempts <= attemptsOrZero inst ->
        fst (reconnectRequest instanceId w) = AttemptStarted
        /\ status <$> JsMap.get instanceId
                        (instances (snd (reconnectRequest instanceId w)))
           = Some failed).
Proof.
  unfold reconnectRequest, reconnectRoute, getInstanceStatus.
  split; [|split; [|split]].
  - destruct (JsMap.get instanceId (instances w)) as [inst|]; [|reflexivity].
    destruct (status inst); reflexivity.
  - destruct (JsMap.get instanceId (instances w)) as [inst|].
    + split.
      * intros H. exists inst. split; [reflexivity|].
        destruct (status inst); try discriminate. reflexivity.
      * intros (inst0 & Hi & Hs). injection Hi as <-. now rewrite Hs.
    + split; [discriminate|]. intros (inst0 & Hi & _). discriminate.
  - intros inst Hget Hs Hbusy. rewrite Hget, Hs. simpl.
    now rewrite (attemptAutoReconnection_busy instanceId w inst Hget Hbusy).
  - intros inst Hget Hs Hbusy Hmax. rewrite Hget, Hs. simpl. split; [reflexivity|].
    rewrite (attempt_gives_up instanceId w inst Hget Hbusy) by lia.
    simpl. now rewrite get_set_same.
Qed.
